(** * Streaming decoder of the ChatGLM router provider (src/provider.ts)

    A shallow embedding of the per-request decoder of
    [ChatGLMRouterProvider]: the structured tool-call accumulator
    ([processDelta], [tryEmitBufferedToolCall], [flushToolCallBuffers]),
    the inline sentinel multiplexer ([processTextContent],
    [emitTextToolCallIfValid], [stripControlTokens]) and the read loop
    ([processStreamingResponse]).

    JavaScript strings are modelled as [string] (a sequence of code units,
    here restricted to one byte each; every marker is ASCII).  The provider's
    private fields become one record that is threaded explicitly; the parts
    handed to [progress.report] are collected in a list, in report order. *)

From Stdlib Require Import Ascii String List ZArith NArith Lia Bool DecimalString.
From stdpp Require Import gmap strings list.

Set Warnings "-register-all".

Local Open Scope Z_scope.
Local Open Scope nat_scope.

(** ** JavaScript string primitives *)

Module Js.

Abbreviation len := String.length.

(** [s.slice(n)] for a non-negative [n]. *)
Fixpoint drop (n : nat) (s : string) : string :=
  match n, s with
  | O, _ => s
  | S _, EmptyString => EmptyString
  | S n', String _ s' => drop n' s'
  end.

(** [s.slice(0, n)] for a non-negative [n]. *)
Fixpoint take (n : nat) (s : string) : string :=
  match n, s with
  | O, _ => EmptyString
  | S _, EmptyString => EmptyString
  | S n', String c s' => String c (take n' s')
  end.

(** [s.startsWith(p)]. *)
Fixpoint startsWith (p s : string) : bool :=
  match p, s with
  | EmptyString, _ => true
  | String _ _, EmptyString => false
  | String a p', String b s' => if Ascii.eqb a b then startsWith p' s' else false
  end.

(** [s.endsWith(p)]. *)
Definition endsWith (p s : string) : bool :=
  (len p <=? len s) && startsWith p (drop (len s - len p) s).

(** [s.indexOf(needle)], [None] standing for [-1]. *)
Fixpoint indexOf (needle s : string) : option nat :=
  if startsWith needle s then Some O
  else match s with
       | EmptyString => None
       | String _ s' => option_map S (indexOf needle s')
       end.

(** The quotation mark, code 34. *)
Definition dquote : ascii := Ascii false true false false false true false false.

(** [s] between quotation marks. *)
Definition quoted (s : string) : string :=
  String dquote (String.append s (String dquote EmptyString)).

Definition isEmpty (s : string) : bool :=
  match s with EmptyString => true | _ => false end.

(** White space of [String.prototype.trim] among one-byte code units. *)
Definition isWhite (c : ascii) : bool :=
  let n := nat_of_ascii c in
  ((9 <=? n) && (n <=? 13)) || (n =? 32) || (n =? 160).

Fixpoint trimStart (s : string) : string :=
  match s with
  | EmptyString => EmptyString
  | String c s' => if isWhite c then trimStart s' else s
  end.

Fixpoint trimEnd (s : string) : string :=
  match s with
  | EmptyString => EmptyString
  | String c s' =>
      let t := trimEnd s' in
      if isWhite c && isEmpty t then EmptyString else String c t
  end.

Definition trim (s : string) : string := trimEnd (trimStart s).

(** The longest prefix of [s] made of characters satisfying [p], and
    the rest: what a greedy character class [[...]*] consumes. *)
Fixpoint span (p : ascii -> bool) (s : string) : string * string :=
  match s with
  | EmptyString => (EmptyString, EmptyString)
  | String c s' =>
      if p c then let '(a, b) := span p s' in (String c a, b)
      else (EmptyString, s)
  end.

Definition isDigit (c : ascii) : bool :=
  let n := nat_of_ascii c in (48 <=? n) && (n <=? 57).

Definition isAlnum (c : ascii) : bool :=
  let n := nat_of_ascii c in
  ((48 <=? n) && (n <=? 57)) || ((65 <=? n) && (n <=? 90))
  || ((97 <=? n) && (n <=? 122)).

(** The mathematical value of a string of decimal digits. *)
Fixpoint digitsValue (acc : N) (s : string) : N :=
  match s with
  | EmptyString => acc
  | String c s' =>
      digitsValue (acc * 10 + (N_of_ascii c - 48))%N s'
  end.

(** The decimal digits of a natural number. *)
Definition numberToString (n : N) : string :=
  DecimalString.NilZero.string_of_uint (N.to_uint n).

(** The Numbers that [Number(digits)] can give for decimal digits: a
    double whose value is a natural number, or [Infinity]. *)
Inductive JsNumber :=
| Finite (value : N)
| PositiveInfinity.

(** The double nearest to a natural number, ties to the even significand:
    a double has 53 significant bits, and the finite ones are below
    2^1024. *)
Definition roundToDouble (n : N) : JsNumber :=
  let e := (N.size n - 53)%N in
  let q := N.shiftr n e in
  let r := N.land n (N.ones e) in
  let half := N.shiftl 1 (e - 1) in
  let q' := if (half <? r)%N || ((r =? half)%N && N.odd q) then (q + 1)%N else q in
  let v := N.shiftl q' e in
  if (N.size v <=? 1024)%N then Finite v else PositiveInfinity.

(** [Number(digits)] for a non-empty string of decimal digits, rounded
    as V8 rounds it, to the nearest double. *)
Definition Number (digits : string) : JsNumber :=
  roundToDouble (digitsValue 0 digits).

(** [s.replace(re, "")] for a global regular expression whose match at
    a position, when there is one, is unique: [matchAt s] gives the
    length of the match at the head of [s].  Matches are taken leftmost
    and the scan resumes after each match, as [replace] does. *)
Fixpoint removeAll (matchAt : string -> option nat) (skip : nat) (s : string)
  : string :=
  match s with
  | EmptyString => EmptyString
  | String c s' =>
      match skip with
      | S k => removeAll matchAt k s'
      | O =>
          match matchAt s with
          | Some (S k) => removeAll matchAt k s'
          | _ => String c (removeAll matchAt O s')
          end
      end
  end.

End Js.

Import Js.

(** ** Data model *)

(** One entry of [delta.tool_calls]; absent JSON fields are [None]. *)
Record FunctionFragment := {
  fn_name : option string;
  fn_arguments : option string
}.

Record ToolCallFragment := {
  tc_index : option Z;
  tc_id : option string;
  tc_function : option FunctionFragment
}.

(** The [thinking] field: a plain string, an object with [text] and [id]
    (its [metadata] is passed through untouched and left out), or a value
    of another type, which yields no text. *)
Inductive Thinking :=
| ThinkingString (text : string)
| ThinkingObject (text : option string) (id : option string)
| ThinkingOther.

Record DeltaObj := {
  d_content : option string;
  d_tool_calls : option (list ToolCallFragment);
  d_thinking : option Thinking
}.

Record Choice := {
  ch_delta : option DeltaObj;
  ch_thinking : option Thinking;
  ch_finish_reason : option string
}.

(** A parsed SSE payload: [choices?.[0]] is the head of the list. *)
Record Delta := { choices : list Choice }.

(** What the provider takes from outside [provider.ts]: the JSON object
    parser of [utils.ts], the built-ins [JSON.stringify] and [JSON.parse]
    (the latter already decoded to the fields [processDelta] probes),
    the conversion of a Number to a string that a template literal
    applies, and whether the host exports [LanguageModelThinkingPart]. *)
Class Platform := {
  JsonValue : Type;
  tryParseJSONObject : string -> option JsonValue;
  JSON_stringify : JsonValue -> string;
  JSON_parse : string -> option Delta;
  Number_toString : JsNumber -> string;
  hostHasThinkingPart : bool
}.

(** The id of an emitted tool call: the one the server sent, or a fresh
    one, [prefix] followed by eight random base-36 digits. *)
Inductive CallId :=
| ServerId (id : string)
| FreshId (prefix : string).

(** The parts handed to [progress.report], over the type [J] of parsed
    JSON objects. *)
Inductive PartOf (J : Type) :=
| LanguageModelTextPart (value : string)
| LanguageModelThinkingPart (text : string) (id : option string)
| LanguageModelToolCallPart (callId : CallId) (name : string) (input : J).
Arguments LanguageModelTextPart {J} value.
Arguments LanguageModelThinkingPart {J} text id.
Arguments LanguageModelToolCallPart {J} callId name input.

Abbreviation Part := (PartOf JsonValue).

(** A value of [_toolCallBuffers]. *)
Record ToolCallBuffer := {
  buf_id : option string;
  buf_name : option string;
  buf_args : string
}.

(** [_textToolActive]. *)
Record TextToolActive := {
  tta_name : option string;
  tta_index : option JsNumber;
  tta_argBuffer : string;
  tta_emitted : bool
}.

(** The mutable fields of [ChatGLMRouterProvider].  [_toolCallBuffers] is
    a JavaScript [Map], iterated in insertion order: an association list
    with distinct keys. *)
Record Provider := {
  _toolCallBuffers : list (Z * ToolCallBuffer);
  _completedToolCallIndices : gset Z;
  _hasEmittedAssistantText : bool;
  _emittedBeginToolCallsHint : bool;
  _textToolParserBuffer : string;
  _textToolActive : option TextToolActive;
  _emittedTextToolCallKeys : gset string;
  _emittedTextToolCallIds : gset string;
  _outputTokenCount : N
}.

(** The variables of one run of the [while] loop of [processTextContent]. *)
Record ScanOf (J : Type) := {
  sc_provider : Provider;
  sc_data : string;
  sc_visibleOut : string;
  sc_emittedAny : bool;
  sc_parts : list (PartOf J)
}.
Arguments Build_ScanOf {J} _ _ _ _ _.
Arguments sc_provider {J} _.
Arguments sc_data {J} _.
Arguments sc_visibleOut {J} _.
Arguments sc_emittedAny {J} _.
Arguments sc_parts {J} _.

Abbreviation Scan := (ScanOf JsonValue).

(** How a call ends: it returns, or it throws an [Error] with a message. *)
Inductive Completion (A : Type) :=
| Returned (result : A)
| Threw (message : string).
Arguments Returned {A} result.
Arguments Threw {A} message.

(** The field values of a new provider instance. *)
Definition newProvider : Provider := {|
  _toolCallBuffers := [];
  _completedToolCallIndices := ∅;
  _hasEmittedAssistantText := false;
  _emittedBeginToolCallsHint := false;
  _textToolParserBuffer := "";
  _textToolActive := None;
  _emittedTextToolCallKeys := ∅;
  _emittedTextToolCallIds := ∅;
  _outputTokenCount := 0%N
|}.

(** *** Field updates *)

Definition set_toolCallBuffers (v : list (Z * ToolCallBuffer)) (p : Provider) : Provider :=
  {| _toolCallBuffers := v;
     _completedToolCallIndices := _completedToolCallIndices p;
     _hasEmittedAssistantText := _hasEmittedAssistantText p;
     _emittedBeginToolCallsHint := _emittedBeginToolCallsHint p;
     _textToolParserBuffer := _textToolParserBuffer p;
     _textToolActive := _textToolActive p;
     _emittedTextToolCallKeys := _emittedTextToolCallKeys p;
     _emittedTextToolCallIds := _emittedTextToolCallIds p;
     _outputTokenCount := _outputTokenCount p |}.

Definition set_completedToolCallIndices (v : gset Z) (p : Provider) : Provider :=
  {| _toolCallBuffers := _toolCallBuffers p;
     _completedToolCallIndices := v;
     _hasEmittedAssistantText := _hasEmittedAssistantText p;
     _emittedBeginToolCallsHint := _emittedBeginToolCallsHint p;
     _textToolParserBuffer := _textToolParserBuffer p;
     _textToolActive := _textToolActive p;
     _emittedTextToolCallKeys := _emittedTextToolCallKeys p;
     _emittedTextToolCallIds := _emittedTextToolCallIds p;
     _outputTokenCount := _outputTokenCount p |}.

Definition set_hasEmittedAssistantText (v : bool) (p : Provider) : Provider :=
  {| _toolCallBuffers := _toolCallBuffers p;
     _completedToolCallIndices := _completedToolCallIndices p;
     _hasEmittedAssistantText := v;
     _emittedBeginToolCallsHint := _emittedBeginToolCallsHint p;
     _textToolParserBuffer := _textToolParserBuffer p;
     _textToolActive := _textToolActive p;
     _emittedTextToolCallKeys := _emittedTextToolCallKeys p;
     _emittedTextToolCallIds := _emittedTextToolCallIds p;
     _outputTokenCount := _outputTokenCount p |}.

Definition set_emittedBeginToolCallsHint (v : bool) (p : Provider) : Provider :=
  {| _toolCallBuffers := _toolCallBuffers p;
     _completedToolCallIndices := _completedToolCallIndices p;
     _hasEmittedAssistantText := _hasEmittedAssistantText p;
     _emittedBeginToolCallsHint := v;
     _textToolParserBuffer := _textToolParserBuffer p;
     _textToolActive := _textToolActive p;
     _emittedTextToolCallKeys := _emittedTextToolCallKeys p;
     _emittedTextToolCallIds := _emittedTextToolCallIds p;
     _outputTokenCount := _outputTokenCount p |}.

Definition set_textToolParserBuffer (v : string) (p : Provider) : Provider :=
  {| _toolCallBuffers := _toolCallBuffers p;
     _completedToolCallIndices := _completedToolCallIndices p;
     _hasEmittedAssistantText := _hasEmittedAssistantText p;
     _emittedBeginToolCallsHint := _emittedBeginToolCallsHint p;
     _textToolParserBuffer := v;
     _textToolActive := _textToolActive p;
     _emittedTextToolCallKeys := _emittedTextToolCallKeys p;
     _emittedTextToolCallIds := _emittedTextToolCallIds p;
     _outputTokenCount := _outputTokenCount p |}.

Definition set_textToolActive (v : option TextToolActive) (p : Provider) : Provider :=
  {| _toolCallBuffers := _toolCallBuffers p;
     _completedToolCallIndices := _completedToolCallIndices p;
     _hasEmittedAssistantText := _hasEmittedAssistantText p;
     _emittedBeginToolCallsHint := _emittedBeginToolCallsHint p;
     _textToolParserBuffer := _textToolParserBuffer p;
     _textToolActive := v;
     _emittedTextToolCallKeys := _emittedTextToolCallKeys p;
     _emittedTextToolCallIds := _emittedTextToolCallIds p;
     _outputTokenCount := _outputTokenCount p |}.

Definition set_emittedTextToolCallKeys (v : gset string) (p : Provider) : Provider :=
  {| _toolCallBuffers := _toolCallBuffers p;
     _completedToolCallIndices := _completedToolCallIndices p;
     _hasEmittedAssistantText := _hasEmittedAssistantText p;
     _emittedBeginToolCallsHint := _emittedBeginToolCallsHint p;
     _textToolParserBuffer := _textToolParserBuffer p;
     _textToolActive := _textToolActive p;
     _emittedTextToolCallKeys := v;
     _emittedTextToolCallIds := _emittedTextToolCallIds p;
     _outputTokenCount := _outputTokenCount p |}.

Definition set_emittedTextToolCallIds (v : gset string) (p : Provider) : Provider :=
  {| _toolCallBuffers := _toolCallBuffers p;
     _completedToolCallIndices := _completedToolCallIndices p;
     _hasEmittedAssistantText := _hasEmittedAssistantText p;
     _emittedBeginToolCallsHint := _emittedBeginToolCallsHint p;
     _textToolParserBuffer := _textToolParserBuffer p;
     _textToolActive := _textToolActive p;
     _emittedTextToolCallKeys := _emittedTextToolCallKeys p;
     _emittedTextToolCallIds := v;
     _outputTokenCount := _outputTokenCount p |}.

Definition set_outputTokenCount (v : N) (p : Provider) : Provider :=
  {| _toolCallBuffers := _toolCallBuffers p;
     _completedToolCallIndices := _completedToolCallIndices p;
     _hasEmittedAssistantText := _hasEmittedAssistantText p;
     _emittedBeginToolCallsHint := _emittedBeginToolCallsHint p;
     _textToolParserBuffer := _textToolParserBuffer p;
     _textToolActive := _textToolActive p;
     _emittedTextToolCallKeys := _emittedTextToolCallKeys p;
     _emittedTextToolCallIds := _emittedTextToolCallIds p;
     _outputTokenCount := v |}.

(** *** The [Map] operations used on [_toolCallBuffers] *)

Fixpoint mapGet {V} (k : Z) (m : list (Z * V)) : option V :=
  match m with
  | [] => None
  | (k', v) :: m' => if Z.eqb k k' then Some v else mapGet k m'
  end.

(** [Map.set]: an existing key keeps its place, a new one goes last. *)
Fixpoint mapSet {V} (k : Z) (v : V) (m : list (Z * V)) : list (Z * V) :=
  match m with
  | [] => [(k, v)]
  | (k', v') :: m' =>
      if Z.eqb k k' then (k, v) :: m' else (k', v') :: mapSet k v m'
  end.

Definition mapDelete {V} (k : Z) (m : list (Z * V)) : list (Z * V) :=
  List.filter (fun e => negb (Z.eqb k (fst e))) m.

(** Truthiness of an optional string: present and not empty. *)
Definition truthy (o : option string) : bool :=
  match o with
  | Some s => negb (isEmpty s)
  | None => false
  end.

(** [Math.ceil(n / 4)]. *)
Definition ceilDiv4 (n : nat) : N := ((N.of_nat n + 3) / 4)%N.

(** ** The decoder *)

Section Decoder.
Context `{Platform}.

(** *** Control tokens *)

Definition BEGIN : string := "<|tool_call_begin|>".
Definition ARG_BEGIN : string := "<|tool_call_argument_begin|>".
Definition END : string := "<|tool_call_end|>".

(** The class [[a-zA-Z0-9_-]]. *)
Definition isSectionNameChar (c : ascii) : bool :=
  isAlnum c || Ascii.eqb c "_" || Ascii.eqb c "-".

(** A match of [/<\|[a-zA-Z0-9_-]+_section_(?:begin|end)\|>/] at the head
    of [s], as its length.  The run of class characters after ["<|"] has to
    stop at ["|>"], so it is the longest such run, and it has to end with
    one of the two suffixes after at least one more character. *)
Definition matchSectionToken (s : string) : option nat :=
  if startsWith "<|" s then
    let '(run, rest) := span isSectionNameChar (drop 2 s) in
    if startsWith "|>" rest
       && (((len "_section_begin" <? len run) && endsWith "_section_begin" run)
           || ((len "_section_end" <? len run) && endsWith "_section_end" run))
    then Some (len run + 4)
    else None
  else None.

(** A match of [/<\|tool_call_(?:argument_)?(?:begin|end)\|>/] at the head
    of [s], as its length. *)
Definition matchToolCallToken (s : string) : option nat :=
  if startsWith "<|tool_call_begin|>" s then Some (len "<|tool_call_begin|>")
  else if startsWith "<|tool_call_end|>" s then Some (len "<|tool_call_end|>")
  else if startsWith "<|tool_call_argument_begin|>" s
       then Some (len "<|tool_call_argument_begin|>")
  else if startsWith "<|tool_call_argument_end|>" s
       then Some (len "<|tool_call_argument_end|>")
  else None.

Definition stripControlTokens (text : string) : string :=
  removeAll matchToolCallToken 0 (removeAll matchSectionToken 0 text).

(** *** Header of an inline call *)

(** The class [[A-Za-z0-9_\-.]]. *)
Definition isHeaderNameChar (c : ascii) : bool :=
  isAlnum c || Ascii.eqb c "_" || Ascii.eqb c "-" || Ascii.eqb c ".".

(** [header.match(/^([A-Za-z0-9_\-.]+)(?::(\d+))?/)]: the groups 1 and 2. *)
Definition matchHeader (header : string) : option (string * option string) :=
  let '(name, rest) := span isHeaderNameChar header in
  if isEmpty name then None
  else match rest with
       | String ":" r =>
           let '(digits, _) := span isDigit r in
           if isEmpty digits then Some (name, None) else Some (name, Some digits)
       | _ => Some (name, None)
       end.

(** *** Inline calls *)

Definition toolCallKey (name canonical : string) : string :=
  name +:+ ":" +:+ canonical.

Definition emitTextToolCallIfValid (st : Provider) (call : TextToolActive)
    (argText : string) : Provider * list Part * bool :=
  let name := default "unknown_tool" (tta_name call) in
  match tryParseJSONObject argText with
  | None => (st, [], false)
  | Some value =>
      let canonical := JSON_stringify value in
      let key := toolCallKey name canonical in
      let gate :=
        match tta_index call with
        | Some index =>
            let idKey := toolCallKey name (Number_toString index) in
            if bool_decide (idKey ∈ _emittedTextToolCallIds st) then None
            else Some (set_emittedTextToolCallIds
                         ({[idKey]} ∪ _emittedTextToolCallIds st) st)
        | None =>
            if bool_decide (key ∈ _emittedTextToolCallKeys st) then None
            else Some st
        end in
      match gate with
      | None => (st, [], false)
      | Some st1 =>
          let st2 := set_emittedTextToolCallKeys
                       ({[key]} ∪ _emittedTextToolCallKeys st1) st1 in
          (st2, [LanguageModelToolCallPart (FreshId "tct_") name value], true)
      end
  end.

Definition flushActiveTextToolCall (st : Provider) : Provider * list Part :=
  match _textToolActive st with
  | None => (st, [])
  | Some active =>
      let argText := tta_argBuffer active in
      match tryParseJSONObject argText with
      | None => (st, [])
      | Some _ =>
          let '(st1, parts, _) := emitTextToolCallIfValid st active argText in
          (set_textToolActive None st1, parts)
      end
  end.


Fixpoint partialPrefixFrom (k : nat) (data : string) : nat :=
  match k with
  | O => O
  | S k' => if endsWith (take k BEGIN) data then k else partialPrefixFrom k' data
  end.

Definition longestPartialPrefix (data : string) : nat :=
  partialPrefixFrom (Nat.min (len BEGIN - 1) (len data - 1)) data.

Inductive DelimKind := DelimArg | DelimEnd.

Definition with_emitted (v : bool) (a : TextToolActive) : TextToolActive :=
  {| tta_name := tta_name a; tta_index := tta_index a;
     tta_argBuffer := tta_argBuffer a; tta_emitted := v |}.

Definition with_argBuffer (v : string) (a : TextToolActive) : TextToolActive :=
  {| tta_name := tta_name a; tta_index := tta_index a;
     tta_argBuffer := v; tta_emitted := tta_emitted a |}.

(** The call opened by a header:
    [{ name: m?.[1], index: m?.[2] ? Number(m[2]) : undefined,
       argBuffer: "", emitted: false }]. *)
Definition headerCall (header : string) : TextToolActive :=
  let m := matchHeader header in
  {| tta_name := option_map fst m;
     tta_index :=
       match m with
       | Some (_, Some digits) => Some (Number digits)
       | _ => None
       end;
     tta_argBuffer := "";
     tta_emitted := false |}.

(** One turn of the loop body, entered with [data] not empty.  [true]
    stands for [continue], [false] for [break]. *)
Definition scanStep (c : Scan) : bool * Scan :=
  let st := sc_provider c in
  let data := sc_data c in
  let visibleOut := sc_visibleOut c in
  match _textToolActive st with
  | None =>
      match indexOf BEGIN data with
      | None =>
          let k := longestPartialPrefix data in
          if 0 <? k then
            let visible := take (len data - k) data in
            let visibleOut' :=
              if isEmpty visible then visibleOut
              else visibleOut +:+ stripControlTokens visible in
            (false,
             {| sc_provider := set_textToolParserBuffer (drop (len data - k) data) st;
                sc_data := "";
                sc_visibleOut := visibleOut';
                sc_emittedAny := sc_emittedAny c;
                sc_parts := sc_parts c |})
          else
            (false,
             {| sc_provider := st;
                sc_data := "";
                sc_visibleOut := visibleOut +:+ stripControlTokens data;
                sc_emittedAny := sc_emittedAny c;
                sc_parts := sc_parts c |})
      | Some b =>
          let pre := take b data in
          let visibleOut' :=
            if isEmpty pre then visibleOut
            else visibleOut +:+ stripControlTokens pre in
          let data1 := drop (b + len BEGIN) data in
          let a := indexOf ARG_BEGIN data1 in
          let e := indexOf END data1 in
          let delim :=
            match a, e with
            | Some ai, None => Some (ai, DelimArg)
            | Some ai, Some ei => if ai <? ei then Some (ai, DelimArg) else Some (ei, DelimEnd)
            | None, Some ei => Some (ei, DelimEnd)
            | None, None => None
            end in
          match delim with
          | None =>
              (false,
               {| sc_provider := set_textToolParserBuffer (BEGIN +:+ data1) st;
                  sc_data := "";
                  sc_visibleOut := visibleOut';
                  sc_emittedAny := sc_emittedAny c;
                  sc_parts := sc_parts c |})
          | Some (delimIdx, kind) =>
              let header := trim (take delimIdx data1) in
              let active := headerCall header in
              match kind with
              | DelimArg =>
                  (true,
                   {| sc_provider := set_textToolActive (Some active) st;
                      sc_data := drop (delimIdx + len ARG_BEGIN) data1;
                      sc_visibleOut := visibleOut';
                      sc_emittedAny := sc_emittedAny c;
                      sc_parts := sc_parts c |})
              | DelimEnd =>
                  let '(st1, parts, did) :=
                    emitTextToolCallIfValid
                      (set_textToolActive (Some active) st) active "{}" in
                  (true,
                   {| sc_provider := set_textToolActive None st1;
                      sc_data := drop (delimIdx + len END) data1;
                      sc_visibleOut := visibleOut';
                      sc_emittedAny := did || sc_emittedAny c;
                      sc_parts := sc_parts c ++ parts |})
              end
          end
      end
  | Some active =>
      match indexOf END data with
      | None =>
          let active1 := with_argBuffer (tta_argBuffer active +:+ data) active in
          let st0 := set_textToolActive (Some active1) st in
          let '(st1, parts, did) :=
            if tta_emitted active1 then (st0, [], false)
            else emitTextToolCallIfValid st0 active1 (tta_argBuffer active1) in
          let st2 :=
            if did then set_textToolActive (Some (with_emitted true active1)) st1
            else st1 in
          (false,
           {| sc_provider := st2;
              sc_data := "";
              sc_visibleOut := visibleOut;
              sc_emittedAny := did || sc_emittedAny c;
              sc_parts := sc_parts c ++ parts |})
      | Some e2 =>
          let active1 :=
            with_argBuffer (tta_argBuffer active +:+ take e2 data) active in
          let st0 := set_textToolActive (Some active1) st in
          let '(st1, parts, did) :=
            if tta_emitted active1 then (st0, [], false)
            else emitTextToolCallIfValid st0 active1 (tta_argBuffer active1) in
          (true,
           {| sc_provider := set_textToolActive None st1;
              sc_data := drop (e2 + len END) data;
              sc_visibleOut := visibleOut;
              sc_emittedAny := did || sc_emittedAny c;
              sc_parts := sc_parts c ++ parts |})
      end
  end.

(** [while (data.length > 0) { ... }], at most [fuel] turns. *)
Fixpoint scanLoop (fuel : nat) (c : Scan) : Scan :=
  match fuel with
  | O => c
  | S fuel' =>
      if isEmpty (sc_data c) then c
      else let '(again, c') := scanStep c in
           if again then scanLoop fuel' c' else c'
  end.

(** The result object of [processTextContent]. *)
Record TextResult := { emittedText : bool; emittedAny : bool }.

(** The statements after the loop: the visible text is reported, if any,
    and [data] becomes the parser buffer. *)
Definition finishScan (c : Scan) : Provider * list Part * TextResult :=
  let textToEmit := sc_visibleOut c in
  let shown := negb (isEmpty textToEmit) in
  let parts :=
    if shown then sc_parts c ++ [LanguageModelTextPart textToEmit]
    else sc_parts c in
  (set_textToolParserBuffer (sc_data c) (sc_provider c),
   parts,
   {| emittedText := shown; emittedAny := shown || sc_emittedAny c |}).

(** Every [continue] shortens [data], so [data.length] turns are enough
    (lemma [scanLoop_done]). *)
Definition processTextContent (st : Provider) (input : string)
  : Provider * list Part * TextResult :=
  let data := _textToolParserBuffer st +:+ input in
  finishScan
    (scanLoop (len data)
       {| sc_provider := st; sc_data := data; sc_visibleOut := "";
          sc_emittedAny := false; sc_parts := [] |}).

(** *** Structured calls *)

Definition callIdOf (buf : ToolCallBuffer) : CallId :=
  match buf_id buf with
  | Some id => ServerId id
  | None => FreshId "call_"
  end.

Definition tryEmitBufferedToolCall (st : Provider) (index : Z)
  : Provider * list Part :=
  match mapGet index (_toolCallBuffers st) with
  | None => (st, [])
  | Some buf =>
      if negb (truthy (buf_name buf)) then (st, [])
      else
        match tryParseJSONObject (buf_args buf) with
        | None => (st, [])
        | Some parameters =>
            let name := default "" (buf_name buf) in
            let canonical := JSON_stringify parameters in
            let st1 := set_emittedTextToolCallKeys
                         ({[toolCallKey name canonical]} ∪ _emittedTextToolCallKeys st) st in
            let part := LanguageModelToolCallPart (callIdOf buf) name parameters in
            let st2 := set_toolCallBuffers (mapDelete index (_toolCallBuffers st1)) st1 in
            let st3 := set_completedToolCallIndices
                         ({[index]} ∪ _completedToolCallIndices st2) st2 in
            (st3, [part])
        end
  end.

Definition invalidToolCallMessage : string := "Invalid JSON for tool call".

(** The [for] loop of [flushToolCallBuffers] over the snapshot
    [Array.from(this._toolCallBuffers.entries())]. *)
Fixpoint flushEntries (throwOnInvalid : bool) (entries : list (Z * ToolCallBuffer))
    (st : Provider) : Provider * list Part * Completion unit :=
  match entries with
  | [] => (st, [], Returned tt)
  | (idx, buf) :: rest =>
      match tryParseJSONObject (buf_args buf) with
      | None =>
          if throwOnInvalid then (st, [], Threw invalidToolCallMessage)
          else flushEntries throwOnInvalid rest st
      | Some value =>
          let name := default "unknown_tool" (buf_name buf) in
          let canonical := JSON_stringify value in
          let st1 := set_emittedTextToolCallKeys
                       ({[toolCallKey name canonical]} ∪ _emittedTextToolCallKeys st) st in
          let part := LanguageModelToolCallPart (callIdOf buf) name value in
          let st2 := set_toolCallBuffers (mapDelete idx (_toolCallBuffers st1)) st1 in
          let st3 := set_completedToolCallIndices
                       ({[idx]} ∪ _completedToolCallIndices st2) st2 in
          let '(st', parts, outcome) := flushEntries throwOnInvalid rest st3 in
          (st', part :: parts, outcome)
      end
  end.

Definition flushToolCallBuffers (st : Provider) (throwOnInvalid : bool)
  : Provider * list Part * Completion unit :=
  match _toolCallBuffers st with
  | [] => (st, [], Returned tt)
  | entries => flushEntries throwOnInvalid entries st
  end.

(** [{ args: "" }], the buffer of an index seen for the first time. *)
Definition emptyBuffer : ToolCallBuffer :=
  {| buf_id := None; buf_name := None; buf_args := "" |}.

(** The three conditional updates of [buf] from a fragment. *)
Definition mergeFragment (buf : ToolCallBuffer) (tc : ToolCallFragment)
  : ToolCallBuffer :=
  let func := tc_function tc in
  let fname := func ≫= fn_name in
  {| buf_id := if truthy (tc_id tc) then tc_id tc else buf_id buf;
     buf_name := if truthy fname then fname else buf_name buf;
     buf_args := match func ≫= fn_arguments with
                 | Some a => buf_args buf +:+ a
                 | None => buf_args buf
                 end |}.

(** The body of [for (const tc of toolCalls)] in [processDelta]. *)
Definition accumulateToolCall (st : Provider) (tc : ToolCallFragment)
  : Provider * list Part :=
  let idx := default 0%Z (tc_index tc) in
  if bool_decide (idx ∈ _completedToolCallIndices st) then (st, [])
  else
    let buf := default emptyBuffer (mapGet idx (_toolCallBuffers st)) in
    let count := match tc_function tc ≫= fn_arguments with
                 | Some a => (_outputTokenCount st + ceilDiv4 (len a))%N
                 | None => _outputTokenCount st
                 end in
    let st1 := set_outputTokenCount count st in
    let st2 := set_toolCallBuffers
                 (mapSet idx (mergeFragment buf tc) (_toolCallBuffers st1)) st1 in
    tryEmitBufferedToolCall st2 idx.

Fixpoint accumulateToolCalls (st : Provider) (tcs : list ToolCallFragment)
  : Provider * list Part :=
  match tcs with
  | [] => (st, [])
  | tc :: rest =>
      let '(st1, parts1) := accumulateToolCall st tc in
      let '(st2, parts2) := accumulateToolCalls st1 rest in
      (st2, parts1 ++ parts2)
  end.

(** The thinking part reported for a choice, if any. *)
Definition thinkingPart (choice : Choice) : list Part :=
  let maybeThinking :=
    match ch_thinking choice with
    | Some t => Some t
    | None => ch_delta choice ≫= d_thinking
    end in
  match maybeThinking with
  | None => []
  | Some t =>
      if hostHasThinkingPart then
        let '(text, id) :=
          match t with
          | ThinkingObject text id => (default "" text, id)
          | ThinkingString text => (text, None)
          | ThinkingOther => ("", None)
          end in
        if isEmpty text then [] else [LanguageModelThinkingPart text id]
      else []
  end.

(** The [if (deltaObj?.content)] block of [processDelta]. *)
Definition processContent (st : Provider) (content : option string) (emitted : bool)
  : Provider * list Part * bool :=
  match content with
  | Some content =>
      if isEmpty content then (st, [], emitted)
      else
        let '(st', parts, res) := processTextContent st content in
        let st'' := if emittedText res
                    then set_hasEmittedAssistantText true st' else st' in
        (set_outputTokenCount
           (_outputTokenCount st'' + ceilDiv4 (len content))%N st'',
         parts, emittedAny res || emitted)
  | None => (st, [], emitted)
  end.

(** The [if (deltaObj?.tool_calls)] block of [processDelta]. *)
Definition processToolCalls (st : Provider) (toolCalls : option (list ToolCallFragment))
  : Provider * list Part :=
  match toolCalls with
  | Some toolCalls =>
      let hint := negb (_emittedBeginToolCallsHint st)
                  && _hasEmittedAssistantText st
                  && (0 <? length toolCalls) in
      let st' := if hint then set_emittedBeginToolCallsHint true st else st in
      let '(st'', parts) := accumulateToolCalls st' toolCalls in
      (st'', (if hint then [LanguageModelTextPart " "] else []) ++ parts)
  | None => (st, [])
  end.

(** [processDelta] up to the inspection of [finish_reason]: thinking,
    text content, then the structured fragments. *)
Definition processFragments (st : Provider) (choice : Choice)
  : Provider * list Part * bool :=
  let thinking := thinkingPart choice in
  let emitted0 := negb (match thinking with [] => true | _ => false end) in
  let deltaObj := ch_delta choice in
  let '(st1, parts1, emitted1) :=
    processContent st (deltaObj ≫= d_content) emitted0 in
  let '(st2, parts2) := processToolCalls st1 (deltaObj ≫= d_tool_calls) in
  (st2, thinking ++ parts1 ++ parts2, emitted1).

Definition isTerminal (finish : option string) : bool :=
  match finish with
  | Some f => String.eqb f "tool_calls" || String.eqb f "stop"
  | None => false
  end.

Definition processDelta (st : Provider) (delta : Delta)
  : Provider * list Part * Completion bool :=
  match choices delta with
  | [] => (st, [], Returned false)
  | choice :: _ =>
      let '(st1, parts1, emitted) := processFragments st choice in
      if isTerminal (ch_finish_reason choice) then
        let '(st2, parts2, outcome) := flushToolCallBuffers st1 true in
        (st2, parts1 ++ parts2,
         match outcome with
         | Returned _ => Returned emitted
         | Threw msg => Threw msg
         end)
      else (st1, parts1, Returned emitted)
  end.

(** *** The read loop *)

(** [s.split("\n")]. *)
Fixpoint splitLines (s : string) : list string :=
  match s with
  | EmptyString => [EmptyString]
  | String c s' =>
      if Ascii.eqb c "010" then EmptyString :: splitLines s'
      else match splitLines s' with
           | [] => [String c EmptyString]
           | l :: ls => String c l :: ls
           end
  end.

(** One iteration of [for (const line of lines)].  An exception of
    [JSON.parse] or of [processDelta] ends in the empty [catch]. *)
Definition processLine (st : Provider) (line : string) : Provider * list Part :=
  if negb (startsWith "data: " line) then (st, [])
  else
    let data := drop 6 line in
    if String.eqb data "[DONE]" then
      let '(st1, parts1, _) := flushToolCallBuffers st false in
      let '(st2, parts2) := flushActiveTextToolCall st1 in
      (st2, parts1 ++ parts2)
    else
      match JSON_parse data with
      | None => (st, [])
      | Some parsed =>
          let '(st1, parts, _) := processDelta st parsed in
          (st1, parts)
      end.

Fixpoint processLines (st : Provider) (lines : list string) : Provider * list Part :=
  match lines with
  | [] => (st, [])
  | line :: rest =>
      let '(st1, parts1) := processLine st line in
      let '(st2, parts2) := processLines st1 rest in
      (st2, parts1 ++ parts2)
  end.

(** The body of the [while] loop for one decoded chunk; [buffer] is the
    local line buffer. *)
Definition processChunk (st : Provider) (buffer chunk : string)
  : Provider * string * list Part :=
  let lines := splitLines (buffer +:+ chunk) in
  let buffer' := List.last lines "" in
  let '(st1, parts) := processLines st (removelast lines) in
  (st1, buffer', parts).

Fixpoint processChunks (st : Provider) (buffer : string) (chunks : list string)
  : Provider * list Part :=
  match chunks with
  | [] => (st, [])
  | chunk :: rest =>
      let '(st1, buffer1, parts1) := processChunk st buffer chunk in
      let '(st2, parts2) := processChunks st1 buffer1 rest in
      (st2, parts1 ++ parts2)
  end.






End Decoder.

(** ** A reference platform

    [utils.ts] and the JavaScript built-ins are not part of [provider.ts].
    The statements below hold for every [Platform]; this instance makes
    them run on concrete inputs. *)

Module RefJson.

Inductive json :=
| JNull
| JBool (b : bool)
| JInt (n : Z)
| JString (s : string)
| JArray (items : list json)
| JObject (members : list (string * json)).

Definition isJsonWhite (c : ascii) : bool :=
  let n := nat_of_ascii c in (n =? 32) || (n =? 9) || (n =? 10) || (n =? 13).

Fixpoint skipWhite (s : string) : string :=
  match s with
  | String c s' => if isJsonWhite c then skipWhite s' else s
  | EmptyString => EmptyString
  end.

Definition hexValue (c : ascii) : option nat :=
  let n := nat_of_ascii c in
  if (48 <=? n) && (n <=? 57) then Some (n - 48)
  else if (65 <=? n) && (n <=? 70) then Some (n - 55)
  else if (97 <=? n) && (n <=? 102) then Some (n - 87)
  else None.

(** The characters of a string literal after its opening quote, and what
    follows the closing quote.  Escapes above [ÿ] do not fit the
    one-byte code units and are refused. *)
Fixpoint parseChars (s : string) : option (string * string) :=
  match s with
  | EmptyString => None
  | String c s' =>
      if Ascii.eqb c dquote then Some (EmptyString, s')
      else if Ascii.eqb c "\" then
        match s' with
        | String e s'' =>
            let plain (x : ascii) :=
              match parseChars s'' with
              | Some (t, r) => Some (String x t, r)
              | None => None
              end in
            if Ascii.eqb e dquote then plain dquote
            else if Ascii.eqb e "\" then plain "\"%char
            else if Ascii.eqb e "/" then plain "/"%char
            else if Ascii.eqb e "b" then plain "008"%char
            else if Ascii.eqb e "f" then plain "012"%char
            else if Ascii.eqb e "n" then plain "010"%char
            else if Ascii.eqb e "r" then plain "013"%char
            else if Ascii.eqb e "t" then plain "009"%char
            else if Ascii.eqb e "u" then
              match s'' with
              | String "0" (String "0" (String h1 (String h2 s3))) =>
                  match hexValue h1, hexValue h2, parseChars s3 with
                  | Some a, Some b, Some (t, r) =>
                      Some (String (ascii_of_nat (16 * a + b)) t, r)
                  | _, _, _ => None
                  end
              | _ => None
              end
            else None
        | EmptyString => None
        end
      else if nat_of_ascii c <? 32 then None
      else match parseChars s' with
           | Some (t, r) => Some (String c t, r)
           | None => None
           end
  end.

(** An integer literal: an optional minus sign, then ["0"] or digits that
    do not start with ["0"].  Its value is the double nearest to it; a
    fraction, an exponent or digits that round to [Infinity] are outside
    this reference parser, which refuses them. *)
Definition parseInt (s : string) : option (Z * string) :=
  let '(neg, s1) :=
    match s with
    | String "-" r => (true, r)
    | _ => (false, s)
    end in
  let '(digits, rest) := span isDigit s1 in
  let leadingZero :=
    match digits with
    | String "0" (String _ _) => true
    | _ => false
    end in
  let more :=
    match rest with
    | String c _ => Ascii.eqb c "." || Ascii.eqb c "e" || Ascii.eqb c "E"
    | EmptyString => false
    end in
  if isEmpty digits || leadingZero || more then None
  else
    match Number digits with
    | Finite w => Some (if neg then Z.opp (Z.of_N w) else Z.of_N w, rest)
    | PositiveInfinity => None
    end.

(** The value of a key that is an array index: the canonical decimal
    form of an integer below 2^32 - 1. *)
Definition arrayIndex (k : string) : option N :=
  if negb (isEmpty k)
     && forallb isDigit (list_ascii_of_string k)
     && (String.eqb k "0" || negb (startsWith "0" k))
     && (digitsValue 0 k <? 2 ^ 32 - 1)%N
  then Some (digitsValue 0 k) else None.

Fixpoint replaceKey (k : string) (v : json) (m : list (string * json))
  : list (string * json) :=
  match m with
  | [] => []
  | (k', v') :: m' =>
      if String.eqb k k' then (k, v) :: m' else (k', v') :: replaceKey k v m'
  end.

Fixpoint insertIndexed (i : N) (k : string) (v : json) (m : list (string * json))
  : list (string * json) :=
  match m with
  | [] => [(k, v)]
  | (k', v') :: m' =>
      match arrayIndex k' with
      | Some j => if (i <? j)%N then (k, v) :: m
                  else (k', v') :: insertIndexed i k v m'
      | None => (k, v) :: m
      end
  end.

(** [obj[k] = v] while the literal is read: a repeated key keeps its
    place and takes the last value; a new key that is an array index goes
    among the indices, which come first in ascending order, and any other
    new key goes last. *)
Definition objSet (k : string) (v : json) (m : list (string * json))
  : list (string * json) :=
  if existsb (fun kv => String.eqb k (fst kv)) m then replaceKey k v m
  else match arrayIndex k with
       | Some i => insertIndexed i k v m
       | None => m ++ [(k, v)]
       end.

Fixpoint parseValue (fuel : nat) (s : string) : option (json * string) :=
  match fuel with
  | O => None
  | S fuel' =>
      match skipWhite s with
      | String "{" r =>
          match skipWhite r with
          | String "}" r' => Some (JObject [], r')
          | r' => parseMembers fuel' r' []
          end
      | String "[" r =>
          match skipWhite r with
          | String "]" r' => Some (JArray [], r')
          | r' => parseElements fuel' r' []
          end
      | s1 =>
          if startsWith (String dquote "") s1 then
            match parseChars (drop 1 s1) with
            | Some (t, r') => Some (JString t, r')
            | None => None
            end
          else if startsWith "true" s1 then Some (JBool true, drop 4 s1)
          else if startsWith "false" s1 then Some (JBool false, drop 5 s1)
          else if startsWith "null" s1 then Some (JNull, drop 4 s1)
          else match parseInt s1 with
               | Some (n, r) => Some (JInt n, r)
               | None => None
               end
      end
  end
with parseElements (fuel : nat) (s : string) (acc : list json)
  : option (json * string) :=
  match fuel with
  | O => None
  | S fuel' =>
      match parseValue fuel' s with
      | Some (v, r) =>
          match skipWhite r with
          | String "," r' => parseElements fuel' r' (acc ++ [v])
          | String "]" r' => Some (JArray (acc ++ [v]), r')
          | _ => None
          end
      | None => None
      end
  end
with parseMembers (fuel : nat) (s : string) (acc : list (string * json))
  : option (json * string) :=
  match fuel with
  | O => None
  | S fuel' =>
      match skipWhite s with
      | String c r =>
          if negb (Ascii.eqb c dquote) then None else
          match parseChars r with
          | Some (k, r1) =>
              match skipWhite r1 with
              | String ":" r2 =>
                  match parseValue fuel' r2 with
                  | Some (v, r3) =>
                      match skipWhite r3 with
                      | String "," r4 => parseMembers fuel' r4 (objSet k v acc)
                      | String "}" r4 => Some (JObject (objSet k v acc), r4)
                      | _ => None
                      end
                  | None => None
                  end
              | _ => None
              end
          | None => None
          end
      | EmptyString => None
      end
  end.

(** [JSON.parse(text)]: one value, white space around it, nothing else. *)
Definition parse (text : string) : option json :=
  match parseValue (2 * len text + 2) text with
  | Some (v, rest) => if isEmpty (skipWhite rest) then Some v else None
  | None => None
  end.

Definition hexDigit (n : nat) : ascii :=
  if n <? 10 then ascii_of_nat (48 + n) else ascii_of_nat (87 + n).

Fixpoint quoteChars (s : string) : string :=
  match s with
  | EmptyString => EmptyString
  | String c s' =>
      let n := nat_of_ascii c in
      (if Ascii.eqb c dquote then String "\" (String dquote "")
       else if Ascii.eqb c "\" then "\\"
       else if n =? 8 then "\b"
       else if n =? 12 then "\f"
       else if n =? 10 then "\n"
       else if n =? 13 then "\r"
       else if n =? 9 then "\t"
       else if n <? 32 then
         "\u00" +:+ String (hexDigit (n / 16)) (String (hexDigit (n mod 16)) "")
       else String c "") +:+ quoteChars s'
  end.

Definition quote (s : string) : string := quoted (quoteChars s).

(** A decimal string without its trailing zeros. *)
Fixpoint stripZeros (s : string) : string :=
  match s with
  | EmptyString => EmptyString
  | String c s' =>
      let t := stripZeros s' in
      if Ascii.eqb c "0" && isEmpty t then EmptyString else String c t
  end.

(** The natural number with the fewest significant digits that rounds to
    the double [v], the one nearest to [v] among those; [d] is the number
    of digits of [v] and [k] the number of significant digits tried. *)
Fixpoint shortestDecimal (fuel k : nat) (v : N) (d : nat) : N :=
  match fuel with
  | O => v
  | S fuel' =>
      let unit := (10 ^ N.of_nat (d - k))%N in
      let lo := (v / unit * unit)%N in
      let hi := (lo + unit)%N in
      let roundsTo m := match roundToDouble m with
                        | Finite w => (w =? v)%N
                        | PositiveInfinity => false
                        end in
      if roundsTo lo && roundsTo hi then
        if (v - lo <? hi - v)%N then lo
        else if (hi - v <? v - lo)%N then hi
        else if N.even (lo / unit) then lo else hi
      else if roundsTo lo then lo
      else if roundsTo hi then hi
      else shortestDecimal fuel' (S k) v d
  end.

(** [String(x)] for the Numbers of [JsNumber]: the shortest digits that
    give the double back, in full up to 21 digits and with an exponent
    beyond. *)
Definition numberString (x : JsNumber) : string :=
  match x with
  | PositiveInfinity => "Infinity"
  | Finite 0%N => "0"
  | Finite v =>
      let d := len (numberToString v) in
      let s := numberToString (shortestDecimal d 1 v d) in
      if len s <=? 21 then s
      else
        let digits := stripZeros s in
        let exponent := "e+" +:+ numberToString (N.of_nat (len s - 1)) in
        match digits with
        | String c EmptyString => String c exponent
        | String c rest => String c ("." +:+ rest +:+ exponent)
        | EmptyString => exponent
        end
  end.

(** [String(n)] for a Number whose value is the integer [n]. *)
Definition intToString (n : Z) : string :=
  match n with
  | Zneg p => "-" +:+ numberString (Finite (Npos p))
  | _ => numberString (Finite (Z.to_N n))
  end.

Definition joinComma (l : list string) : string :=
  match l with
  | [] => ""
  | x :: xs => fold_left (fun acc y => acc +:+ "," +:+ y) xs x
  end.

(** [JSON.stringify(value)]. *)
Fixpoint stringify (v : json) : string :=
  match v with
  | JNull => "null"
  | JBool true => "true"
  | JBool false => "false"
  | JInt n => intToString n
  | JString s => quote s
  | JArray items => "[" +:+ joinComma (map stringify items) +:+ "]"
  | JObject members =>
      "{" +:+ joinComma (map (fun kv => quote (fst kv) +:+ ":" +:+ stringify (snd kv)) members)
      +:+ "}"
  end.

(** Modelled from the spec: [tryParseJSONObject] of [utils.ts], which is
    not among the sources.  The spec (4.3): trim white space; the text must
    parse as an object, not an array or a scalar.  The value kept is the
    parsed object.  The numbers of this reference parser are the finite
    doubles written as integers, without fraction and exponent. *)
Definition tryParseJSONObject (text : string) : option json :=
  match parse (trim text) with
  | Some (JObject members) => Some (JObject members)
  | _ => None
  end.

(** [String(value)], as [String(deltaObj.content)] needs it. *)
Fixpoint toJsString (v : json) : string :=
  match v with
  | JNull => "null"
  | JBool true => "true"
  | JBool false => "false"
  | JInt n => intToString n
  | JString s => s
  | JArray items =>
      joinComma (map (fun item => match item with
                                  | JNull => ""
                                  | _ => toJsString item
                                  end) items)
  | JObject _ => "[object Object]"
  end.

(** A [content] that is truthy, as the string [String(content)].  An
    array whose text is empty, such as [[]], is truthy as well: the code
    runs [processTextContent] on the empty string, [processContent] skips
    it, and such arrays are outside this reference reader. *)
Definition asContent (o : option json) : option string :=
  match o with
  | None | Some JNull | Some (JBool false) | Some (JInt 0%Z) => None
  | Some v => Some (toJsString v)
  end.

Definition field (k : string) (v : json) : option json :=
  match v with
  | JObject members =>
      snd <$> List.find (fun kv => String.eqb k (fst kv)) members
  | _ => None
  end.

Definition asString (o : option json) : option string :=
  match o with
  | Some (JString s) => Some s
  | _ => None
  end.

Definition asThinking (o : option json) : option Thinking :=
  match o with
  | None | Some JNull => None
  | Some (JString s) => Some (ThinkingString s)
  | Some (JObject m) =>
      Some (ThinkingObject (asString (field "text" (JObject m)))
                           (asString (field "id" (JObject m))))
  | Some _ => Some ThinkingOther
  end.

Definition asToolCall (v : json) : ToolCallFragment :=
  {| tc_index := match field "index" v with
                 | Some (JInt n) => Some n
                 | _ => None
                 end;
     tc_id := asString (field "id" v);
     tc_function :=
       match field "function" v with
       | Some (JObject m) =>
           Some {| fn_name := asString (field "name" (JObject m));
                   fn_arguments := asString (field "arguments" (JObject m)) |}
       | _ => None
       end |}.

Definition asDeltaObj (o : option json) : option DeltaObj :=
  match o with
  | Some (JObject m) =>
      Some {| d_content := asContent (field "content" (JObject m));
              d_tool_calls :=
                match field "tool_calls" (JObject m) with
                | Some (JArray items) => Some (map asToolCall items)
                | _ => None
                end;
              d_thinking := asThinking (field "thinking" (JObject m)) |}
  | _ => None
  end.

Definition asChoice (v : json) : Choice :=
  {| ch_delta := asDeltaObj (field "delta" v);
     ch_thinking := asThinking (field "thinking" v);
     ch_finish_reason := asString (field "finish_reason" v) |}.

(** [JSON.parse] of an SSE payload, read through the fields that
    [processDelta] probes. *)
Definition parseDelta (data : string) : option Delta :=
  match parse data with
  | Some v =>
      Some {| choices :=
                match field "choices" v with
                | Some (JArray (JObject m :: _)) => [asChoice (JObject m)]
                | _ => []
                end |}
  | None => None
  end.

Definition platform : Platform :=
  Build_Platform json tryParseJSONObject stringify parseDelta numberString false.

End RefJson.

(** ** Vocabulary of the statements *)

Section Vocabulary.
Context `{Platform}.



Definition isToolCall (p : Part) : bool :=
  match p with
  | LanguageModelToolCallPart _ _ _ => true
  | _ => false
  end.

(** The tool calls among the reported parts. *)
Definition toolCallsOf (parts : list Part) : list Part :=
  List.filter isToolCall parts.

(** What a flush reports for a pending entry whose arguments parse. *)
Definition flushPart (entry : Z * ToolCallBuffer) : option Part :=
  match tryParseJSONObject (buf_args (snd entry)) with
  | Some value =>
      Some (LanguageModelToolCallPart (callIdOf (snd entry))
              (default "unknown_tool" (buf_name (snd entry))) value)
  | None => None
  end.

(** A pending entry whose argument text does not parse as a JSON object. *)
Definition unparseable (entry : Z * ToolCallBuffer) : bool :=
  match tryParseJSONObject (buf_args (snd entry)) with
  | Some _ => false
  | None => true
  end.

(** A payload with one choice that carries structured fragments and a
    finish reason, and nothing else. *)
Definition toolCallDelta (toolCalls : option (list ToolCallFragment))
    (finish : option string) : Delta :=
  {| choices :=
       [{| ch_delta := Some {| d_content := None;
                               d_tool_calls := toolCalls;
                               d_thinking := None |};
           ch_thinking := None;
           ch_finish_reason := finish |}] |}.

(** A payload with one choice that carries text content only. *)
Definition contentDelta (content : string) : Delta :=
  {| choices :=
       [{| ch_delta := Some {| d_content := Some content;
                               d_tool_calls := None;
                               d_thinking := None |};
           ch_thinking := None;
           ch_finish_reason := None |}] |}.

(** Every tool call among [parts] has its key, the name and the canonical
    arguments, in the key registry of [st]. *)
Definition keysCover (parts : list Part) (st : Provider) : Prop :=
  forall id name v,
    In (LanguageModelToolCallPart id name v) parts ->
    toolCallKey name (JSON_stringify v) ∈ _emittedTextToolCallKeys st.

(** A step from [st] to [st'] that reports [parts]: the key registry only
    grows, and it holds the key of every tool call reported. *)
Definition registers (st st' : Provider) (parts : list Part) : Prop :=
  _emittedTextToolCallKeys st ⊆ _emittedTextToolCallKeys st'
  /\ keysCover parts st'.

End Vocabulary.

(** ** Concrete inputs *)

Definition newline : string := String "010"%char "".


(** The SSE line of one structured fragment for index 0 that carries a
    name and an argument text, both without escapes. *)
Definition toolCallLine (name args : string) : string :=
  "data: {" +:+ quoted "choices" +:+ ":[{" +:+ quoted "delta" +:+ ":{"
  +:+ quoted "tool_calls" +:+ ":[{" +:+ quoted "index" +:+ ":0,"
  +:+ quoted "function" +:+ ":{" +:+ quoted "name" +:+ ":" +:+ quoted name
  +:+ "," +:+ quoted "arguments" +:+ ":" +:+ quoted args +:+ "}}]}}]}" +:+ newline.

(** The text of scenario C in one piece. *)
Definition scenarioC : string :=
  BEGIN +:+ "foo" +:+ ARG_BEGIN +:+ ("{" +:+ quoted "x" +:+ ":1}") +:+ END +:+ " done".

(** A structured fragment with a function name and an argument text. *)
Definition namedFragment (index : option Z) (name : option string) (args : string)
  : ToolCallFragment :=
  {| tc_index := index; tc_id := None;
     tc_function := Some {| fn_name := name; fn_arguments := Some args |} |}.

(** ** The model catalogue *)

(** [s.split(sep)] for a separator of one character. *)
Fixpoint splitOn (sep : ascii) (s : string) : list string :=
  match s with
  | EmptyString => [EmptyString]
  | String c s' =>
      if Ascii.eqb c sep then EmptyString :: splitOn sep s'
      else match splitOn sep s' with
           | [] => [String c EmptyString]
           | l :: ls => String c l :: ls
           end
  end.

(** [parts.join(sep)]. *)
Fixpoint joinWith (sep : string) (parts : list string) : string :=
  match parts with
  | [] => ""
  | [part] => part
  | part :: rest => part +:+ sep +:+ joinWith sep rest
  end.

(** [ProviderConfig] of [config.ts]. *)
Record ProviderConfig := {
  pc_id : string;
  pc_name : string;
  pc_baseUrl : string;
  pc_apiKeySecret : string;
  pc_family : string;
  pc_supportsTools : bool;
  pc_defaultMaxTokens : Z;
  pc_defaultContextLength : Z;
  pc_isDefault : bool
}.

Definition chatglmCoding : ProviderConfig := {|
  pc_id := "chatglm-coding";
  pc_name := "ChatGLM Coding";
  pc_baseUrl := "https://open.bigmodel.cn/api/coding/paas/v4";
  pc_apiKeySecret := "chatglm-router.apiKey.chatglm";
  pc_family := "chatglm";
  pc_supportsTools := true;
  pc_defaultMaxTokens := 8192;
  pc_defaultContextLength := 128000;
  pc_isDefault := true
|}.

Definition chatglmGeneral : ProviderConfig := {|
  pc_id := "chatglm-general";
  pc_name := "ChatGLM General";
  pc_baseUrl := "https://open.bigmodel.cn/api/paas/v4/";
  pc_apiKeySecret := "chatglm-router.apiKey.chatglm";
  pc_family := "chatglm";
  pc_supportsTools := true;
  pc_defaultMaxTokens := 8192;
  pc_defaultContextLength := 128000;
  pc_isDefault := false
|}.

(** The own properties of the object [PROVIDERS], in their order. *)
Definition PROVIDERS : list (string * ProviderConfig) :=
  [("chatglm-coding", chatglmCoding); ("chatglm-general", chatglmGeneral)].

(** The properties every object literal inherits from [Object.prototype]:
    the operator [in] finds them as well. *)
Definition objectPrototypeKeys : list string :=
  ["constructor"; "__defineGetter__"; "__defineSetter__"; "hasOwnProperty";
   "__lookupGetter__"; "__lookupSetter__"; "isPrototypeOf";
   "propertyIsEnumerable"; "toString"; "valueOf"; "__proto__"; "toLocaleString"].

Fixpoint ownProperty {V} (key : string) (object : list (string * V)) : option V :=
  match object with
  | [] => None
  | (k, v) :: rest => if String.eqb key k then Some v else ownProperty key rest
  end.

(** What [PROVIDERS[key]] is when [key in PROVIDERS] holds: a provider
    configuration, or a member of [Object.prototype]. *)
Inductive ProviderLookup :=
| Configured (provider : ProviderConfig)
| Inherited (key : string).

Definition getProviderByModelId (modelId : string) : ProviderLookup :=
  match splitOn ":" modelId with
  | first :: _ =>
      match ownProperty first PROVIDERS with
      | Some provider => Configured provider
      | None =>
          if existsb (String.eqb first) objectPrototypeKeys then Inherited first
          else Configured chatglmCoding
      end
  | [] => Configured chatglmCoding
  end.

Definition getAllProviders : list ProviderConfig := List.map snd PROVIDERS.

(** [HFModelItem] of [types.ts]; the provider reads its [id] only. *)
Record HFModelItem := { m_id : string }.

Record LanguageModelChatInformation := {
  info_id : string;
  info_name : string;
  info_tooltip : string;
  info_family : string;
  info_version : string;
  info_maxInputTokens : Z;
  info_maxOutputTokens : Z;
  info_toolCalling : bool;
  info_imageInput : bool
}.

(** The separator of a tooltip and its suffix: a space, an em dash in
    UTF-8 and a space. *)
Definition tooltipDash : string :=
  String " " (String "226" (String "128" (String "148" (String " " "")))).

Definition buildModelInformation (models : list HFModelItem)
    (provider : ProviderConfig) (tooltipSuffix : option string)
  : list LanguageModelChatInformation :=
  List.map
    (fun m =>
       let contextLen := pc_defaultContextLength provider in
       let maxOutput := pc_defaultMaxTokens provider in
       let maxInput := Z.max 1 (contextLen - maxOutput) in
       let tooltipBase := pc_name provider in
       let tooltip := if truthy tooltipSuffix
                      then tooltipBase +:+ tooltipDash +:+ default "" tooltipSuffix
                      else tooltipBase in
       {| info_id := pc_id provider +:+ ":" +:+ m_id m;
          info_name := m_id m +:+ " (" +:+ pc_name provider +:+ ")";
          info_tooltip := tooltip;
          info_family := pc_family provider;
          info_version := "1.0.0";
          info_maxInputTokens := maxInput;
          info_maxOutputTokens := maxOutput;
          info_toolCalling := true;
          info_imageInput := false |})
    models.

Definition extractActualModelId (modelId : string) (provider : ProviderConfig)
  : string :=
  let parts := splitOn ":" modelId in
  if (1 <? length parts) && String.eqb (hd "" parts) (pc_id provider)
  then joinWith ":" (tl parts)
  else modelId.

(** [static-models.ts]. *)
Definition getStaticModelsForProvider (providerId : string) : list HFModelItem := [].

(** What the catalogue learns about a provider: no API key is stored,
    [fetchModels] returned the models, or it threw. *)
Inductive FetchOutcome :=
| NoApiKey
| Fetched (models : list HFModelItem)
| FetchFailed.

(** The entry that stands for a provider without API key. *)
Definition placeholderInfo (provider : ProviderConfig) : LanguageModelChatInformation := {|
  info_id := pc_id provider +:+ ":__no_api_key__";
  info_name := pc_name provider +:+ " (API key not configured)";
  info_tooltip := pc_name provider +:+ tooltipDash +:+ "API key not configured";
  info_family := pc_family provider;
  info_version := "1.0.0";
  info_maxInputTokens :=
    Z.max 1 (pc_defaultContextLength provider - pc_defaultMaxTokens provider);
  info_maxOutputTokens := pc_defaultMaxTokens provider;
  info_toolCalling := true;
  info_imageInput := false
|}.

(** The body of [for (const { provider, apiKey } of providersToFetch)]. *)
Definition providerInfos (provider : ProviderConfig) (outcome : FetchOutcome)
  : list LanguageModelChatInformation :=
  match outcome with
  | Fetched models => buildModelInformation models provider None
  | FetchFailed =>
      if startsWith "chatglm" (pc_id provider)
      then buildModelInformation (getStaticModelsForProvider (pc_id provider))
             provider (Some "API key not configured")
      else []
  | NoApiKey =>
      if startsWith "chatglm" (pc_id provider) then
        let staticModels := getStaticModelsForProvider (pc_id provider) in
        if 0 <? length staticModels
        then buildModelInformation staticModels provider
               (Some "API key not configured")
        else [placeholderInfo provider]
      else []
  end.

(** [allInfos] for the providers that are enabled in the settings. *)
Definition collectInfos (providers : list ProviderConfig) (enabledProviderIds : list string)
    (outcome : ProviderConfig -> FetchOutcome) : list LanguageModelChatInformation :=
  List.flat_map (fun provider => providerInfos provider (outcome provider))
    (List.filter (fun provider => existsb (String.eqb (pc_id provider)) enabledProviderIds)
       providers).

(** [parts[parts.length > 1 ? 1 : 0]] of [info.id.split(":")]. *)
Definition baseModelId (id : string) : string :=
  let parts := splitOn ":" id in
  nth (if 1 <? length parts then 1 else 0) parts "".

(** The loop that keeps the first entry of every base model id. *)
Fixpoint uniqueInfos (seenBaseModels : gset string)
    (allInfos : list LanguageModelChatInformation)
  : list LanguageModelChatInformation :=
  match allInfos with
  | [] => []
  | info :: rest =>
      let base := baseModelId (info_id info) in
      if bool_decide (base ∈ seenBaseModels) then uniqueInfos seenBaseModels rest
      else info :: uniqueInfos ({[base]} ∪ seenBaseModels) rest
  end.

Record ChatEndpoint := { model : string; modelMaxPromptTokens : Z }.

(** [prepareLanguageModelChatInformation]: the entries it returns and the
    value it gives to [_chatEndpoints]. *)
Definition prepareLanguageModelChatInformation (enabledProviderIds : list string)
    (outcome : ProviderConfig -> FetchOutcome)
  : list LanguageModelChatInformation * list ChatEndpoint :=
  let unique := uniqueInfos ∅ (collectInfos getAllProviders enabledProviderIds outcome) in
  (unique,
   List.map (fun info =>
               {| model := info_id info;
                  modelMaxPromptTokens :=
                    (info_maxInputTokens info + info_maxOutputTokens info)%Z |})
     unique).

(** ** Token estimates *)

(** A part of the content of a chat message: a text part, or a part of
    another class. *)
Inductive MessagePart :=
| TextPart (value : string)
| OtherPart.

Record LanguageModelChatMessage := { content : list MessagePart }.

(** The inner loop of [estimateMessagesTokens] and of [provideTokenCount]. *)
Fixpoint countParts (total : N) (parts : list MessagePart) : N :=
  match parts with
  | [] => total
  | TextPart value :: rest => countParts (total + ceilDiv4 (len value))%N rest
  | OtherPart :: rest => countParts total rest
  end.

Fixpoint estimateMessagesTokensFrom (total : N) (msgs : list LanguageModelChatMessage)
  : N :=
  match msgs with
  | [] => total
  | m :: rest => estimateMessagesTokensFrom (countParts total (content m)) rest
  end.

Definition estimateMessagesTokens (msgs : list LanguageModelChatMessage) : N :=
  estimateMessagesTokensFrom 0 msgs.

(** [provideTokenCount] for a string and for a message. *)
Definition provideTokenCount (text : string + LanguageModelChatMessage) : N :=
  match text with
  | inl s => ceilDiv4 (len s)
  | inr message => countParts 0 (content message)
  end.

(** ** Usage statistics *)

(** The counts are JavaScript numbers that hold integers; they are exact
    below 2^53 and modelled without bound.  The objects [providers] and
    [models] are plain objects: a map holds their own properties, and
    [getProperty] reads them as [object[key]] does, through
    [Object.prototype]. *)
Record ModelUsageStats := {
  mu_modelId : string;
  mu_requestCount : N;
  mu_totalInputTokens : N;
  mu_totalOutputTokens : N;
  mu_lastUsed : Z
}.

Record ProviderUsage := {
  pu_models : gmap string ModelUsageStats;
  pu_totalRequests : N;
  pu_totalTokens : N
}.

Record StatisticsData := {
  sd_version : string;
  sd_providers : gmap string ProviderUsage
}.

Definition createEmptyStatistics : StatisticsData :=
  {| sd_version := "1.0.0"; sd_providers := ∅ |}.

(** [stored] is the value kept under the storage key, if any. *)
Definition getStatistics (stored : option StatisticsData) : StatisticsData :=
  default createEmptyStatistics stored.

(** What [object[key]] finds in a plain object: an own property, a
    member inherited from [Object.prototype], or nothing.  The statistics
    are read in a realm whose [Object.prototype] has its standard members:
    functions, and the prototype itself under [__proto__]; each is truthy
    and has no property [models]. *)
Inductive PropertyOf (V : Type) :=
| OwnProperty (value : V)
| InheritedMember
| NoProperty.
Arguments OwnProperty {V} value.
Arguments InheritedMember {V}.
Arguments NoProperty {V}.

Definition getProperty {V} (object : gmap string V) (key : string) : PropertyOf V :=
  match object !! key with
  | Some value => OwnProperty value
  | None =>
      if existsb (String.eqb key) objectPrototypeKeys then InheritedMember
      else NoProperty
  end.

(** [{ models: {}, totalRequests: 0, totalTokens: 0 }]. *)
Definition emptyProviderUsage : ProviderUsage :=
  {| pu_models := ∅; pu_totalRequests := 0; pu_totalTokens := 0 |}.

(** [{ modelId, requestCount: 0, totalInputTokens: 0, totalOutputTokens: 0,
    lastUsed: 0 }]. *)
Definition emptyModelUsage (modelId : string) : ModelUsageStats :=
  {| mu_modelId := modelId; mu_requestCount := 0; mu_totalInputTokens := 0;
     mu_totalOutputTokens := 0; mu_lastUsed := 0 |}.

(** The message of the [TypeError] that V8 throws for [undefined[key]]. *)
Definition undefinedReadMessage (key : string) : string :=
  "Cannot read properties of undefined (reading '" +:+ key +:+ "')".

(** [recordRequest]: the value it stores, or the error it throws before
    it stores anything; [now] is [Date.now()].  A provider id that is not an
    own key and names a member of [Object.prototype] finds that member:
    its [models] is [undefined], and reading [models[modelId]] throws.  A
    model id that does so in [provider.models] finds the member as well: the
    counters of the model are then written into the member, outside the
    store, and only the totals of the provider change.  The model id
    [__proto__] writes them into [Object.prototype] itself: the requests
    that follow one are no longer in a realm with the standard members. *)
Definition recordRequest (stored : option StatisticsData) (providerId modelId : string)
    (inputTokens outputTokens : N) (now : Z) : Completion StatisticsData :=
  let stats := getStatistics stored in
  match getProperty (sd_providers stats) providerId with
  | InheritedMember => Threw (undefinedReadMessage modelId)
  | found =>
      let provider :=
        match found with
        | OwnProperty provider => provider
        | _ => emptyProviderUsage
        end in
      let models :=
        match getProperty (pu_models provider) modelId with
        | InheritedMember => pu_models provider
        | foundModel =>
            let modelStats :=
              match foundModel with
              | OwnProperty modelStats => modelStats
              | _ => emptyModelUsage modelId
              end in
            <[modelId :=
                {| mu_modelId := mu_modelId modelStats;
                   mu_requestCount := mu_requestCount modelStats + 1;
                   mu_totalInputTokens := mu_totalInputTokens modelStats + inputTokens;
                   mu_totalOutputTokens := mu_totalOutputTokens modelStats + outputTokens;
                   mu_lastUsed := now |}]>
              (pu_models provider)
        end in
      Returned
        {| sd_version := sd_version stats;
           sd_providers :=
             <[providerId :=
                 {| pu_models := models;
                    pu_totalRequests := pu_totalRequests provider + 1;
                    pu_totalTokens :=
                      pu_totalTokens provider + (inputTokens + outputTokens) |}]>
               (sd_providers stats) |}
  end.

Definition resetStatistics : StatisticsData := createEmptyStatistics.

(** [getSummary]: for each provider, [totalRequests] and [totalTokens]. *)
Definition getSummary (stats : StatisticsData) : gmap string (N * N) :=
  (fun provider => (pu_totalRequests provider, pu_totalTokens provider))
    <$> sd_providers stats.

(** [getTotal]: [totalRequests] and [totalTokens] over the summary. *)
Definition getTotal (stats : StatisticsData) : N * N :=
  map_fold (fun _ value acc => (acc.1 + value.1, acc.2 + value.2)%N)
    (0%N, 0%N) (getSummary stats).

(** The loops of [getWeekStatistics] and of [getMonthStatistics]; [start]
    is the start of the week or of the month. *)
Definition usageSince (start : Z) (stats : StatisticsData) : N * N :=
  map_fold
    (fun _ provider acc =>
       map_fold
         (fun _ model acc' =>
            if (start <=? mu_lastUsed model)%Z
            then (acc'.1 + mu_requestCount model,
                  acc'.2 + (mu_totalInputTokens model + mu_totalOutputTokens model))%N
            else acc')
         acc (pu_models provider))
    (0%N, 0%N) (sd_providers stats).

Definition getWeekStatistics (weekStart : Z) (stats : StatisticsData) : N * N :=
  usageSince weekStart stats.

Definition getMonthStatistics (monthStart : Z) (stats : StatisticsData) : N * N :=
  usageSince monthStart stats.



(** ** Vocabulary of the further properties *)

(** The sum of the pairs [g v] over the values of a map. *)
Definition tally {V} (g : V -> N * N) (m : gmap string V) : N * N :=
  map_fold (fun _ v acc => (acc.1 + (g v).1, acc.2 + (g v).2)%N) (0%N, 0%N) m.

(** The requests and the tokens counted for the models of a provider. *)
Definition modelsUsage (models : gmap string ModelUsageStats) : N * N :=
  map_fold
    (fun _ model acc =>
       (acc.1 + mu_requestCount model,
        acc.2 + (mu_totalInputTokens model + mu_totalOutputTokens model))%N)
    (0%N, 0%N) models.

(** The totals of every provider are the sums over its models. *)
Definition consistent (stats : StatisticsData) : Prop :=
  forall providerId provider,
    sd_providers stats !! providerId = Some provider ->
    modelsUsage (pu_models provider)
    = (pu_totalRequests provider, pu_totalTokens provider).

(** The chunks of a stream in one piece. *)
Definition joinChunks (chunks : list string) : string :=
  fold_right String.append "" chunks.

(** The state of the structured channel, the two text flags and the
    output counter are the same in [st] and [st']. *)
Definition keepsStructured (st st' : Provider) : Prop :=
  _toolCallBuffers st' = _toolCallBuffers st
  /\ _completedToolCallIndices st' = _completedToolCallIndices st
  /\ _hasEmittedAssistantText st' = _hasEmittedAssistantText st
  /\ _emittedBeginToolCallsHint st' = _emittedBeginToolCallsHint st
  /\ _outputTokenCount st' = _outputTokenCount st.

(** The state of the inline channel and the two text flags are the same
    in [st] and [st']. *)
Definition keepsInline (st st' : Provider) : Prop :=
  _textToolParserBuffer st' = _textToolParserBuffer st
  /\ _textToolActive st' = _textToolActive st
  /\ _emittedTextToolCallIds st' = _emittedTextToolCallIds st
  /\ _hasEmittedAssistantText st' = _hasEmittedAssistantText st
  /\ _emittedBeginToolCallsHint st' = _emittedBeginToolCallsHint st.

(** Every character of [s] satisfies [p]. *)
Fixpoint allChars (p : ascii -> bool) (s : string) : bool :=
  match s with
  | EmptyString => true
  | String c s' => p c && allChars p s'
  end.

(** [s] starts with a character that satisfies [p]. *)
Definition headChar (p : ascii -> bool) (s : string) : bool :=
  match s with
  | EmptyString => false
  | String c _ => p c
  end.

(** The four tokens of [/<\|tool_call_(?:argument_)?(?:begin|end)\|>/]. *)
Definition toolCallTokens : list string :=
  [BEGIN; ARG_BEGIN; END; "<|tool_call_argument_end|>"].

(** A section token: [name], then [_section_begin] or [_section_end],
    between ["<|"] and ["|>"]. *)
Definition sectionToken (name : string) (closing : bool) : string :=
  "<|" +:+ name +:+ (if closing then "_section_end" else "_section_begin") +:+ "|>".

(** The pending indices are distinct, as the keys of a [Map] are, and no
    completed index is pending. *)
Definition pendingFresh (st : Provider) : Prop :=
  NoDup (_toolCallBuffers st).*1
  /\ forall idx, idx ∈ _completedToolCallIndices st ->
                 mapGet idx (_toolCallBuffers st) = None.

(** From [st] to [st'] the registries and the completed indices only
    grow, the output counter does not decrease and a text flag that is set
    stays set. *)
Definition advances (st st' : Provider) : Prop :=
  _completedToolCallIndices st ⊆ _completedToolCallIndices st'
  /\ _emittedTextToolCallIds st ⊆ _emittedTextToolCallIds st'
  /\ _emittedTextToolCallKeys st ⊆ _emittedTextToolCallKeys st'
  /\ (_outputTokenCount st <= _outputTokenCount st')%N
  /\ (_hasEmittedAssistantText st = true -> _hasEmittedAssistantText st' = true)
  /\ (_emittedBeginToolCallsHint st = true -> _emittedBeginToolCallsHint st' = true).

(** [advances], and [pendingFresh] carried over. *)
Definition evolves (st st' : Provider) : Prop :=
  advances st st' /\ (pendingFresh st -> pendingFresh st').

(** ** Properties of the string primitives *)

Section StringFacts.

Lemma app_nil (b : string) : "" +:+ b = b.
Proof. reflexivity. Qed.

Lemma app_cons (c : ascii) (a b : string) : String c a +:+ b = String c (a +:+ b).
Proof. reflexivity. Qed.

Lemma len_app (a b : string) : len (a +:+ b) = len a + len b.
Proof.
  induction a as [|c a IH]; [reflexivity |].
  rewrite app_cons. simpl. now rewrite IH.
Qed.

Lemma app_empty_r (a : string) : a +:+ "" = a.
Proof.
  induction a as [|c a IH]; [reflexivity |].
  rewrite app_cons. now rewrite IH.
Qed.

Lemma app_assoc_str (a b c : string) : (a +:+ b) +:+ c = a +:+ (b +:+ c).
Proof.
  induction a as [|x a IH]; [reflexivity |].
  rewrite !app_cons. now rewrite IH.
Qed.

Lemma len_drop (n : nat) (s : string) : len (drop n s) = len s - n.
Proof.
  revert s; induction n as [|n IH]; intros s.
  - simpl. lia.
  - destruct s as [|c s]; simpl; [reflexivity | apply IH].
Qed.

Lemma len_take (n : nat) (s : string) : len (take n s) = Nat.min n (len s).
Proof.
  revert s; induction n as [|n IH]; intros s.
  - reflexivity.
  - destruct s as [|c s]; simpl; [reflexivity | now rewrite IH].
Qed.


Lemma drop_app (a b : string) (n : nat) : drop (len a + n) (a +:+ b) = drop n b.
Proof.
  induction a as [|c a IH]; [reflexivity |].
  rewrite app_cons. simpl. exact IH.
Qed.

Lemma take_app (a b : string) : take (len a) (a +:+ b) = a.
Proof.
  induction a as [|c a IH]; [reflexivity |].
  rewrite app_cons. simpl. now rewrite IH.
Qed.

Lemma startsWith_app (p s : string) : startsWith p (p +:+ s) = true.
Proof.
  induction p as [|c p IH]; [reflexivity |].
  rewrite app_cons. simpl. now rewrite Ascii.eqb_refl.
Qed.

(** A prefix is not longer than the text. *)
Lemma startsWith_len (p s : string) : startsWith p s = true -> len p <= len s.
Proof.
  revert s; induction p as [|a p IH]; intros s; simpl; [lia |].
  destruct s as [|b s]; [discriminate |].
  destruct (Ascii.eqb a b); [|discriminate].
  intros Hp. apply IH in Hp. simpl. lia.
Qed.

Lemma isEmpty_eq (s : string) : isEmpty s = true -> s = "".
Proof. destruct s; simpl; [reflexivity | discriminate]. Qed.

(** Where [indexOf] finds the needle, the needle is: the match fits. *)
Lemma indexOf_fits (needle s : string) (i : nat) :
  indexOf needle s = Some i -> i + len needle <= len s.
Proof.
  revert i; induction s as [|c s IH]; intros i; simpl.
  - destruct (startsWith needle "") eqn:Hp; [|discriminate].
    intros [= <-]. apply startsWith_len in Hp. simpl in *. lia.
  - destruct (startsWith needle (String c s)) eqn:Hp.
    + intros [= <-]. apply startsWith_len in Hp. simpl in *. lia.
    + destruct (indexOf needle s) as [j|]; simpl; [|discriminate].
      intros [= <-]. specialize (IH j eq_refl). lia.
Qed.

End StringFacts.

(** ** The loop of [processTextContent] *)

Section ScanFacts.
Context `{Platform}.

(** A [break] always leaves [data] empty. *)
Lemma scanStep_break (c c' : Scan) :
  scanStep c = (false, c') -> sc_data c' = "".
Proof.
  unfold scanStep.
  destruct (_textToolActive (sc_provider c)) as [active|].
  - destruct (indexOf END (sc_data c)) as [e2|].
    + destruct (if tta_emitted _ then _ else _) as [[st1 parts] did].
      discriminate.
    + destruct (if tta_emitted _ then _ else _) as [[st1 parts] did].
      intros [= <-]. reflexivity.
  - destruct (indexOf BEGIN (sc_data c)) as [b|].
    + destruct (indexOf ARG_BEGIN _) as [ai|], (indexOf END _) as [ei|];
        try destruct (ai <? ei);
        try destruct (emitTextToolCallIfValid _ _ _) as [[st1 parts] did];
        try discriminate; intros [= <-]; reflexivity.
    + destruct (0 <? _); intros [= <-]; reflexivity.
Qed.

(** A [continue] consumes a marker, so [data] gets shorter. *)
Lemma scanStep_continue (c c' : Scan) :
  scanStep c = (true, c') -> len (sc_data c') < len (sc_data c).
Proof.
  unfold scanStep.
  destruct (_textToolActive (sc_provider c)) as [active|].
  - destruct (indexOf END (sc_data c)) as [e2|] eqn:He.
    + destruct (if tta_emitted _ then _ else _) as [[st1 parts] did].
      intros [= <-]. simpl. rewrite len_drop.
      apply indexOf_fits in He. change (len END) with 17 in *. lia.
    + destruct (if tta_emitted _ then _ else _) as [[st1 parts] did].
      discriminate.
  - destruct (indexOf BEGIN (sc_data c)) as [b|] eqn:Hb.
    + apply indexOf_fits in Hb. change (len BEGIN) with 19 in *.
      destruct (indexOf ARG_BEGIN _) as [ai|] eqn:Ha,
               (indexOf END _) as [ei|] eqn:He;
        try destruct (ai <? ei);
        try destruct (emitTextToolCallIfValid _ _ _) as [[st1 parts] did];
        try discriminate; intros [= <-]; simpl;
        rewrite !len_drop; lia.
    + destruct (0 <? _); discriminate.
Qed.

(** Fuel: [data.length] turns bring the loop to its exit with [data]
    empty, as the [while] condition asks. *)
Lemma scanLoop_done (fuel : nat) (c : Scan) :
  len (sc_data c) <= fuel -> sc_data (scanLoop fuel c) = "".
Proof.
  revert c; induction fuel as [|fuel IH]; intros c Hlen; simpl.
  - destruct (sc_data c); [reflexivity | simpl in Hlen; lia].
  - destruct (isEmpty (sc_data c)) eqn:He; [now apply isEmpty_eq |].
    destruct (scanStep c) as [[|] c'] eqn:Hs.
    + apply IH. apply scanStep_continue in Hs. lia.
    + now apply scanStep_break in Hs.
Qed.

(** More fuel than [data.length] changes nothing. *)
Lemma scanLoop_fuel (f1 f2 : nat) (c : Scan) :
  len (sc_data c) <= f1 -> len (sc_data c) <= f2 ->
  scanLoop f1 c = scanLoop f2 c.
Proof.
  revert f2 c; induction f1 as [|f1 IH]; intros f2 c H1 H2.
  - destruct (sc_data c) eqn:Hd; [|simpl in H1; lia].
    destruct f2; simpl; [reflexivity | now rewrite Hd].
  - destruct f2 as [|f2].
    + destruct (sc_data c) eqn:Hd; [|simpl in H2; lia].
      simpl. now rewrite Hd.
    + simpl. destruct (isEmpty (sc_data c)); [reflexivity |].
      destruct (scanStep c) as [[|] c'] eqn:Hs; [|reflexivity].
      apply scanStep_continue in Hs. apply IH; lia.
Qed.

End ScanFacts.

(** ** The carryover buffer *)

Section Carryover.
Context `{Platform}.



(** [processTextContent] ends with [this._textToolParserBuffer = data],
    and [data] is empty at every exit of the loop. *)
Lemma processTextContent_buffer (st : Provider) (input : string) :
  _textToolParserBuffer (fst (fst (processTextContent st input))) = "".
Proof.
  unfold processTextContent, finishScan. simpl.
  now apply scanLoop_done.
Qed.






End Carryover.

(** ** Finding a marker in a concatenation

    Each marker starts with ["<"] and has no other ["<"]: an occurrence
    cannot straddle the start of another marker. *)

Section MarkerFacts.

Lemma indexOf_head (needle s : string) :
  startsWith needle s = true -> indexOf needle s = Some 0.
Proof. intros Hp. destruct s; simpl; now rewrite Hp. Qed.

Lemma indexOf_cons (needle : string) (c : ascii) (s : string) :
  startsWith needle (String c s) = false ->
  indexOf needle (String c s) = option_map S (indexOf needle s).
Proof. intros Hp. simpl indexOf at 1. now rewrite Hp. Qed.

Lemma indexOf_none_cons (needle : string) (c : ascii) (s : string) :
  indexOf needle (String c s) = None ->
  startsWith needle (String c s) = false /\ indexOf needle s = None.
Proof.
  simpl indexOf at 1.
  destruct (startsWith needle (String c s)); [discriminate |].
  destruct (indexOf needle s); [discriminate | auto].
Qed.

Lemma drop_app0 (a b : string) : drop (len a) (a +:+ b) = b.
Proof. rewrite <- (Nat.add_0_r (len a)). apply drop_app. Qed.

(** A prefix of [x ++ y] is a prefix of [x], or it is [x] followed by a
    prefix of [y]. *)
Lemma startsWith_split (n x y : string) :
  startsWith n (x +:+ y) = true ->
  startsWith n x = true \/ exists n2, n = x +:+ n2 /\ startsWith n2 y = true.
Proof.
  revert n; induction x as [|c x IH]; intros n Hn.
  - right. exists n. now rewrite !app_nil in *.
  - destruct n as [|a n]; [left; reflexivity |].
    rewrite app_cons in Hn. simpl in Hn. simpl.
    destruct (Ascii.eqb a c) eqn:Hac; [|discriminate].
    apply Ascii.eqb_eq in Hac. subst a.
    destruct (IH n Hn) as [Hl | (n2 & -> & Hr)]; [now left |].
    right. exists n2. now rewrite app_cons.
Qed.

Lemma indexOf_lt_found (x z : string) :
  indexOf "<" (x +:+ String "<" z) <> None.
Proof.
  induction x as [|c x IH].
  - rewrite app_nil. simpl. discriminate.
  - rewrite app_cons. intros Hn.
    apply indexOf_none_cons in Hn as [_ Hn]. contradiction.
Qed.

(** Past a text [x] without the marker, the first occurrence is the
    first one in what follows, when that starts with ["<"]. *)
Lemma indexOf_skip (t x y : string) :
  indexOf "<" t = None ->
  indexOf (String "<" t) x = None ->
  indexOf (String "<" t) (x +:+ String "<" y)
  = option_map (Nat.add (len x)) (indexOf (String "<" t) (String "<" y)).
Proof.
  intros Ht. induction x as [|c x IH]; intros Hx.
  - rewrite app_nil.
    destruct (indexOf (String "<" t) (String "<" y)); reflexivity.
  - apply indexOf_none_cons in Hx as [Hp Hx].
    rewrite app_cons, indexOf_cons.
    + rewrite (IH Hx). destruct (indexOf _ (String "<" y)); reflexivity.
    + destruct (startsWith _ (String c (x +:+ String "<" y))) eqn:Hs;
        [exfalso | reflexivity].
      rewrite <- app_cons in Hs. apply startsWith_split in Hs.
      destruct Hs as [Hs | (n2 & Hn & Hs)]; [congruence |].
      destruct n2 as [|a n2].
      * rewrite app_empty_r in Hn. rewrite <- Hn in Hp.
        rewrite <- (app_empty_r (String "<" t)) in Hp at 2.
        now rewrite startsWith_app in Hp.
      * simpl in Hs. destruct (Ascii.eqb a "<") eqn:Ha; [|discriminate].
        apply Ascii.eqb_eq in Ha. subst a.
        rewrite app_cons in Hn. injection Hn as _ Hn.
        apply (indexOf_lt_found x n2). now rewrite <- Hn.
Qed.

End MarkerFacts.

(** ** Turns of the scanning loop on framed inline calls *)

Section InlineSteps.
Context `{Platform}.

Lemma indexOf_ARG_BEGIN_after (h rest : string) :
  indexOf ARG_BEGIN h = None ->
  indexOf ARG_BEGIN (h +:+ ARG_BEGIN +:+ rest) = Some (len h).
Proof.
  intros Hh.
  change (ARG_BEGIN +:+ rest)
    with (String "<" ("|tool_call_argument_begin|>" +:+ rest)).
  change ARG_BEGIN with (String "<" "|tool_call_argument_begin|>") in *.
  rewrite indexOf_skip by (reflexivity || assumption).
  rewrite indexOf_head.
  - simpl. now rewrite Nat.add_0_r.
  - apply (startsWith_app (String "<" "|tool_call_argument_begin|>") rest).
Qed.

Lemma indexOf_END_after (x post : string) :
  indexOf END x = None ->
  indexOf END (x +:+ END +:+ post) = Some (len x).
Proof.
  intros Hx.
  change (END +:+ post) with (String "<" ("|tool_call_end|>" +:+ post)).
  change END with (String "<" "|tool_call_end|>") in *.
  rewrite indexOf_skip by (reflexivity || assumption).
  rewrite indexOf_head.
  - simpl. now rewrite Nat.add_0_r.
  - apply (startsWith_app (String "<" "|tool_call_end|>") post).
Qed.

(** In a header followed by the argument marker, the end marker comes
    later, if at all. *)
Lemma indexOf_END_header (h rest : string) :
  indexOf END h = None ->
  match indexOf END (h +:+ ARG_BEGIN +:+ rest) with
  | Some e => len h < e
  | None => True
  end.
Proof.
  intros Hh.
  change (ARG_BEGIN +:+ rest)
    with (String "<" ("|tool_call_argument_begin|>" +:+ rest)).
  change END with (String "<" "|tool_call_end|>") in *.
  rewrite indexOf_skip by (reflexivity || assumption).
  rewrite indexOf_cons by reflexivity.
  destruct (indexOf _ (_ +:+ rest)) as [e|]; cbn [option_map]; [lia | exact I].
Qed.

(** The loop, one turn at a time, whatever the fuel above [data.length]. *)
Lemma scanLoop_eq (fuel : nat) (c : Scan) :
  len (sc_data c) <= fuel ->
  scanLoop fuel c
  = if isEmpty (sc_data c) then c
    else let '(again, c') := scanStep c in
         if again then scanLoop (len (sc_data c')) c' else c'.
Proof.
  intros Hf. destruct fuel as [|fuel].
  - destruct (sc_data c) eqn:Hd; [|simpl in Hf; lia].
    reflexivity.
  - simpl. destruct (isEmpty (sc_data c)); [reflexivity |].
    destruct (scanStep c) as [[|] c'] eqn:Hs; [|reflexivity].
    apply scanStep_continue in Hs. apply scanLoop_fuel; lia.
Qed.

(** Scanning meets [BEGIN header ARG_BEGIN]: the call becomes active. *)
Lemma scanStep_header_arg (st : Provider) (h rest vo : string) (ea : bool)
    (ps : list Part) :
  _textToolActive st = None ->
  indexOf ARG_BEGIN h = None -> indexOf END h = None ->
  scanStep {| sc_provider := st;
              sc_data := BEGIN +:+ h +:+ ARG_BEGIN +:+ rest;
              sc_visibleOut := vo; sc_emittedAny := ea; sc_parts := ps |}
  = (true,
     {| sc_provider := set_textToolActive (Some (headerCall (trim h))) st;
        sc_data := rest;
        sc_visibleOut := vo; sc_emittedAny := ea; sc_parts := ps |}).
Proof.
  intros Hact Ha He.
  unfold scanStep. cbn [sc_provider sc_data sc_visibleOut sc_emittedAny sc_parts].
  rewrite Hact, (indexOf_head BEGIN) by apply startsWith_app.
  cbn [take isEmpty Nat.add]. rewrite drop_app0.
  rewrite (indexOf_ARG_BEGIN_after h rest Ha).
  pose proof (indexOf_END_header h rest He) as Hlt.
  destruct (indexOf END (h +:+ ARG_BEGIN +:+ rest)) as [e|].
  - apply Nat.ltb_lt in Hlt. rewrite Hlt.
    now rewrite take_app, drop_app, drop_app0.
  - now rewrite take_app, drop_app, drop_app0.
Qed.

(** An active call meets [END]: last attempt, then back to scanning. *)
Lemma scanStep_args_end (st : Provider) (active : TextToolActive)
    (x post vo : string) (ea : bool) (ps : list Part) :
  _textToolActive st = Some active ->
  indexOf END x = None ->
  scanStep {| sc_provider := st;
              sc_data := x +:+ END +:+ post;
              sc_visibleOut := vo; sc_emittedAny := ea; sc_parts := ps |}
  = let active1 := with_argBuffer (tta_argBuffer active +:+ x) active in
    let st0 := set_textToolActive (Some active1) st in
    let '(st1, parts, did) :=
      if tta_emitted active1 then (st0, [], false)
      else emitTextToolCallIfValid st0 active1 (tta_argBuffer active1) in
    (true,
     {| sc_provider := set_textToolActive None st1;
        sc_data := post;
        sc_visibleOut := vo; sc_emittedAny := did || ea; sc_parts := ps ++ parts |}).
Proof.
  intros Hact Hx.
  unfold scanStep. cbn [sc_provider sc_data sc_visibleOut sc_emittedAny sc_parts].
  rewrite Hact, (indexOf_END_after x post Hx).
  now rewrite take_app, drop_app, drop_app0.
Qed.

(** An active call without [END] in sight: the text joins the argument
    buffer and the loop stops. *)
Lemma scanStep_args_open (st : Provider) (active : TextToolActive)
    (data vo : string) (ea : bool) (ps : list Part) :
  _textToolActive st = Some active ->
  indexOf END data = None ->
  scanStep {| sc_provider := st; sc_data := data;
              sc_visibleOut := vo; sc_emittedAny := ea; sc_parts := ps |}
  = let active1 := with_argBuffer (tta_argBuffer active +:+ data) active in
    let st0 := set_textToolActive (Some active1) st in
    let '(st1, parts, did) :=
      if tta_emitted active1 then (st0, [], false)
      else emitTextToolCallIfValid st0 active1 (tta_argBuffer active1) in
    (false,
     {| sc_provider :=
          if did then set_textToolActive (Some (with_emitted true active1)) st1
          else st1;
        sc_data := "";
        sc_visibleOut := vo; sc_emittedAny := did || ea; sc_parts := ps ++ parts |}).
Proof.
  intros Hact Hx.
  unfold scanStep. cbn [sc_provider sc_data sc_visibleOut sc_emittedAny sc_parts].
  now rewrite Hact, Hx.
Qed.

(** Scanning a text with no begin marker and no candidate suffix: all
    of it is visible. *)
Lemma scanStep_text (st : Provider) (data vo : string) (ea : bool)
    (ps : list Part) :
  _textToolActive st = None ->
  indexOf BEGIN data = None ->
  longestPartialPrefix data = 0 ->
  scanStep {| sc_provider := st; sc_data := data;
              sc_visibleOut := vo; sc_emittedAny := ea; sc_parts := ps |}
  = (false,
     {| sc_provider := st; sc_data := "";
        sc_visibleOut := vo +:+ stripControlTokens data;
        sc_emittedAny := ea; sc_parts := ps |}).
Proof.
  intros Hact Hb Hk.
  unfold scanStep. cbn [sc_provider sc_data sc_visibleOut sc_emittedAny sc_parts].
  now rewrite Hact, Hb, Hk.
Qed.

Lemma emitTextToolCallIfValid_invalid (st : Provider) (call : TextToolActive)
    (argText : string) :
  tryParseJSONObject argText = None ->
  emitTextToolCallIfValid st call argText = (st, [], false).
Proof. intros Hp. unfold emitTextToolCallIfValid. now rewrite Hp. Qed.

(** A call without declared index and with a new key is reported, its
    key entered. *)
Lemma emitTextToolCallIfValid_fresh (st : Provider) (call : TextToolActive)
    (argText : string) (v : JsonValue) :
  tryParseJSONObject argText = Some v ->
  tta_index call = None ->
  toolCallKey (default "unknown_tool" (tta_name call)) (JSON_stringify v)
    ∉ _emittedTextToolCallKeys st ->
  emitTextToolCallIfValid st call argText
  = (set_emittedTextToolCallKeys
       ({[toolCallKey (default "unknown_tool" (tta_name call)) (JSON_stringify v)]}
        ∪ _emittedTextToolCallKeys st) st,
     [LanguageModelToolCallPart (FreshId "tct_")
        (default "unknown_tool" (tta_name call)) v],
     true).
Proof.
  intros Hp Hi Hk. unfold emitTextToolCallIfValid. rewrite Hp, Hi.
  now rewrite bool_decide_eq_false_2 by exact Hk.
Qed.

(** A call without declared index whose key is already entered is not
    reported. *)
Lemma emitTextToolCallIfValid_known (st : Provider) (call : TextToolActive)
    (argText : string) (v : JsonValue) :
  tryParseJSONObject argText = Some v ->
  tta_index call = None ->
  toolCallKey (default "unknown_tool" (tta_name call)) (JSON_stringify v)
    ∈ _emittedTextToolCallKeys st ->
  emitTextToolCallIfValid st call argText = (st, [], false).
Proof.
  intros Hp Hi Hk. unfold emitTextToolCallIfValid. rewrite Hp, Hi.
  now rewrite bool_decide_eq_true_2 by exact Hk.
Qed.

End InlineSteps.

(** ** Scenarios of the inline channel *)

Section InlineScenarios.
Context `{Platform}.

(** C7.  The inline call of scenario C arrives in two chunks, cut inside
    its argument text; the first chunk reports nothing, the second reports
    the tool call and then the text after the end marker. *)
Theorem inline_call_across_two_chunks (v : JsonValue) :
  tryParseJSONObject ("{" +:+ quoted "x" +:+ ":") = None ->
  tryParseJSONObject ("{" +:+ quoted "x" +:+ ":1}") = Some v ->
  let chunk1 := BEGIN +:+ "foo" +:+ ARG_BEGIN +:+ ("{" +:+ quoted "x" +:+ ":") in
  let chunk2 := "1}" +:+ END +:+ " done" in
  let '(st1, parts1, _) := processTextContent newProvider chunk1 in
  let '(st2, parts2, _) := processTextContent st1 chunk2 in
  parts1 = []
  /\ parts2 = [LanguageModelToolCallPart (FreshId "tct_") "foo" v;
               LanguageModelTextPart " done"]
  /\ _textToolActive st2 = None.
Proof.
  intros H1 H2 chunk1 chunk2.
  unfold processTextContent at 1.
  change (_textToolParserBuffer newProvider +:+ chunk1) with chunk1.
  rewrite scanLoop_eq by reflexivity.
  cbn [sc_data]. change (isEmpty chunk1) with false. cbv iota.
  unfold chunk1.
  rewrite scanStep_header_arg by reflexivity.
  rewrite scanLoop_eq by reflexivity.
  cbn [sc_data]. change (isEmpty ("{" +:+ quoted "x" +:+ ":")) with false. cbv iota.
  rewrite (scanStep_args_open _ (headerCall (trim "foo"))) by reflexivity.
  cbn [with_argBuffer tta_argBuffer tta_emitted headerCall].
  rewrite app_nil, (emitTextToolCallIfValid_invalid _ _ _ H1).
  unfold finishScan.
  cbn [sc_provider sc_data sc_visibleOut sc_parts sc_emittedAny isEmpty negb app orb].
  unfold processTextContent.
  cbn [_textToolParserBuffer set_textToolParserBuffer]. rewrite app_nil.
  rewrite scanLoop_eq by reflexivity.
  cbn [sc_data]. change (isEmpty chunk2) with false. cbv iota.
  unfold chunk2.
  rewrite (scanStep_args_end _
             (with_argBuffer ("{" +:+ quoted "x" +:+ ":") (headerCall (trim "foo"))))
    by reflexivity.
  cbn [with_argBuffer tta_argBuffer tta_emitted headerCall].
  change (("{" +:+ quoted "x" +:+ ":") +:+ "1}") with ("{" +:+ quoted "x" +:+ ":1}").
  rewrite (emitTextToolCallIfValid_fresh _ _ _ v H2)
    by (reflexivity || apply not_elem_of_empty).
  rewrite scanLoop_eq by reflexivity.
  cbn [sc_data]. change (isEmpty " done") with false. cbv iota.
  rewrite scanStep_text by reflexivity.
  unfold finishScan.
  cbn [sc_provider sc_data sc_visibleOut sc_parts sc_emittedAny].
  repeat split; reflexivity.
Qed.

Lemma isEmpty_app_r (x y : string) : isEmpty y = false -> isEmpty (x +:+ y) = false.
Proof. destruct x; [now rewrite app_nil | reflexivity]. Qed.

Lemma isEmpty_app_l (x y : string) : isEmpty x = false -> isEmpty (x +:+ y) = false.
Proof. destruct x; [discriminate | reflexivity]. Qed.

Lemma set_textToolActive_back (st : Provider) (a b : TextToolActive) :
  _textToolActive st = None ->
  set_textToolActive None
    (set_textToolActive (Some a) (set_textToolActive (Some b) st)) = st.
Proof. destruct st; simpl; intros ->; reflexivity. Qed.

(** C8.  A framed inline call whose argument text does not parse as a JSON
    object reports no tool call and raises nothing; the call is closed, and
    what follows it is processed exactly as if the call had not been there. *)
Theorem malformed_inline_call_dropped (st : Provider) (h a post : string) :
  _textToolActive st = None ->
  _textToolParserBuffer st = "" ->
  indexOf ARG_BEGIN h = None ->
  indexOf END h = None ->
  indexOf END a = None ->
  tryParseJSONObject a = None ->
  processTextContent st (BEGIN +:+ h +:+ ARG_BEGIN +:+ a +:+ END +:+ post)
    = processTextContent st post
  /\ processTextContent st (BEGIN +:+ h +:+ ARG_BEGIN +:+ a +:+ END)
    = (st, [], {| emittedText := false; emittedAny := false |}).
Proof.
  intros Hact Hbuf Hha Hhe Hae Hp.
  assert (Hmain : forall post',
    processTextContent st (BEGIN +:+ h +:+ ARG_BEGIN +:+ a +:+ END +:+ post')
    = processTextContent st post').
  { intros post'. unfold processTextContent. rewrite Hbuf, !app_nil.
    rewrite scanLoop_eq by reflexivity.
    cbn [sc_data]. rewrite (isEmpty_app_l BEGIN _ eq_refl).
    rewrite scanStep_header_arg by assumption.
    rewrite scanLoop_eq by reflexivity.
    cbn [sc_data]. rewrite (isEmpty_app_r a (END +:+ post') eq_refl).
    rewrite (scanStep_args_end _ (headerCall (trim h))) by (reflexivity || assumption).
    cbn [with_argBuffer tta_argBuffer tta_emitted headerCall].
    rewrite app_nil, (emitTextToolCallIfValid_invalid _ _ _ Hp).
    now rewrite set_textToolActive_back by assumption. }
  split; [apply Hmain |].
  rewrite <- (app_empty_r END), Hmain.
  unfold processTextContent. rewrite Hbuf. cbn.
  destruct st; simpl in *; subst; reflexivity.
Qed.

End InlineScenarios.

(** ** The structured channel *)

Section Structured.
Context `{Platform}.

Lemma mapGet_mapSet_eq {V} (k : Z) (v : V) (m : list (Z * V)) :
  mapGet k (mapSet k v m) = Some v.
Proof.
  induction m as [|[k' v'] m IH]; simpl.
  - now rewrite Z.eqb_refl.
  - destruct (Z.eqb k k') eqn:Hk; simpl; rewrite ?Z.eqb_refl, ?Hk; auto.
Qed.

Lemma flushToolCallBuffers_eq (st : Provider) (throwOnInvalid : bool) :
  flushToolCallBuffers st throwOnInvalid
  = flushEntries throwOnInvalid (_toolCallBuffers st) st.
Proof. unfold flushToolCallBuffers. now destruct (_toolCallBuffers st). Qed.

(** Without a name, or with arguments that do not parse yet, the
    per-fragment attempt reports nothing and changes nothing. *)
Lemma tryEmitBufferedToolCall_not_ready (st : Provider) (idx : Z)
    (buf : ToolCallBuffer) :
  mapGet idx (_toolCallBuffers st) = Some buf ->
  truthy (buf_name buf) = false \/ tryParseJSONObject (buf_args buf) = None ->
  tryEmitBufferedToolCall st idx = (st, []).
Proof.
  intros Hg Hn. unfold tryEmitBufferedToolCall. rewrite Hg.
  destruct (truthy (buf_name buf)); simpl; [|reflexivity].
  destruct Hn as [Hn | Hn]; [discriminate | now rewrite Hn].
Qed.

(** With a name and arguments that parse, the call is reported once:
    its key is entered, its buffer removed, its index completed. *)
Lemma tryEmitBufferedToolCall_ready (st : Provider) (idx : Z)
    (buf : ToolCallBuffer) (name : string) (v : JsonValue) :
  mapGet idx (_toolCallBuffers st) = Some buf ->
  buf_name buf = Some name -> isEmpty name = false ->
  tryParseJSONObject (buf_args buf) = Some v ->
  tryEmitBufferedToolCall st idx
  = (set_completedToolCallIndices ({[idx]} ∪ _completedToolCallIndices st)
       (set_toolCallBuffers (mapDelete idx (_toolCallBuffers st))
          (set_emittedTextToolCallKeys
             ({[toolCallKey name (JSON_stringify v)]} ∪ _emittedTextToolCallKeys st)
             st)),
     [LanguageModelToolCallPart (callIdOf buf) name v]).
Proof.
  intros Hg Hn He Hp. unfold tryEmitBufferedToolCall.
  rewrite Hg, Hn. cbn [truthy]. rewrite He, Hp. reflexivity.
Qed.

(** The opportunistic flush never throws and reports exactly the pending
    entries whose arguments parse, in insertion order. *)
Lemma flushEntries_lenient (entries : list (Z * ToolCallBuffer)) (st : Provider) :
  snd (flushEntries false entries st) = Returned tt
  /\ snd (fst (flushEntries false entries st)) = omap flushPart entries.
Proof.
  revert st; induction entries as [|[idx buf] rest IH]; intros st; simpl.
  - split; reflexivity.
  - unfold flushPart at 1. cbn [snd].
    destruct (tryParseJSONObject (buf_args buf)) as [v|]; [|apply IH].
    match goal with |- context [flushEntries false rest ?s] =>
      destruct (IH s) as [Ho Hp]; destruct (flushEntries false rest s) as [[st' ps] o]
    end.
    simpl in *. subst. split; reflexivity.
Qed.

(** The strict flush throws exactly when some entry of the snapshot does
    not parse. *)
Lemma flushEntries_strict_throws (entries : list (Z * ToolCallBuffer)) (st : Provider) :
  (exists msg, snd (flushEntries true entries st) = Threw msg)
  <-> exists idx buf, In (idx, buf) entries
                      /\ tryParseJSONObject (buf_args buf) = None.
Proof.
  revert st; induction entries as [|[idx buf] rest IH]; intros st; simpl.
  - split; [intros [msg Hm]; discriminate | intros (i & b & Hin & _); destruct Hin].
  - destruct (tryParseJSONObject (buf_args buf)) as [v|] eqn:Hp.
    + match goal with |- context [flushEntries true rest ?s] =>
        specialize (IH s); destruct (flushEntries true rest s) as [[st' ps] o]
      end.
      simpl in *. rewrite IH. split.
      * intros (i & b & Hin & Hb). exists i, b. auto.
      * intros (i & b & [Heq | Hin] & Hb); [congruence | exists i, b; auto].
    + simpl. split; [|intros _; eexists; reflexivity].
      intros _. exists idx, buf. auto.
Qed.

(** When the flush returns, every entry that parses has been reported. *)
Lemma flushEntries_reports (throwOnInvalid : bool)
    (entries : list (Z * ToolCallBuffer)) (st : Provider) (e : Z * ToolCallBuffer)
    (p : Part) :
  In e entries -> flushPart e = Some p ->
  snd (flushEntries throwOnInvalid entries st) = Returned tt ->
  In p (snd (fst (flushEntries throwOnInvalid entries st))).
Proof.
  revert st; induction entries as [|[idx buf] rest IH]; intros st Hin Hp; simpl.
  - destruct Hin.
  - destruct (tryParseJSONObject (buf_args buf)) as [v|] eqn:Hv.
    + match goal with |- context [flushEntries throwOnInvalid rest ?s] =>
        specialize (IH s); destruct (flushEntries throwOnInvalid rest s) as [[st' ps] o]
      end.
      simpl in *. intros Ho. destruct Hin as [<- | Hin].
      * left. unfold flushPart in Hp. cbn [snd] in Hp. rewrite Hv in Hp. congruence.
      * right. auto.
    + destruct Hin as [<- | Hin].
      * unfold flushPart in Hp. cbn [snd] in Hp. rewrite Hv in Hp. discriminate.
      * destruct throwOnInvalid; [discriminate | auto].
Qed.

Lemma isTerminal_spec (finish : option string) :
  isTerminal finish = true
  <-> finish = Some "tool_calls" \/ finish = Some "stop".
Proof.
  destruct finish as [f|]; simpl.
  - rewrite orb_true_iff, !String.eqb_eq. split.
    + intros [Hf | Hf]; subst f; auto.
    + intros [Hf | Hf]; injection Hf as Hf; auto.
  - split; [discriminate | intros [Hf | Hf]; discriminate].
Qed.

End Structured.

(** ** Claims on the structured channel *)

Section StructuredClaims.
Context `{Platform}.

(** C2, as the code has it.  [processDelta] throws exactly when the
    finish reason is ["tool_calls"] or ["stop"] and, after the fragments of
    the delta have been accumulated, some pending call has argument text
    that does not parse as a JSON object.  A payload without choices
    returns.  The flush on the end-of-stream line is the lenient one: it
    never throws and reports exactly the pending calls that parse. *)
Theorem terminal_marker_error_policy :
  (forall (st : Provider) (choice : Choice) (rest : list Choice),
     (exists msg, snd (processDelta st {| choices := choice :: rest |}) = Threw msg)
     <-> ((ch_finish_reason choice = Some "tool_calls"
           \/ ch_finish_reason choice = Some "stop")
          /\ exists idx buf,
               In (idx, buf) (_toolCallBuffers (fst (fst (processFragments st choice))))
               /\ tryParseJSONObject (buf_args buf) = None))
  /\ (forall st : Provider,
        snd (processDelta st {| choices := [] |}) = Returned false)
  /\ (forall st : Provider,
        snd (flushToolCallBuffers st false) = Returned tt
        /\ snd (fst (flushToolCallBuffers st false))
           = omap flushPart (_toolCallBuffers st))
  /\ (forall st : Provider,
        processLine st "data: [DONE]"
        = let '(st1, parts1, _) := flushToolCallBuffers st false in
          let '(st2, parts2) := flushActiveTextToolCall st1 in
          (st2, parts1 ++ parts2)).
Proof.
  split; [|split; [|split]].
  - intros st choice rest. split.
    + intros [msg Hm]. unfold processDelta in Hm. cbn [choices] in Hm.
      destruct (processFragments st choice) as [[st1 parts1] emitted].
      destruct (isTerminal (ch_finish_reason choice)) eqn:Ht; [|discriminate].
      apply isTerminal_spec in Ht. split; [exact Ht |].
      rewrite flushToolCallBuffers_eq in Hm. cbn [fst].
      apply (flushEntries_strict_throws (_toolCallBuffers st1) st1).
      destruct (flushEntries true (_toolCallBuffers st1) st1) as [[st2 parts2] [r|m]];
        [discriminate | eexists; reflexivity].
    + intros [Ht Hinv]. unfold processDelta. cbn [choices].
      destruct (processFragments st choice) as [[st1 parts1] emitted].
      apply isTerminal_spec in Ht. rewrite Ht, flushToolCallBuffers_eq.
      cbn [fst] in Hinv.
      apply (flushEntries_strict_throws (_toolCallBuffers st1) st1) in Hinv.
      destruct Hinv as [msg Hm].
      destruct (flushEntries true (_toolCallBuffers st1) st1) as [[st2 parts2] o].
      simpl in Hm. subst o. eexists; reflexivity.
  - reflexivity.
  - intros st. rewrite flushToolCallBuffers_eq. apply flushEntries_lenient.
  - reflexivity.
Qed.

(** C10.  A pending call without a function name is never reported by the
    per-fragment step, even when its argument text parses: the attempt
    leaves everything as it is, and a fragment that brings no name leaves
    the call pending.  Only a flush reports it, under the name
    ["unknown_tool"]. *)
Theorem nameless_call_only_flushed :
  (forall (st : Provider) (idx : Z) (buf : ToolCallBuffer),
     mapGet idx (_toolCallBuffers st) = Some buf ->
     buf_name buf = None ->
     tryEmitBufferedToolCall st idx = (st, []))
  /\ (forall (st : Provider) (tc : ToolCallFragment),
        let idx := default 0%Z (tc_index tc) in
        idx ∉ _completedToolCallIndices st ->
        (mapGet idx (_toolCallBuffers st) ≫= buf_name) = None ->
        truthy (tc_function tc ≫= fn_name) = false ->
        snd (accumulateToolCall st tc) = []
        /\ (idx ∉ _completedToolCallIndices (fst (accumulateToolCall st tc)))
        /\ exists buf',
             mapGet idx (_toolCallBuffers (fst (accumulateToolCall st tc))) = Some buf'
             /\ buf_name buf' = None)
  /\ (forall (st : Provider) (throwOnInvalid : bool) (idx : Z)
             (buf : ToolCallBuffer) (v : JsonValue),
        In (idx, buf) (_toolCallBuffers st) ->
        buf_name buf = None ->
        tryParseJSONObject (buf_args buf) = Some v ->
        snd (flushToolCallBuffers st throwOnInvalid) = Returned tt ->
        In (LanguageModelToolCallPart (callIdOf buf) "unknown_tool" v)
           (snd (fst (flushToolCallBuffers st throwOnInvalid)))).
Proof.
  split; [|split].
  - intros st idx buf Hg Hn.
    apply (tryEmitBufferedToolCall_not_ready st idx buf Hg).
    left. now rewrite Hn.
  - intros st tc idx Hc Hn Hf.
    unfold accumulateToolCall. fold idx.
    rewrite bool_decide_eq_false_2 by exact Hc.
    set (buf' := mergeFragment _ tc).
    assert (Hb : buf_name buf' = None).
    { unfold buf', mergeFragment. cbn [buf_name]. rewrite Hf.
      destruct (mapGet idx (_toolCallBuffers st)) as [b|]; [exact Hn | reflexivity]. }
    rewrite (tryEmitBufferedToolCall_not_ready _ idx buf').
    + cbn [fst snd _completedToolCallIndices _toolCallBuffers
             set_toolCallBuffers set_outputTokenCount].
      repeat split; [exact Hc |].
      exists buf'. split; [apply mapGet_mapSet_eq | exact Hb].
    + cbn [_toolCallBuffers set_toolCallBuffers]. apply mapGet_mapSet_eq.
    + left. now rewrite Hb.
  - intros st throwOnInvalid idx buf v Hin Hn Hp.
    rewrite flushToolCallBuffers_eq.
    apply (flushEntries_reports throwOnInvalid _ st (idx, buf)); [exact Hin |].
    unfold flushPart. cbn [snd]. now rewrite Hp, Hn.
Qed.

(** A fragment for an index that is already completed is skipped. *)
Lemma accumulateToolCall_completed (st : Provider) (tc : ToolCallFragment) :
  default 0%Z (tc_index tc) ∈ _completedToolCallIndices st ->
  accumulateToolCall st tc = (st, []).
Proof.
  intros Hc. unfold accumulateToolCall.
  now rewrite bool_decide_eq_true_2 by exact Hc.
Qed.

(** A payload of structured fragments only, before any text was shown:
    the fragments are accumulated in order and the call returns. *)
Lemma processDelta_toolCalls (st : Provider) (tcs : list ToolCallFragment) :
  _hasEmittedAssistantText st = false ->
  processDelta st (toolCallDelta (Some tcs) None)
  = let '(st', parts) := accumulateToolCalls st tcs in (st', parts, Returned false).
Proof.
  intros Hh. unfold processDelta, processFragments, processContent,
    processToolCalls, toolCallDelta.
  cbn [choices ch_delta ch_thinking ch_finish_reason d_content d_tool_calls
       d_thinking thinkingPart mbind option_bind isTerminal].
  rewrite Hh, andb_false_r. cbn [andb].
  destruct (accumulateToolCalls st tcs) as [st' parts]. reflexivity.
Qed.

(** C6.  Scenario B: the two fragments of index 0 assemble into one call,
    reported when the second fragment completes the argument text; the
    terminal flush reports nothing more; index 0 is completed and a further
    fragment for it changes nothing. *)
Theorem structured_two_fragment_assembly (v : JsonValue) (i1 i2 : option Z) :
  default 0%Z i1 = 0%Z -> default 0%Z i2 = 0%Z ->
  tryParseJSONObject ("{" +:+ quoted "q" +:+ ":") = None ->
  tryParseJSONObject ("{" +:+ quoted "q" +:+ ":" +:+ quoted "x" +:+ "}") = Some v ->
  let frag1 :=
    {| tc_index := i1; tc_id := None;
       tc_function := Some {| fn_name := Some "search";
                              fn_arguments := Some ("{" +:+ quoted "q" +:+ ":") |} |} in
  let frag2 :=
    {| tc_index := i2; tc_id := None;
       tc_function := Some {| fn_name := None;
                              fn_arguments := Some (quoted "x" +:+ "}") |} |} in
  let '(st1, parts1, _) := processDelta newProvider (toolCallDelta (Some [frag1]) None) in
  let '(st2, parts2, _) := processDelta st1 (toolCallDelta (Some [frag2]) None) in
  let '(st3, parts3, r3) := processDelta st2 (toolCallDelta None (Some "tool_calls")) in
  parts1 = []
  /\ parts2 = [LanguageModelToolCallPart (FreshId "call_") "search" v]
  /\ parts3 = [] /\ r3 = Returned false
  /\ (0%Z ∈ _completedToolCallIndices st3)
  /\ _toolCallBuffers st3 = []
  /\ forall tc, default 0%Z (tc_index tc) = 0%Z -> accumulateToolCall st3 tc = (st3, []).
Proof.
  intros Hi1 Hi2 H1 H2 frag1 frag2. subst frag1 frag2.
  rewrite processDelta_toolCalls by reflexivity.
  cbn [accumulateToolCalls]. unfold accumulateToolCall at 1.
  cbn [tc_index]. rewrite Hi1.
  rewrite bool_decide_eq_false_2 by apply not_elem_of_empty.
  erewrite tryEmitBufferedToolCall_not_ready;
    [| apply mapGet_mapSet_eq | right; exact H1].
  cbv beta iota zeta.
  match goal with |- context [processDelta ?s (toolCallDelta (Some _) None)] =>
    set (st1 := s) end.
  rewrite processDelta_toolCalls by reflexivity.
  cbn [accumulateToolCalls]. unfold accumulateToolCall at 1.
  cbn [tc_index]. rewrite Hi2.
  rewrite bool_decide_eq_false_2 by apply not_elem_of_empty.
  erewrite (tryEmitBufferedToolCall_ready _ 0%Z _ "search" v);
    [| apply mapGet_mapSet_eq | reflexivity | reflexivity | exact H2].
  cbv beta iota zeta.
  match goal with |- context [processDelta ?s (toolCallDelta None _)] =>
    set (st2 := s) end.
  assert (Hb : _toolCallBuffers st2 = []) by reflexivity.
  assert (Hc : 0%Z ∈ _completedToolCallIndices st2).
  { unfold st2. cbn [_completedToolCallIndices set_completedToolCallIndices].
    apply elem_of_union_l, elem_of_singleton. reflexivity. }
  unfold processDelta, processFragments, processContent, processToolCalls,
    toolCallDelta.
  cbn [choices ch_delta ch_thinking ch_finish_reason d_content d_tool_calls
       d_thinking thinkingPart mbind option_bind].
  change (isTerminal (Some "tool_calls")) with true.
  unfold flushToolCallBuffers. rewrite Hb.
  cbv beta iota zeta.
  repeat split; try reflexivity; try assumption.
  intros tc Htc. apply accumulateToolCall_completed. now rewrite Htc.
Qed.

End StructuredClaims.

(** ** The key registry along a session *)

Section Registry.
Context `{Platform}.

Lemma keysCover_nil (st : Provider) : keysCover [] st.
Proof. intros id name v []. Qed.

Lemma keysCover_mono (parts : list Part) (st st' : Provider) :
  _emittedTextToolCallKeys st ⊆ _emittedTextToolCallKeys st' ->
  keysCover parts st -> keysCover parts st'.
Proof. intros Hs Hc id name v Hin. apply Hs, (Hc id name v Hin). Qed.

Lemma keysCover_app (ps qs : list Part) (st : Provider) :
  keysCover ps st -> keysCover qs st -> keysCover (ps ++ qs) st.
Proof.
  intros Hp Hq id name v Hin. apply in_app_or in Hin as [Hin | Hin]; eauto.
Qed.

Lemma keysCover_text (ps : list Part) (text : string) (st : Provider) :
  keysCover ps st -> keysCover (ps ++ [LanguageModelTextPart text]) st.
Proof.
  intros Hp. apply keysCover_app; [exact Hp |].
  intros id name v [Hin | []]. discriminate.
Qed.

Lemma registers_refl (st : Provider) : registers st st [].
Proof. split; [reflexivity | apply keysCover_nil]. Qed.

Lemma registers_trans (st st1 st2 : Provider) (ps qs : list Part) :
  registers st st1 ps -> registers st1 st2 qs -> registers st st2 (ps ++ qs).
Proof.
  intros [Hs1 Hc1] [Hs2 Hc2]. split; [set_solver |].
  apply keysCover_app; [now apply (keysCover_mono ps st1) | exact Hc2].
Qed.

Lemma emitTextToolCallIfValid_registers (st : Provider) (call : TextToolActive)
    (argText : string) :
  registers st (fst (fst (emitTextToolCallIfValid st call argText)))
            (snd (fst (emitTextToolCallIfValid st call argText))).
Proof.
  unfold emitTextToolCallIfValid.
  destruct (tryParseJSONObject argText) as [v|]; [|apply registers_refl].
  destruct (tta_index call) as [i|].
  - destruct (bool_decide _); [apply registers_refl |].
    split; cbn; [set_solver |].
    intros id name v' [Hin | []]. injection Hin as _ <- <-. set_solver.
  - destruct (bool_decide _); [apply registers_refl |].
    split; cbn; [set_solver |].
    intros id name v' [Hin | []]. injection Hin as _ <- <-. set_solver.
Qed.

(** Only the key registry matters to [registers]. *)
Lemma registers_keys (st0 st st' : Provider) (ps : list Part) :
  _emittedTextToolCallKeys st' = _emittedTextToolCallKeys st ->
  registers st0 st ps -> registers st0 st' ps.
Proof.
  intros He [Hs Hc]. split; [now rewrite He |].
  intros id name v Hin. rewrite He. eauto.
Qed.

Lemma registers_from (st0 st0' st : Provider) (ps : list Part) :
  _emittedTextToolCallKeys st0' = _emittedTextToolCallKeys st0 ->
  registers st0 st ps -> registers st0' st ps.
Proof. intros He [Hs Hc]. split; [now rewrite He | exact Hc]. Qed.

(** An attempt to emit after a change of the active call. *)
Lemma emit_after_registers (st0 st : Provider) (ps : list Part)
    (a b : option TextToolActive) (call : TextToolActive) (argText : string) :
  registers st0 st ps ->
  let r := emitTextToolCallIfValid (set_textToolActive a st) call argText in
  registers st0 (set_textToolActive b (fst (fst r))) (ps ++ snd (fst r)).
Proof.
  intros Hr r. apply (registers_keys _ (fst (fst r))); [reflexivity |].
  apply (registers_trans _ (set_textToolActive a st)).
  - now apply (registers_keys _ st).
  - apply emitTextToolCallIfValid_registers.
Qed.

Lemma scanStep_registers (st0 : Provider) (c : Scan) :
  registers st0 (sc_provider c) (sc_parts c) ->
  registers st0 (sc_provider (snd (scanStep c))) (sc_parts (snd (scanStep c))).
Proof.
  intros Hr. unfold scanStep.
  destruct (_textToolActive (sc_provider c)) as [active|].
  - destruct (indexOf END (sc_data c)) as [e2|].
    + destruct (tta_emitted _).
      * cbn. rewrite app_nil_r. now apply (registers_keys _ (sc_provider c)).
      * pose proof (emit_after_registers st0 (sc_provider c) (sc_parts c)
                      (Some (with_argBuffer (tta_argBuffer active +:+ take e2 (sc_data c)) active))
                      None
                      (with_argBuffer (tta_argBuffer active +:+ take e2 (sc_data c)) active)
                      (tta_argBuffer (with_argBuffer (tta_argBuffer active +:+ take e2 (sc_data c)) active))
                      Hr) as Hs.
        cbv zeta in Hs.
        destruct (emitTextToolCallIfValid _ _ _) as [[st1 parts] did]. exact Hs.
    + destruct (tta_emitted _).
      * cbn. rewrite app_nil_r. now apply (registers_keys _ (sc_provider c)).
      * pose proof (emit_after_registers st0 (sc_provider c) (sc_parts c)
                      (Some (with_argBuffer (tta_argBuffer active +:+ sc_data c) active))
                      None
                      (with_argBuffer (tta_argBuffer active +:+ sc_data c) active)
                      (tta_argBuffer (with_argBuffer (tta_argBuffer active +:+ sc_data c) active))
                      Hr) as Hs.
        cbv zeta in Hs.
        destruct (emitTextToolCallIfValid _ _ _) as [[st1 parts] did].
        cbn [snd sc_provider sc_parts fst] in *.
        destruct did; [|now apply (registers_keys _ (set_textToolActive None st1))].
        now apply (registers_keys _ (set_textToolActive None st1)).
  - destruct (indexOf BEGIN (sc_data c)) as [b|].
    + destruct (indexOf ARG_BEGIN _) as [ai|], (indexOf END _) as [ei|];
        try destruct (ai <? ei);
        try (cbn; now apply (registers_keys _ (sc_provider c)));
        match goal with
        | |- context [emitTextToolCallIfValid (set_textToolActive ?a ?s) ?call ?arg] =>
            pose proof (emit_after_registers st0 s (sc_parts c) a None call arg Hr) as Hs;
            cbv zeta in Hs;
            destruct (emitTextToolCallIfValid (set_textToolActive a s) call arg)
              as [[st1 parts] did]; exact Hs
        end.
    + destruct (0 <? _); cbn; now apply (registers_keys _ (sc_provider c)).
Qed.

Lemma scanLoop_registers (fuel : nat) (st0 : Provider) (c : Scan) :
  registers st0 (sc_provider c) (sc_parts c) ->
  registers st0 (sc_provider (scanLoop fuel c)) (sc_parts (scanLoop fuel c)).
Proof.
  revert c; induction fuel as [|fuel IH]; intros c Hr; simpl; [exact Hr |].
  destruct (isEmpty (sc_data c)); [exact Hr |].
  pose proof (scanStep_registers st0 c Hr) as Hs.
  destruct (scanStep c) as [[|] c']; simpl in Hs; auto.
Qed.

(** The inline channel grows the key registry and enters the key of every
    call it reports. *)
Lemma processTextContent_registers (st : Provider) (input : string) :
  registers st (fst (fst (processTextContent st input)))
            (snd (fst (processTextContent st input))).
Proof.
  unfold processTextContent, finishScan. cbn [fst snd].
  match goal with |- context [scanLoop ?f ?c] =>
    pose proof (scanLoop_registers f st c (registers_refl st)) as Hs;
    destruct (scanLoop f c) as [st' data vo ea ps]
  end.
  cbn [sc_provider sc_parts sc_visibleOut sc_data] in *.
  apply (registers_keys _ st'); [reflexivity |].
  destruct (negb (isEmpty vo)); [|exact Hs].
  destruct Hs as [Hk Hc]. split; [exact Hk | now apply keysCover_text].
Qed.

Lemma tryEmitBufferedToolCall_registers (st : Provider) (idx : Z) :
  registers st (fst (tryEmitBufferedToolCall st idx))
            (snd (tryEmitBufferedToolCall st idx)).
Proof.
  unfold tryEmitBufferedToolCall.
  destruct (mapGet idx (_toolCallBuffers st)) as [buf|]; [|apply registers_refl].
  destruct (negb (truthy (buf_name buf))); [apply registers_refl |].
  destruct (tryParseJSONObject (buf_args buf)) as [v|]; [|apply registers_refl].
  split; cbn; [set_solver |].
  intros id name v' [Hin | []]. injection Hin as _ <- <-. set_solver.
Qed.

Lemma accumulateToolCall_registers (st : Provider) (tc : ToolCallFragment) :
  registers st (fst (accumulateToolCall st tc)) (snd (accumulateToolCall st tc)).
Proof.
  unfold accumulateToolCall.
  destruct (bool_decide _); [apply registers_refl |].
  eapply registers_from; [|apply tryEmitBufferedToolCall_registers].
  reflexivity.
Qed.

Lemma accumulateToolCalls_registers (tcs : list ToolCallFragment) (st : Provider) :
  registers st (fst (accumulateToolCalls st tcs)) (snd (accumulateToolCalls st tcs)).
Proof.
  revert st; induction tcs as [|tc tcs IH]; intros st; simpl;
    [apply registers_refl |].
  pose proof (accumulateToolCall_registers st tc) as H1.
  destruct (accumulateToolCall st tc) as [st1 ps1].
  pose proof (IH st1) as H2.
  destruct (accumulateToolCalls st1 tcs) as [st2 ps2].
  apply (registers_trans _ st1); assumption.
Qed.

Lemma flushEntries_registers (throwOnInvalid : bool)
    (entries : list (Z * ToolCallBuffer)) (st : Provider) :
  registers st (fst (fst (flushEntries throwOnInvalid entries st)))
            (snd (fst (flushEntries throwOnInvalid entries st))).
Proof.
  revert st; induction entries as [|[idx buf] rest IH]; intros st; simpl;
    [apply registers_refl |].
  destruct (tryParseJSONObject (buf_args buf)) as [v|].
  - match goal with |- context [flushEntries throwOnInvalid rest ?s] =>
      pose proof (IH s) as Hr;
      destruct (flushEntries throwOnInvalid rest s) as [[st' ps] o]
    end.
    cbn [fst snd] in *.
    change (?p :: ps) with ([p] ++ ps).
    eapply registers_trans; [|exact Hr].
    split; cbn; [set_solver |].
    intros id name v' [Hin | []]. injection Hin as _ <- <-. set_solver.
  - destruct throwOnInvalid; [apply registers_refl | apply IH].
Qed.

Lemma flushToolCallBuffers_registers (st : Provider) (throwOnInvalid : bool) :
  registers st (fst (fst (flushToolCallBuffers st throwOnInvalid)))
            (snd (fst (flushToolCallBuffers st throwOnInvalid))).
Proof. rewrite flushToolCallBuffers_eq. apply flushEntries_registers. Qed.

Lemma flushActiveTextToolCall_registers (st : Provider) :
  registers st (fst (flushActiveTextToolCall st)) (snd (flushActiveTextToolCall st)).
Proof.
  unfold flushActiveTextToolCall.
  destruct (_textToolActive st) as [active|]; [|apply registers_refl].
  destruct (tryParseJSONObject (tta_argBuffer active)); [|apply registers_refl].
  pose proof (emitTextToolCallIfValid_registers st active (tta_argBuffer active)) as Hr.
  destruct (emitTextToolCallIfValid _ _ _) as [[st1 ps] did].
  now apply (registers_keys _ st1).
Qed.

Lemma registers_texts (st st' : Provider) (ts ps : list Part) :
  (forall p, In p ts -> isToolCall p = false) ->
  registers st st' ps -> registers st st' (ts ++ ps).
Proof.
  intros Ht [Hs Hc]. split; [exact Hs |].
  intros id name v Hin. apply in_app_or in Hin as [Hin | Hin]; [|eauto].
  apply Ht in Hin. discriminate.
Qed.

Lemma thinkingPart_texts (choice : Choice) (p : Part) :
  In p (thinkingPart choice) -> isToolCall p = false.
Proof.
  unfold thinkingPart.
  destruct (match ch_thinking choice with Some t => Some t | None => _ end) as [t|];
    [|intros []].
  destruct hostHasThinkingPart; [|intros []].
  destruct t as [text | text id |]; cbn;
    try destruct (isEmpty _); intros Hin; simpl in Hin;
    intuition (subst; reflexivity).
Qed.

Lemma processContent_registers (st : Provider) (content : option string)
    (emitted : bool) :
  registers st (fst (fst (processContent st content emitted)))
            (snd (fst (processContent st content emitted))).
Proof.
  unfold processContent.
  destruct content as [content|]; [|apply registers_refl].
  destruct (isEmpty content); [apply registers_refl |].
  pose proof (processTextContent_registers st content) as Hr.
  destruct (processTextContent st content) as [[st' parts] res].
  destruct (emittedText res); now apply (registers_keys _ st').
Qed.

Lemma processToolCalls_registers (st : Provider)
    (toolCalls : option (list ToolCallFragment)) :
  registers st (fst (processToolCalls st toolCalls))
            (snd (processToolCalls st toolCalls)).
Proof.
  unfold processToolCalls.
  destruct toolCalls as [toolCalls|]; [|apply registers_refl].
  set (hint := negb _ && _ && _).
  match goal with |- context [accumulateToolCalls ?s toolCalls] =>
    pose proof (accumulateToolCalls_registers toolCalls s) as Hr;
    destruct (accumulateToolCalls s toolCalls) as [st2 ps2]
  end.
  cbn [fst snd] in *. apply registers_texts.
  - destruct hint; intros p Hin; simpl in Hin; intuition (subst; reflexivity).
  - destruct hint; [now apply (registers_from st) | exact Hr].
Qed.

Lemma processFragments_registers (st : Provider) (choice : Choice) :
  registers st (fst (fst (processFragments st choice)))
            (snd (fst (processFragments st choice))).
Proof.
  unfold processFragments.
  match goal with |- context [processContent st ?c ?e] =>
    pose proof (processContent_registers st c e) as H1;
    destruct (processContent st c e) as [[st1 ps1] e1]
  end.
  match goal with |- context [processToolCalls st1 ?t] =>
    pose proof (processToolCalls_registers st1 t) as H2;
    destruct (processToolCalls st1 t) as [st2 ps2]
  end.
  cbn [fst snd] in *.
  apply registers_texts; [apply thinkingPart_texts |].
  apply (registers_trans _ st1); assumption.
Qed.

Lemma processDelta_registers (st : Provider) (delta : Delta) :
  registers st (fst (fst (processDelta st delta))) (snd (fst (processDelta st delta))).
Proof.
  unfold processDelta.
  destruct (choices delta) as [|choice rest]; [apply registers_refl |].
  pose proof (processFragments_registers st choice) as H1.
  destruct (processFragments st choice) as [[st1 ps1] emitted].
  destruct (isTerminal _); [|exact H1].
  pose proof (flushToolCallBuffers_registers st1 true) as H2.
  destruct (flushToolCallBuffers st1 true) as [[st2 ps2] o].
  apply (registers_trans _ st1); assumption.
Qed.

Lemma processLine_registers (st : Provider) (line : string) :
  registers st (fst (processLine st line)) (snd (processLine st line)).
Proof.
  unfold processLine.
  destruct (negb (startsWith "data: " line)); [apply registers_refl |].
  destruct (String.eqb _ _).
  - pose proof (flushToolCallBuffers_registers st false) as H1.
    destruct (flushToolCallBuffers st false) as [[st1 ps1] o].
    pose proof (flushActiveTextToolCall_registers st1) as H2.
    destruct (flushActiveTextToolCall st1) as [st2 ps2].
    apply (registers_trans _ st1); assumption.
  - destruct (JSON_parse _) as [parsed|]; [|apply registers_refl].
    pose proof (processDelta_registers st parsed) as H1.
    destruct (processDelta st parsed) as [[st1 ps] o]. exact H1.
Qed.

Lemma processLines_registers (lines : list string) (st : Provider) :
  registers st (fst (processLines st lines)) (snd (processLines st lines)).
Proof.
  revert st; induction lines as [|line lines IH]; intros st; simpl;
    [apply registers_refl |].
  pose proof (processLine_registers st line) as H1.
  destruct (processLine st line) as [st1 ps1].
  pose proof (IH st1) as H2.
  destruct (processLines st1 lines) as [st2 ps2].
  apply (registers_trans _ st1); assumption.
Qed.

(** Along the read loop the key registry grows and holds the key of
    every tool call reported so far. *)
Lemma processChunks_registers (chunks : list string) (st : Provider) (buffer : string) :
  registers st (fst (processChunks st buffer chunks))
            (snd (processChunks st buffer chunks)).
Proof.
  revert st buffer; induction chunks as [|chunk chunks IH]; intros st buffer; simpl;
    [apply registers_refl |].
  unfold processChunk.
  match goal with |- context [processLines st ?ls] =>
    pose proof (processLines_registers ls st) as H1;
    destruct (processLines st ls) as [st1 ps1]
  end.
  match goal with |- context [processChunks st1 ?b chunks] =>
    pose proof (IH st1 b) as H2;
    destruct (processChunks st1 b chunks) as [st2 ps2]
  end.
  apply (registers_trans _ st1); assumption.
Qed.

End Registry.

(** ** Deduplication and reset *)

Section SessionClaims.
Context `{Platform}.

Lemma mapGet_mapDelete_eq {V} (k : Z) (m : list (Z * V)) :
  mapGet k (mapDelete k m) = None.
Proof.
  induction m as [|[k' v'] m IH]; simpl; [reflexivity |].
  destruct (Z.eqb k k') eqn:Hk; simpl; [exact IH | now rewrite Hk].
Qed.

(** C1, as the code has it.  Whatever the stream, the key registry holds
    the key (name and canonical arguments) of every tool call reported so
    far, and each of the three emitting paths returns the registry with the
    key already entered together with the part.  An inline call without a
    declared index whose key is in the registry is not reported, so a call
    that either channel has reported is not reported again by such an inline
    call.  The structured channel never consults the registry: it reports
    once per index, skipping completed indices, and a pending call that is
    ready is reported whatever the registries hold.  An inline call with a
    declared index is held back by its (name, index) entry alone: when its
    arguments parse it is reported exactly when that entry is not yet in the
    id registry, whether or not its key is in the key registry. *)
Theorem dedup_registry_policy :
  (forall (st : Provider) (buffer : string) (chunks : list string),
     keysCover (snd (processChunks st buffer chunks))
               (fst (processChunks st buffer chunks)))
  /\ (forall (st : Provider) (call : TextToolActive) (argText : string),
        keysCover (snd (fst (emitTextToolCallIfValid st call argText)))
                  (fst (fst (emitTextToolCallIfValid st call argText))))
  /\ (forall (st : Provider) (idx : Z),
        keysCover (snd (tryEmitBufferedToolCall st idx))
                  (fst (tryEmitBufferedToolCall st idx)))
  /\ (forall (st : Provider) (throwOnInvalid : bool),
        keysCover (snd (fst (flushToolCallBuffers st throwOnInvalid)))
                  (fst (fst (flushToolCallBuffers st throwOnInvalid))))
  /\ (forall (st : Provider) (buffer : string) (chunks : list string)
             (id : CallId) (name : string) (v v' : JsonValue)
             (call : TextToolActive) (argText : string),
        In (LanguageModelToolCallPart id name v) (snd (processChunks st buffer chunks)) ->
        tta_index call = None ->
        default "unknown_tool" (tta_name call) = name ->
        tryParseJSONObject argText = Some v' ->
        JSON_stringify v' = JSON_stringify v ->
        emitTextToolCallIfValid (fst (processChunks st buffer chunks)) call argText
        = (fst (processChunks st buffer chunks), [], false))
  /\ (forall (st : Provider) (tc : ToolCallFragment),
        default 0%Z (tc_index tc) ∈ _completedToolCallIndices st ->
        accumulateToolCall st tc = (st, []))
  /\ (forall (st : Provider) (idx : Z) (p : Part),
        In p (snd (tryEmitBufferedToolCall st idx)) ->
        idx ∈ _completedToolCallIndices (fst (tryEmitBufferedToolCall st idx))
        /\ mapGet idx (_toolCallBuffers (fst (tryEmitBufferedToolCall st idx))) = None)
  /\ (forall (st : Provider) (idx : Z) (buf : ToolCallBuffer) (name : string)
             (v : JsonValue),
        mapGet idx (_toolCallBuffers st) = Some buf ->
        buf_name buf = Some name -> isEmpty name = false ->
        tryParseJSONObject (buf_args buf) = Some v ->
        snd (tryEmitBufferedToolCall st idx)
        = [LanguageModelToolCallPart (callIdOf buf) name v])
  /\ (forall (st : Provider) (call : TextToolActive) (argText : string)
             (i : JsNumber),
        tta_index call = Some i ->
        toolCallKey (default "unknown_tool" (tta_name call)) (Number_toString i)
          ∈ _emittedTextToolCallIds st ->
        emitTextToolCallIfValid st call argText = (st, [], false))
  /\ (forall (st : Provider) (call : TextToolActive) (argText : string)
             (i : JsNumber) (v : JsonValue),
        tta_index call = Some i ->
        tryParseJSONObject argText = Some v ->
        let name := default "unknown_tool" (tta_name call) in
        let idKey := toolCallKey name (Number_toString i) in
        idKey ∉ _emittedTextToolCallIds st ->
        emitTextToolCallIfValid st call argText
        = (set_emittedTextToolCallKeys
             ({[toolCallKey name (JSON_stringify v)]} ∪ _emittedTextToolCallKeys st)
             (set_emittedTextToolCallIds ({[idKey]} ∪ _emittedTextToolCallIds st) st),
           [LanguageModelToolCallPart (FreshId "tct_") name v], true)).
Proof.
  repeat apply conj.
  - intros st buffer chunks. apply processChunks_registers.
  - intros st call argText. apply emitTextToolCallIfValid_registers.
  - intros st idx. apply tryEmitBufferedToolCall_registers.
  - intros st throwOnInvalid. apply flushToolCallBuffers_registers.
  - intros st buffer chunks id name v v' call argText Hin Hi Hn Hp Hs.
    apply (emitTextToolCallIfValid_known _ _ _ v' Hp Hi).
    rewrite Hn, Hs.
    apply (processChunks_registers chunks st buffer) in Hin. exact Hin.
  - intros st tc. apply accumulateToolCall_completed.
  - intros st idx p. unfold tryEmitBufferedToolCall.
    destruct (mapGet idx (_toolCallBuffers st)) as [buf|]; [|intros []].
    destruct (negb (truthy (buf_name buf))); [intros [] |].
    destruct (tryParseJSONObject (buf_args buf)) as [v|]; [|intros []].
    intros _. cbn. split; [set_solver | apply mapGet_mapDelete_eq].
  - intros st idx buf name v Hg Hn He Hp.
    now rewrite (tryEmitBufferedToolCall_ready st idx buf name v Hg Hn He Hp).
  - intros st call argText i Hi Hk. unfold emitTextToolCallIfValid.
    destruct (tryParseJSONObject argText) as [v|]; [|reflexivity].
    rewrite Hi. now rewrite bool_decide_eq_true_2 by exact Hk.
  - intros st call argText i v Hi Hp name idKey Hk. unfold emitTextToolCallIfValid.
    rewrite Hp, Hi. fold name. fold idKey.
    now rewrite bool_decide_eq_false_2 by exact Hk.
Qed.


(** C5 at a failing input.  One pass of the tool-call pattern removes the
    inner end marker and leaves the text around it, which reads as an end
    marker again: the text part reported is the end marker itself. *)
Lemma nested_token_survives :
  stripControlTokens ("<|tool_call" +:+ END +:+ "_end|>") = END
  /\ snd (fst (processTextContent newProvider ("<|tool_call" +:+ END +:+ "_end|>")))
     = [LanguageModelTextPart END].
Proof. split; vm_compute; reflexivity. Qed.

End SessionClaims.

(** ** Runs on the reference platform *)

#[local] Existing Instance RefJson.platform.

(** C1 refuted as stated: the same call, name [foo] and arguments [{}],
    arrives first inline and then as a structured fragment, and is
    reported twice. *)
Lemma both_channels_report_twice :
  let '(st1, parts1, _) :=
    processDelta newProvider (contentDelta (BEGIN +:+ "foo" +:+ ARG_BEGIN +:+ "{}" +:+ END)) in
  let '(st2, parts2, _) :=
    processDelta st1 (toolCallDelta (Some [namedFragment (Some 0%Z) (Some "foo") "{}"]) None) in
  parts1 ++ parts2
  = [LanguageModelToolCallPart (FreshId "tct_") "foo" (RefJson.JObject []);
     LanguageModelToolCallPart (FreshId "call_") "foo" (RefJson.JObject [])].
Proof. vm_compute. reflexivity. Qed.

(** C2 refuted as stated: on the normal-stop marker a pending call whose
    argument text is incomplete makes [processDelta] throw. *)
Lemma normal_stop_throws :
  snd (processDelta newProvider
         (toolCallDelta
            (Some [namedFragment (Some 0%Z) (Some "search") ("{" +:+ quoted "q" +:+ ":")])
            (Some "stop")))
  = Threw invalidToolCallMessage.
Proof. vm_compute. reflexivity. Qed.


(** C3 at a failing input.  The text of scenario C in one chunk gives the
    tool call and the text after it; cut after seven characters, inside
    the begin marker, it gives two text parts and no tool call. *)
Lemma marker_split_changes_events :
  snd (fst (processTextContent newProvider scenarioC))
  = [LanguageModelToolCallPart (FreshId "tct_") "foo"
       (RefJson.JObject [("x", RefJson.JInt 1)]);
     LanguageModelTextPart " done"]
  /\ (let '(st1, parts1, _) := processTextContent newProvider (take 7 scenarioC) in
      let '(_, parts2, _) := processTextContent st1 (drop 7 scenarioC) in
      parts1 ++ parts2)
     = [LanguageModelTextPart "<|tool_";
        LanguageModelTextPart ("call_begin|>foo{" +:+ quoted "x" +:+ ":1} done")].
Proof. split; vm_compute; reflexivity. Qed.



Lemma inline_call_across_two_chunks_witness :
  tryParseJSONObject ("{" +:+ quoted "x" +:+ ":") = None
  /\ tryParseJSONObject ("{" +:+ quoted "x" +:+ ":1}")
     = Some (RefJson.JObject [("x", RefJson.JInt 1)])
  /\ (let '(st1, parts1, _) :=
        processTextContent newProvider
          (BEGIN +:+ "foo" +:+ ARG_BEGIN +:+ ("{" +:+ quoted "x" +:+ ":")) in
      let '(st2, parts2, _) := processTextContent st1 ("1}" +:+ END +:+ " done") in
      parts1 = []
      /\ parts2 = [LanguageModelToolCallPart (FreshId "tct_") "foo"
                     (RefJson.JObject [("x", RefJson.JInt 1)]);
                   LanguageModelTextPart " done"]
      /\ _textToolActive st2 = None).
Proof.
  assert (H1 : tryParseJSONObject ("{" +:+ quoted "x" +:+ ":") = None)
    by (vm_compute; reflexivity).
  assert (H2 : tryParseJSONObject ("{" +:+ quoted "x" +:+ ":1}")
               = Some (RefJson.JObject [("x", RefJson.JInt 1)]))
    by (vm_compute; reflexivity).
  split; [exact H1 | split; [exact H2 |]].
  exact (inline_call_across_two_chunks (H:=RefJson.platform) _ H1 H2).
Defined.

Lemma malformed_inline_call_dropped_witness :
  processTextContent newProvider
    (BEGIN +:+ "bar" +:+ ARG_BEGIN +:+ "not-json" +:+ END +:+ " next")
  = processTextContent newProvider " next"
  /\ processTextContent newProvider (BEGIN +:+ "bar" +:+ ARG_BEGIN +:+ "not-json" +:+ END)
     = (newProvider, [], {| emittedText := false; emittedAny := false |}).
Proof.
  apply (malformed_inline_call_dropped newProvider "bar" "not-json" " next");
    vm_compute; reflexivity.
Defined.

Lemma structured_two_fragment_assembly_witness :
  let '(st1, parts1, _) :=
    processDelta newProvider
      (toolCallDelta (Some [namedFragment None (Some "search") ("{" +:+ quoted "q" +:+ ":")])
                     None) in
  let '(st2, parts2, _) :=
    processDelta st1
      (toolCallDelta (Some [namedFragment (Some 0%Z) None (quoted "x" +:+ "}")]) None) in
  let '(st3, parts3, r3) := processDelta st2 (toolCallDelta None (Some "tool_calls")) in
  parts1 = []
  /\ parts2 = [LanguageModelToolCallPart (FreshId "call_") "search"
                 (RefJson.JObject [("q", RefJson.JString "x")])]
  /\ parts3 = [] /\ r3 = Returned false
  /\ (0%Z ∈ _completedToolCallIndices st3)
  /\ _toolCallBuffers st3 = []
  /\ forall tc, default 0%Z (tc_index tc) = 0%Z -> accumulateToolCall st3 tc = (st3, []).
Proof.
  apply (structured_two_fragment_assembly (H:=RefJson.platform)
           (RefJson.JObject [("q", RefJson.JString "x")]) None (Some 0%Z));
    vm_compute; reflexivity.
Defined.

(** A fragment without a name whose arguments already parse: nothing is
    reported by the accumulation, and the flush reports it as
    [unknown_tool]. *)
Lemma nameless_call_only_flushed_witness :
  let st := fst (accumulateToolCall newProvider (namedFragment None None "{}")) in
  snd (accumulateToolCall newProvider (namedFragment None None "{}")) = []
  /\ In (LanguageModelToolCallPart (FreshId "call_") "unknown_tool" (RefJson.JObject []))
        (snd (fst (flushToolCallBuffers st false))).
Proof.
  destruct nameless_call_only_flushed as (_ & Hacc & Hflush).
  split.
  - apply (Hacc newProvider (namedFragment None None "{}"));
      [apply not_elem_of_empty | reflexivity | reflexivity].
  - apply (Hflush _ false 0%Z
             {| buf_id := None; buf_name := None; buf_args := "{}" |}
             (RefJson.JObject []));
      [left; reflexivity | reflexivity | reflexivity | reflexivity].
Defined.

(** After a structured call [foo] with arguments [{}] was reported, the
    same call met inline without a declared index is not reported. *)
Lemma dedup_registry_policy_witness :
  let st := fst (processChunks newProvider "" [toolCallLine "foo" "{}"]) in
  snd (processChunks newProvider "" [toolCallLine "foo" "{}"])
  = [LanguageModelToolCallPart (FreshId "call_") "foo" (RefJson.JObject [])]
  /\ emitTextToolCallIfValid st (headerCall "foo") "{}" = (st, [], false).
Proof.
  assert (Hp : snd (processChunks newProvider "" [toolCallLine "foo" "{}"])
               = [LanguageModelToolCallPart (FreshId "call_") "foo" (RefJson.JObject [])])
    by (vm_compute; reflexivity).
  split; [exact Hp |].
  destruct dedup_registry_policy as (_ & _ & _ & _ & Hdedup & _).
  apply (Hdedup newProvider "" [toolCallLine "foo" "{}"]
           (FreshId "call_") "foo" (RefJson.JObject []) (RefJson.JObject []));
    [rewrite Hp; left; reflexivity | reflexivity | reflexivity | reflexivity | reflexivity].
Defined.

(** ** The line framing of the read loop *)

Section Framing.
Context `{Platform}.

Lemma splitLines_nonempty (s : string) : splitLines s <> [].
Proof.
  induction s as [|c s IH]; simpl; [discriminate |].
  destruct (Ascii.eqb c "010"); [discriminate |].
  destruct (splitLines s); [contradiction | discriminate].
Qed.

(** Splitting a concatenation: the complete lines of the first text, then
    the lines of its unfinished last line followed by the second text. *)
Lemma splitLines_app (x y : string) :
  splitLines (x +:+ y)
  = removelast (splitLines x) ++ splitLines (List.last (splitLines x) "" +:+ y).
Proof.
  induction x as [|c x IH]; [reflexivity |].
  rewrite app_cons. simpl splitLines at 1 2 3.
  destruct (Ascii.eqb c "010") eqn:Hc.
  - rewrite IH. pose proof (splitLines_nonempty x) as Hne.
    destruct (splitLines x) as [|l ls]; [contradiction | reflexivity].
  - rewrite IH. pose proof (splitLines_nonempty x) as Hne.
    destruct (splitLines x) as [|l0 [|l1 ls]]; [contradiction | |].
    + cbn [removelast List.last app]. rewrite app_cons.
      simpl splitLines at 2. rewrite Hc. reflexivity.
    + cbn [removelast List.last app].
      destruct (splitLines _) as [|m ms]; reflexivity.
Qed.

Lemma processLines_app (l1 l2 : list string) (st : Provider) :
  processLines st (l1 ++ l2)
  = let '(st1, parts1) := processLines st l1 in
    let '(st2, parts2) := processLines st1 l2 in
    (st2, parts1 ++ parts2).
Proof.
  revert st; induction l1 as [|l l1 IH]; intros st; simpl.
  - destruct (processLines st l2); reflexivity.
  - destruct (processLine st l) as [st1 ps1]. rewrite IH.
    destruct (processLines st1 l1) as [st2 ps2].
    destruct (processLines st2 l2) as [st3 ps3].
    now rewrite app_assoc.
Qed.

Lemma last_app_ne {A} (l1 l2 : list A) (d : A) :
  l2 <> [] -> List.last (l1 ++ l2) d = List.last l2 d.
Proof.
  intros Hne. induction l1 as [|x l1 IH]; [reflexivity |].
  simpl. destruct (l1 ++ l2) eqn:He; [|exact IH].
  apply app_eq_nil in He as [_ He]. contradiction.
Qed.

(** Two successive reads give what one read of both texts would give:
    the provider, the line buffer and the parts reported. *)
Lemma processChunk_app (st : Provider) (buffer a b : string) :
  (let '(st1, buffer1, parts1) := processChunk st buffer a in
   let '(st2, buffer2, parts2) := processChunk st1 buffer1 b in
   (st2, buffer2, parts1 ++ parts2))
  = processChunk st buffer (a +:+ b).
Proof.
  unfold processChunk.
  rewrite <- (app_assoc_str buffer a b), (splitLines_app (buffer +:+ a) b).
  rewrite removelast_app by apply splitLines_nonempty.
  rewrite last_app_ne by apply splitLines_nonempty.
  rewrite processLines_app.
  destruct (processLines st (removelast (splitLines (buffer +:+ a)))) as [st1 ps1].
  destruct (processLines st1 _) as [st2 ps2].
  reflexivity.
Qed.

Lemma processChunks_merge (st : Provider) (buffer a b : string)
    (rest : list string) :
  processChunks st buffer (a :: b :: rest)
  = processChunks st buffer ((a +:+ b) :: rest).
Proof.
  cbn [processChunks].
  rewrite <- (processChunk_app st buffer a b).
  destruct (processChunk st buffer a) as [[st1 buffer1] ps1].
  destruct (processChunk st1 buffer1 b) as [[st2 buffer2] ps2].
  destruct (processChunks st2 buffer2 rest) as [st3 ps3].
  now rewrite app_assoc.
Qed.

(** X1.  The events of a stream do not depend on how the transport cuts
    it into chunks: reading the chunks one by one reports the same parts
    and leaves the same provider as reading their concatenation at once. *)
Theorem processChunks_rechunk (st : Provider) (buffer chunk : string)
    (chunks : list string) :
  processChunks st buffer (chunk :: chunks)
  = processChunks st buffer [chunk +:+ joinChunks chunks].
Proof.
  revert chunk; induction chunks as [|b chunks IH]; intros chunk.
  - cbn [joinChunks fold_right]. now rewrite app_empty_r.
  - rewrite processChunks_merge, IH.
    cbn [joinChunks fold_right]. now rewrite app_assoc_str.
Qed.

Lemma splitLines_single (s : string) :
  indexOf newline s = None -> splitLines s = [s].
Proof.
  induction s as [|c s IH]; [reflexivity |].
  intros Hn. apply indexOf_none_cons in Hn as [Hp Hn].
  simpl. destruct (Ascii.eqb c "010") eqn:Hc.
  - apply Ascii.eqb_eq in Hc. subst c. discriminate Hp.
  - now rewrite (IH Hn).
Qed.

(** X2.  A chunk that brings no line end is only buffered: nothing is
    parsed or reported, and the text is taken up again, in front of the
    next chunk, when more arrives. *)
Theorem unterminated_line_is_buffered (st : Provider) (buffer chunk : string)
    (rest : list string) :
  indexOf newline (buffer +:+ chunk) = None ->
  processChunk st buffer chunk = (st, buffer +:+ chunk, [])
  /\ processChunks st buffer (chunk :: rest)
     = processChunks st (buffer +:+ chunk) rest.
Proof.
  intros Hn.
  assert (Hc : processChunk st buffer chunk = (st, buffer +:+ chunk, [])).
  { unfold processChunk. now rewrite (splitLines_single _ Hn). }
  split; [exact Hc |].
  cbn [processChunks]. rewrite Hc.
  destruct (processChunks st (buffer +:+ chunk) rest). reflexivity.
Qed.

(** X3.  Lines that do not start with the payload prefix, and payload
    lines that are neither the end-of-stream payload nor parseable JSON,
    are dropped: they report nothing and leave the provider as it was. *)
Theorem noise_lines_are_dropped (st : Provider) (lines : list string) :
  Forall (fun line =>
            startsWith "data: " line = false
            \/ (String.eqb (drop 6 line) "[DONE]" = false
                /\ JSON_parse (drop 6 line) = None)) lines ->
  processLines st lines = (st, []).
Proof.
  induction 1 as [|line lines Hl _ IH]; [reflexivity |].
  cbn [processLines]. unfold processLine at 1.
  destruct Hl as [Hp | [Hd Hj]].
  - rewrite Hp. cbn [negb]. now rewrite IH.
  - destruct (startsWith "data: " line); cbn [negb]; [|now rewrite IH].
    rewrite Hd, Hj. now rewrite IH.
Qed.

End Framing.

(** ** What each channel leaves alone *)

Section Frames.
Context `{Platform}.

Lemma keepsStructured_refl (st : Provider) : keepsStructured st st.
Proof. repeat split. Qed.

Lemma keepsStructured_trans (st1 st2 st3 : Provider) :
  keepsStructured st1 st2 -> keepsStructured st2 st3 -> keepsStructured st1 st3.
Proof.
  unfold keepsStructured. intros (a1 & b1 & c1 & d1 & e1) (a2 & b2 & c2 & d2 & e2).
  repeat split; congruence.
Qed.

Lemma emitTextToolCallIfValid_keepsStructured (st : Provider)
    (call : TextToolActive) (argText : string) :
  keepsStructured st (fst (fst (emitTextToolCallIfValid st call argText))).
Proof.
  unfold emitTextToolCallIfValid.
  destruct (tryParseJSONObject argText); [|apply keepsStructured_refl].
  destruct (tta_index call); destruct (bool_decide _); repeat split.
Qed.

(** An attempt to emit between two changes of the active call. *)
Lemma emit_between_keepsStructured (st : Provider) (a b : option TextToolActive)
    (call : TextToolActive) (argText : string) :
  keepsStructured st
    (set_textToolActive b
       (fst (fst (emitTextToolCallIfValid (set_textToolActive a st) call argText)))).
Proof.
  pose proof (emitTextToolCallIfValid_keepsStructured
                (set_textToolActive a st) call argText) as He.
  destruct (emitTextToolCallIfValid _ _ _) as [[st1 ps] did].
  cbn [fst] in *. unfold keepsStructured in *. cbn in *. exact He.
Qed.

Lemma scanStep_keepsStructured (c : Scan) :
  keepsStructured (sc_provider c) (sc_provider (snd (scanStep c))).
Proof.
  unfold scanStep.
  destruct (_textToolActive (sc_provider c)) as [active|].
  - destruct (indexOf END (sc_data c)) as [e2|].
    + destruct (tta_emitted _); [repeat split |].
      match goal with
      | |- context [emitTextToolCallIfValid (set_textToolActive ?a ?s) ?call ?arg] =>
          pose proof (emit_between_keepsStructured s a None call arg) as Hs;
          destruct (emitTextToolCallIfValid (set_textToolActive a s) call arg)
            as [[st1 parts] did]; exact Hs
      end.
    + destruct (tta_emitted _); [repeat split |].
      match goal with
      | |- context [emitTextToolCallIfValid (set_textToolActive ?a ?s) ?call ?arg] =>
          pose proof (emit_between_keepsStructured s a None call arg) as Hs;
          destruct (emitTextToolCallIfValid (set_textToolActive a s) call arg)
            as [[st1 parts] did]
      end.
      destruct did; exact Hs.
  - destruct (indexOf BEGIN (sc_data c)) as [b|].
    + destruct (indexOf ARG_BEGIN _) as [ai|], (indexOf END _) as [ei|];
        try destruct (ai <? ei); try (repeat split; fail);
        match goal with
        | |- context [emitTextToolCallIfValid (set_textToolActive ?a ?s) ?call ?arg] =>
            pose proof (emit_between_keepsStructured s a None call arg) as Hs;
            destruct (emitTextToolCallIfValid (set_textToolActive a s) call arg)
              as [[st1 parts] did]; exact Hs
        end.
    + destruct (0 <? _); repeat split.
Qed.

Lemma scanLoop_keepsStructured (fuel : nat) (c : Scan) :
  keepsStructured (sc_provider c) (sc_provider (scanLoop fuel c)).
Proof.
  revert c; induction fuel as [|fuel IH]; intros c; simpl;
    [apply keepsStructured_refl |].
  destruct (isEmpty (sc_data c)); [apply keepsStructured_refl |].
  pose proof (scanStep_keepsStructured c) as Hs.
  destruct (scanStep c) as [[|] c']; simpl in Hs; [|exact Hs].
  exact (keepsStructured_trans _ _ _ Hs (IH c')).
Qed.

Lemma finishScan_keepsStructured (st : Provider) (input : string) :
  keepsStructured st (fst (fst (processTextContent st input))).
Proof.
  unfold processTextContent, finishScan. cbn [fst].
  match goal with |- context [scanLoop ?f ?c] =>
    pose proof (scanLoop_keepsStructured f c) as Hs;
    destruct (scanLoop f c) as [st' data vo ea ps]
  end.
  exact Hs.
Qed.

(** X4.  The inline multiplexer never touches the structured channel: a
    text fragment leaves the pending buffers, the completed indices, the
    two text flags and the output counter as they were. *)
Theorem processTextContent_keepsStructured (st : Provider) (input : string) :
  keepsStructured st (fst (fst (processTextContent st input))).
Proof. apply finishScan_keepsStructured. Qed.

Lemma keepsInline_refl (st : Provider) : keepsInline st st.
Proof. repeat split. Qed.

Lemma keepsInline_trans (st1 st2 st3 : Provider) :
  keepsInline st1 st2 -> keepsInline st2 st3 -> keepsInline st1 st3.
Proof.
  unfold keepsInline. intros (a1 & b1 & c1 & d1 & e1) (a2 & b2 & c2 & d2 & e2).
  repeat split; congruence.
Qed.

Lemma tryEmitBufferedToolCall_keepsInline (st : Provider) (idx : Z) :
  keepsInline st (fst (tryEmitBufferedToolCall st idx))
  /\ _outputTokenCount (fst (tryEmitBufferedToolCall st idx)) = _outputTokenCount st.
Proof.
  unfold tryEmitBufferedToolCall.
  destruct (mapGet idx (_toolCallBuffers st)); [|repeat split].
  destruct (negb _); [repeat split |].
  destruct (tryParseJSONObject _); repeat split.
Qed.

Lemma accumulateToolCall_keepsInline (st : Provider) (tc : ToolCallFragment) :
  keepsInline st (fst (accumulateToolCall st tc)).
Proof.
  unfold accumulateToolCall.
  destruct (bool_decide _); [apply keepsInline_refl |].
  match goal with |- context [tryEmitBufferedToolCall ?s ?i] =>
    destruct (tryEmitBufferedToolCall_keepsInline s i) as [Hk _];
    apply (keepsInline_trans _ s); [repeat split | exact Hk]
  end.
Qed.

Lemma flushEntries_keepsInline (throwOnInvalid : bool)
    (entries : list (Z * ToolCallBuffer)) (st : Provider) :
  keepsInline st (fst (fst (flushEntries throwOnInvalid entries st))).
Proof.
  revert st; induction entries as [|[idx buf] rest IH]; intros st; simpl;
    [apply keepsInline_refl |].
  destruct (tryParseJSONObject (buf_args buf)).
  - match goal with |- context [flushEntries throwOnInvalid rest ?s] =>
      pose proof (IH s) as Hr;
      destruct (flushEntries throwOnInvalid rest s) as [[st' ps] o]
    end.
    cbn [fst] in *. eapply keepsInline_trans; [|exact Hr]. repeat split.
  - destruct throwOnInvalid; [apply keepsInline_refl | apply IH].
Qed.

(** X5.  The structured channel never touches the inline one: neither
    the accumulation of fragments nor a flush changes the parser buffer,
    the active inline call, the (name, index) registry or the text flags. *)
Theorem structured_keepsInline :
  (forall (tcs : list ToolCallFragment) (st : Provider),
     keepsInline st (fst (accumulateToolCalls st tcs)))
  /\ (forall (st : Provider) (throwOnInvalid : bool),
        keepsInline st (fst (fst (flushToolCallBuffers st throwOnInvalid)))).
Proof.
  split.
  - induction tcs as [|tc tcs IH]; intros st; simpl; [apply keepsInline_refl |].
    pose proof (accumulateToolCall_keepsInline st tc) as H1.
    destruct (accumulateToolCall st tc) as [st1 ps1].
    pose proof (IH st1) as H2.
    destruct (accumulateToolCalls st1 tcs) as [st2 ps2].
    exact (keepsInline_trans _ _ _ H1 H2).
  - intros st throwOnInvalid. rewrite flushToolCallBuffers_eq.
    apply flushEntries_keepsInline.
Qed.

Lemma ceilDiv4_bounds (n : nat) :
  (N.of_nat n <= 4 * ceilDiv4 n < N.of_nat n + 4)%N.
Proof.
  unfold ceilDiv4.
  pose proof (N.div_mod (N.of_nat n + 3) 4 ltac:(discriminate)) as Hd.
  pose proof (N.mod_upper_bound (N.of_nat n + 3) 4 ltac:(discriminate)) as Hm.
  revert Hd Hm.
  generalize ((N.of_nat n + 3) `div` 4)%N, ((N.of_nat n + 3) `mod` 4)%N.
  intros q r Hd Hm. lia.
Qed.

(** X6.  The output counter: a non-empty text content adds the rounded-up
    quarter of its length, and so does the argument text of a structured
    fragment whose index is not completed; a fragment for a completed index
    adds nothing.  The quarter is rounded up, so four times the count is at
    least the length and less than the length plus four. *)
Theorem outputTokenCount_accounting :
  (forall (st : Provider) (content : string) (emitted : bool),
     isEmpty content = false ->
     _outputTokenCount (fst (fst (processContent st (Some content) emitted)))
     = (_outputTokenCount st + ceilDiv4 (len content))%N)
  /\ (forall (st : Provider) (tc : ToolCallFragment),
        default 0%Z (tc_index tc) ∉ _completedToolCallIndices st ->
        _outputTokenCount (fst (accumulateToolCall st tc))
        = (_outputTokenCount st
           + match tc_function tc ≫= fn_arguments with
             | Some a => ceilDiv4 (len a)
             | None => 0
             end)%N)
  /\ (forall (st : Provider) (tc : ToolCallFragment),
        default 0%Z (tc_index tc) ∈ _completedToolCallIndices st ->
        _outputTokenCount (fst (accumulateToolCall st tc)) = _outputTokenCount st)
  /\ (forall n : nat, (N.of_nat n <= 4 * ceilDiv4 n < N.of_nat n + 4)%N).
Proof.
  split; [|split; [|split]].
  - intros st content emitted He. unfold processContent. rewrite He.
    destruct (finishScan_keepsStructured st content) as (_ & _ & _ & _ & Hc).
    destruct (processTextContent st content) as [[st' parts] res].
    cbn [fst] in *. destruct (emittedText res); cbn; now rewrite Hc.
  - intros st tc Hc. unfold accumulateToolCall.
    rewrite bool_decide_eq_false_2 by exact Hc.
    match goal with |- context [tryEmitBufferedToolCall ?s ?i] =>
      destruct (tryEmitBufferedToolCall_keepsInline s i) as [_ Ho]; rewrite Ho
    end.
    cbn. destruct (tc_function tc ≫= fn_arguments); [reflexivity | lia].
  - intros st tc Hc. unfold accumulateToolCall.
    now rewrite bool_decide_eq_true_2 by exact Hc.
  - apply ceilDiv4_bounds.
Qed.

End Frames.

(** ** The [Map] of pending calls *)

Section MapFacts.
Context {V : Type}.
Implicit Types (m : list (Z * V)) (k j : Z) (v : V).

Lemma mapGet_None k m : mapGet k m = None <-> k ∉ m.*1.
Proof.
  induction m as [|[k' v'] m IH]; simpl.
  - split; [intros _; apply not_elem_of_nil | reflexivity].
  - rewrite not_elem_of_cons. destruct (Z.eqb k k') eqn:Hk.
    + apply Z.eqb_eq in Hk. split; [discriminate | intros [Hne _]; contradiction].
    + apply Z.eqb_neq in Hk. rewrite IH. tauto.
Qed.

Lemma mapGet_mapSet_ne k j v m :
  j <> k -> mapGet j (mapSet k v m) = mapGet j m.
Proof.
  intros Hne. induction m as [|[k' v'] m IH]; simpl.
  - now apply Z.eqb_neq in Hne as ->.
  - destruct (Z.eqb k k') eqn:Hk; simpl.
    + apply Z.eqb_eq in Hk. subst k'. now apply Z.eqb_neq in Hne as ->.
    + now rewrite IH.
Qed.

Lemma mapGet_mapDelete_ne k j m :
  j <> k -> mapGet j (mapDelete k m) = mapGet j m.
Proof.
  intros Hne. induction m as [|[k' v'] m IH]; simpl; [reflexivity |].
  destruct (Z.eqb k k') eqn:Hk; simpl.
  - apply Z.eqb_eq in Hk. subst k'. apply Z.eqb_neq in Hne as ->. exact IH.
  - now rewrite IH.
Qed.

Lemma mapGet_mapDelete_None k j m :
  mapGet j m = None -> mapGet j (mapDelete k m) = None.
Proof.
  intros Hn. destruct (Z.eq_dec j k) as [-> | Hne].
  - induction m as [|[k' v'] m IH]; simpl; [reflexivity |].
    simpl in Hn. destruct (Z.eqb k k') eqn:Hk; [discriminate |].
    simpl. rewrite Hk. now apply IH.
  - now rewrite mapGet_mapDelete_ne.
Qed.

Lemma elem_of_mapSet_keys k j v m :
  j ∈ (mapSet k v m).*1 <-> j = k \/ j ∈ m.*1.
Proof.
  induction m as [|[k' v'] m IH]; simpl.
  - rewrite list_elem_of_singleton. split; [tauto |].
    intros [Hj | Hj]; [exact Hj | now apply elem_of_nil in Hj].
  - destruct (Z.eqb k k') eqn:Hk; simpl.
    + apply Z.eqb_eq in Hk. subst k'. rewrite !elem_of_cons. tauto.
    + rewrite !elem_of_cons, IH. tauto.
Qed.

Lemma NoDup_mapSet k v m : NoDup m.*1 -> NoDup (mapSet k v m).*1.
Proof.
  induction m as [|[k' v'] m IH]; simpl; intros Hnd.
  - apply NoDup_singleton.
  - apply NoDup_cons in Hnd as [Hni Hnd].
    destruct (Z.eqb k k') eqn:Hk; simpl.
    + apply Z.eqb_eq in Hk. subst k'. now apply NoDup_cons.
    + apply Z.eqb_neq in Hk. apply NoDup_cons. split; [|now apply IH].
      rewrite elem_of_mapSet_keys. intros [Heq | Hin]; [now subst | contradiction].
Qed.

Lemma elem_of_mapDelete_keys k j m : j ∈ (mapDelete k m).*1 -> j ∈ m.*1.
Proof.
  induction m as [|[k' v'] m IH]; simpl; [trivial |].
  destruct (negb (Z.eqb k k')); simpl; rewrite ?elem_of_cons; tauto.
Qed.

Lemma NoDup_mapDelete k m : NoDup m.*1 -> NoDup (mapDelete k m).*1.
Proof.
  induction m as [|[k' v'] m IH]; simpl; intros Hnd; [exact Hnd |].
  apply NoDup_cons in Hnd as [Hni Hnd].
  destruct (negb (Z.eqb k k')); simpl; [|now apply IH].
  apply NoDup_cons. split; [|now apply IH].
  intros Hin. now apply elem_of_mapDelete_keys in Hin.
Qed.

Lemma mapDelete_absent k m : k ∉ m.*1 -> mapDelete k m = m.
Proof.
  induction m as [|[k' v'] m IH]; simpl; [reflexivity |].
  rewrite not_elem_of_cons. intros [Hne Hni].
  apply Z.eqb_neq in Hne as ->. simpl. now rewrite IH.
Qed.

Lemma mapDelete_middle k v (pre rest : list (Z * V)) :
  NoDup (pre ++ (k, v) :: rest).*1 ->
  mapDelete k (pre ++ (k, v) :: rest) = pre ++ rest.
Proof.
  rewrite fmap_app, fmap_cons. simpl. intros Hnd.
  apply NoDup_app in Hnd as (Hp & Hd & Hr).
  apply NoDup_cons in Hr as [Hkr Hr].
  unfold mapDelete. rewrite List.filter_app. simpl. rewrite Z.eqb_refl. simpl.
  f_equal.
  - apply (mapDelete_absent k pre). intros Hin. apply (Hd k Hin), elem_of_cons. now left.
  - now apply (mapDelete_absent k rest).
Qed.

End MapFacts.

(** ** What a request never undoes *)

(** The inline loop changes the provider only by setting the active call
    and the parser buffer and by attempts to emit: a preorder that these
    three respect holds from the start to the end of [processTextContent]. *)
Section InlineRule.
Context `{Platform}.
Variable R : Provider -> Provider -> Prop.
Hypothesis R_refl : forall st, R st st.
Hypothesis R_trans : forall st1 st2 st3, R st1 st2 -> R st2 st3 -> R st1 st3.
Hypothesis R_active : forall st a, R st (set_textToolActive a st).
Hypothesis R_buffer : forall st b, R st (set_textToolParserBuffer b st).
Hypothesis R_emit : forall st call argText,
  R st (fst (fst (emitTextToolCallIfValid st call argText))).

Lemma emit_between_rule (st : Provider) (a b : option TextToolActive)
    (call : TextToolActive) (argText : string) :
  R st (set_textToolActive b
          (fst (fst (emitTextToolCallIfValid (set_textToolActive a st) call argText)))).
Proof.
  eapply R_trans; [apply (R_active st a) |].
  eapply R_trans; [apply R_emit | apply R_active].
Qed.

Lemma scanStep_rule (c : Scan) : R (sc_provider c) (sc_provider (snd (scanStep c))).
Proof.
  unfold scanStep.
  destruct (_textToolActive (sc_provider c)) as [active|].
  - destruct (indexOf END (sc_data c)) as [e2|].
    + destruct (tta_emitted _);
        [cbn; eapply R_trans; apply R_active |].
      match goal with
      | |- context [emitTextToolCallIfValid (set_textToolActive ?a ?s) ?call ?arg] =>
          pose proof (emit_between_rule s a None call arg) as Hs;
          destruct (emitTextToolCallIfValid (set_textToolActive a s) call arg)
            as [[st1 parts] did]; exact Hs
      end.
    + destruct (tta_emitted _); [cbn; apply R_active |].
      match goal with
      | |- context [emitTextToolCallIfValid (set_textToolActive ?a ?s) ?call ?arg] =>
          pose proof (R_trans _ _ _ (R_active s a)
                        (R_emit (set_textToolActive a s) call arg)) as Hs;
          destruct (emitTextToolCallIfValid (set_textToolActive a s) call arg)
            as [[st1 parts] did]
      end.
      cbn [fst snd sc_provider] in *.
      destruct did; [eapply R_trans; [exact Hs | apply R_active] | exact Hs].
  - destruct (indexOf BEGIN (sc_data c)) as [b|].
    + destruct (indexOf ARG_BEGIN _) as [ai|], (indexOf END _) as [ei|];
        try destruct (ai <? ei);
        try (cbn; (apply R_active || apply R_buffer); fail);
        match goal with
        | |- context [emitTextToolCallIfValid (set_textToolActive ?a ?s) ?call ?arg] =>
            pose proof (emit_between_rule s a None call arg) as Hs;
            destruct (emitTextToolCallIfValid (set_textToolActive a s) call arg)
              as [[st1 parts] did]; exact Hs
        end.
    + destruct (0 <? _); cbn; [apply R_buffer | apply R_refl].
Qed.

Lemma scanLoop_rule (fuel : nat) (c : Scan) :
  R (sc_provider c) (sc_provider (scanLoop fuel c)).
Proof.
  revert c; induction fuel as [|fuel IH]; intros c; simpl; [apply R_refl |].
  destruct (isEmpty (sc_data c)); [apply R_refl |].
  pose proof (scanStep_rule c) as Hs.
  destruct (scanStep c) as [[|] c']; simpl in Hs; [|exact Hs].
  exact (R_trans _ _ _ Hs (IH c')).
Qed.

Lemma processTextContent_rule (st : Provider) (input : string) :
  R st (fst (fst (processTextContent st input))).
Proof.
  unfold processTextContent, finishScan. cbn [fst].
  match goal with |- context [scanLoop ?f ?c] =>
    pose proof (scanLoop_rule f c) as Hs;
    destruct (scanLoop f c) as [st' data vo ea ps]
  end.
  cbn [sc_provider sc_data] in *.
  eapply R_trans; [exact Hs | apply R_buffer].
Qed.

End InlineRule.

Section Session.
Context `{Platform}.

Lemma advances_refl (st : Provider) : advances st st.
Proof. unfold advances. repeat split; auto; reflexivity. Qed.

Lemma advances_trans (st1 st2 st3 : Provider) :
  advances st1 st2 -> advances st2 st3 -> advances st1 st3.
Proof.
  unfold advances.
  intros (a1 & b1 & c1 & d1 & e1 & f1) (a2 & b2 & c2 & d2 & e2 & f2).
  repeat split; [set_solver | set_solver | set_solver | lia | auto | auto].
Qed.

Lemma evolves_refl (st : Provider) : evolves st st.
Proof. split; [apply advances_refl | trivial]. Qed.

Lemma evolves_trans (st1 st2 st3 : Provider) :
  evolves st1 st2 -> evolves st2 st3 -> evolves st1 st3.
Proof.
  intros [Ha1 Hp1] [Ha2 Hp2].
  split; [exact (advances_trans _ _ _ Ha1 Ha2) | auto].
Qed.

(** A step that leaves the structured channel alone and grows the two
    registries. *)
Lemma evolves_inline (st st' : Provider) :
  _toolCallBuffers st' = _toolCallBuffers st ->
  _completedToolCallIndices st' = _completedToolCallIndices st ->
  _hasEmittedAssistantText st' = _hasEmittedAssistantText st ->
  _emittedBeginToolCallsHint st' = _emittedBeginToolCallsHint st ->
  _outputTokenCount st' = _outputTokenCount st ->
  _emittedTextToolCallIds st ⊆ _emittedTextToolCallIds st' ->
  _emittedTextToolCallKeys st ⊆ _emittedTextToolCallKeys st' ->
  evolves st st'.
Proof.
  intros Hb Hc Ht Hh Ho Hi Hk. split.
  - unfold advances. rewrite Hc, Ht, Hh, Ho. repeat split; auto; reflexivity.
  - unfold pendingFresh. now rewrite Hb, Hc.
Qed.

Lemma emitTextToolCallIfValid_evolves (st : Provider) (call : TextToolActive)
    (argText : string) :
  evolves st (fst (fst (emitTextToolCallIfValid st call argText))).
Proof.
  unfold emitTextToolCallIfValid.
  destruct (tryParseJSONObject argText); [|apply evolves_refl].
  destruct (tta_index call); destruct (bool_decide _);
    try apply evolves_refl; apply evolves_inline; cbn; try reflexivity; set_solver.
Qed.

Lemma processTextContent_evolves (st : Provider) (input : string) :
  evolves st (fst (fst (processTextContent st input))).
Proof.
  apply (processTextContent_rule evolves evolves_refl evolves_trans).
  - intros s a. apply evolves_inline; reflexivity.
  - intros s b. apply evolves_inline; reflexivity.
  - apply emitTextToolCallIfValid_evolves.
Qed.

(** Reporting the pending call [idx]: its key is entered, the entry is
    deleted and the index is completed. *)
Lemma report_evolves (st : Provider) (idx : Z) (key : string) :
  evolves st
    (set_completedToolCallIndices ({[idx]} ∪ _completedToolCallIndices st)
       (set_toolCallBuffers (mapDelete idx (_toolCallBuffers st))
          (set_emittedTextToolCallKeys ({[key]} ∪ _emittedTextToolCallKeys st) st))).
Proof.
  split.
  - unfold advances. cbn. repeat split; auto; try reflexivity; set_solver.
  - intros [Hnd Hfresh]. split; cbn.
    + now apply NoDup_mapDelete.
    + intros j Hj. apply elem_of_union in Hj as [Hj | Hj].
      * apply elem_of_singleton in Hj. subst j. apply mapGet_mapDelete_eq.
      * apply mapGet_mapDelete_None, Hfresh, Hj.
Qed.

Lemma tryEmitBufferedToolCall_evolves (st : Provider) (idx : Z) :
  evolves st (fst (tryEmitBufferedToolCall st idx)).
Proof.
  unfold tryEmitBufferedToolCall.
  destruct (mapGet idx (_toolCallBuffers st)) as [buf|]; [|apply evolves_refl].
  destruct (negb _); [apply evolves_refl |].
  destruct (tryParseJSONObject _); [|apply evolves_refl].
  exact (report_evolves st idx _).
Qed.

Lemma accumulateToolCall_evolves (st : Provider) (tc : ToolCallFragment) :
  evolves st (fst (accumulateToolCall st tc)).
Proof.
  unfold accumulateToolCall.
  destruct (bool_decide _) eqn:Hc; [apply evolves_refl |].
  apply bool_decide_eq_false in Hc.
  eapply evolves_trans; [|apply tryEmitBufferedToolCall_evolves].
  split.
  - unfold advances. cbn. repeat split; auto; try reflexivity.
    destruct (tc_function tc ≫= fn_arguments); lia.
  - intros [Hnd Hfresh]. split; cbn.
    + now apply NoDup_mapSet.
    + intros j Hj. rewrite mapGet_mapSet_ne; [now apply Hfresh |].
      intros ->. contradiction.
Qed.

Lemma accumulateToolCalls_evolves (tcs : list ToolCallFragment) (st : Provider) :
  evolves st (fst (accumulateToolCalls st tcs)).
Proof.
  revert st; induction tcs as [|tc tcs IH]; intros st; simpl; [apply evolves_refl |].
  pose proof (accumulateToolCall_evolves st tc) as H1.
  destruct (accumulateToolCall st tc) as [st1 ps1].
  pose proof (IH st1) as H2.
  destruct (accumulateToolCalls st1 tcs) as [st2 ps2].
  exact (evolves_trans _ _ _ H1 H2).
Qed.

Lemma flushEntries_evolves (throwOnInvalid : bool)
    (entries : list (Z * ToolCallBuffer)) (st : Provider) :
  evolves st (fst (fst (flushEntries throwOnInvalid entries st))).
Proof.
  revert st; induction entries as [|[idx buf] rest IH]; intros st; simpl;
    [apply evolves_refl |].
  destruct (tryParseJSONObject (buf_args buf)) as [v|].
  - match goal with |- context [flushEntries throwOnInvalid rest ?s] =>
      pose proof (IH s) as Hr;
      destruct (flushEntries throwOnInvalid rest s) as [[st' ps] o]
    end.
    cbn [fst] in *. eapply evolves_trans; [|exact Hr].
    exact (report_evolves st idx _).
  - destruct throwOnInvalid; [apply evolves_refl | apply IH].
Qed.

Lemma flushActiveTextToolCall_evolves (st : Provider) :
  evolves st (fst (flushActiveTextToolCall st)).
Proof.
  unfold flushActiveTextToolCall.
  destruct (_textToolActive st) as [active|]; [|apply evolves_refl].
  destruct (tryParseJSONObject (tta_argBuffer active)); [|apply evolves_refl].
  pose proof (emitTextToolCallIfValid_evolves st active (tta_argBuffer active)) as He.
  destruct (emitTextToolCallIfValid _ _ _) as [[st1 ps] did].
  cbn [fst] in *. eapply evolves_trans; [exact He |].
  apply evolves_inline; reflexivity.
Qed.

Lemma processContent_evolves (st : Provider) (content : option string)
    (emitted : bool) :
  evolves st (fst (fst (processContent st content emitted))).
Proof.
  unfold processContent.
  destruct content as [content|]; [|apply evolves_refl].
  destruct (isEmpty content); [apply evolves_refl |].
  pose proof (processTextContent_evolves st content) as Hr.
  destruct (processTextContent st content) as [[st' parts] res].
  cbn [fst] in *. eapply evolves_trans; [exact Hr |].
  split.
  - unfold advances. destruct (emittedText res); cbn;
      repeat split; auto; try reflexivity; lia.
  - unfold pendingFresh. destruct (emittedText res); cbn; trivial.
Qed.

Lemma processToolCalls_evolves (st : Provider)
    (toolCalls : option (list ToolCallFragment)) :
  evolves st (fst (processToolCalls st toolCalls)).
Proof.
  unfold processToolCalls.
  destruct toolCalls as [toolCalls|]; [|apply evolves_refl].
  set (hint := negb _ && _ && _).
  match goal with |- context [accumulateToolCalls ?s toolCalls] =>
    pose proof (accumulateToolCalls_evolves toolCalls s) as Hr;
    destruct (accumulateToolCalls s toolCalls) as [st2 ps2]
  end.
  cbn [fst] in *. eapply evolves_trans; [|exact Hr].
  destruct hint; [|apply evolves_refl].
  split; [|unfold pendingFresh; cbn; trivial].
  unfold advances. cbn. repeat split; auto; reflexivity.
Qed.

Lemma processDelta_evolves (st : Provider) (delta : Delta) :
  evolves st (fst (fst (processDelta st delta))).
Proof.
  unfold processDelta.
  destruct (choices delta) as [|choice rest]; [apply evolves_refl |].
  assert (H1 : evolves st (fst (fst (processFragments st choice)))).
  { unfold processFragments.
    match goal with |- context [processContent st ?c ?e] =>
      pose proof (processContent_evolves st c e) as Hc;
      destruct (processContent st c e) as [[st1 ps1] e1]
    end.
    match goal with |- context [processToolCalls st1 ?t] =>
      pose proof (processToolCalls_evolves st1 t) as Ht;
      destruct (processToolCalls st1 t) as [st2 ps2]
    end.
    exact (evolves_trans _ _ _ Hc Ht). }
  destruct (processFragments st choice) as [[st1 ps1] emitted].
  destruct (isTerminal _); [|exact H1].
  pose proof (flushEntries_evolves true (_toolCallBuffers st1) st1) as H2.
  rewrite <- flushToolCallBuffers_eq in H2.
  destruct (flushToolCallBuffers st1 true) as [[st2 ps2] o].
  exact (evolves_trans _ _ _ H1 H2).
Qed.

Lemma processLine_evolves (st : Provider) (line : string) :
  evolves st (fst (processLine st line)).
Proof.
  unfold processLine.
  destruct (negb (startsWith "data: " line)); [apply evolves_refl |].
  destruct (String.eqb _ _).
  - pose proof (flushEntries_evolves false (_toolCallBuffers st) st) as H1.
    rewrite <- flushToolCallBuffers_eq in H1.
    destruct (flushToolCallBuffers st false) as [[st1 ps1] o].
    pose proof (flushActiveTextToolCall_evolves st1) as H2.
    destruct (flushActiveTextToolCall st1) as [st2 ps2].
    exact (evolves_trans _ _ _ H1 H2).
  - destruct (JSON_parse _) as [parsed|]; [|apply evolves_refl].
    pose proof (processDelta_evolves st parsed) as H1.
    destruct (processDelta st parsed) as [[st1 ps] o]. exact H1.
Qed.

Lemma processLines_evolves (lines : list string) (st : Provider) :
  evolves st (fst (processLines st lines)).
Proof.
  revert st; induction lines as [|line lines IH]; intros st; simpl;
    [apply evolves_refl |].
  pose proof (processLine_evolves st line) as H1.
  destruct (processLine st line) as [st1 ps1].
  pose proof (IH st1) as H2.
  destruct (processLines st1 lines) as [st2 ps2].
  exact (evolves_trans _ _ _ H1 H2).
Qed.

Lemma processChunks_evolves (chunks : list string) (st : Provider) (buffer : string) :
  evolves st (fst (processChunks st buffer chunks)).
Proof.
  revert st buffer; induction chunks as [|chunk chunks IH]; intros st buffer; simpl;
    [apply evolves_refl |].
  unfold processChunk.
  match goal with |- context [processLines st ?ls] =>
    pose proof (processLines_evolves ls st) as H1;
    destruct (processLines st ls) as [st1 ps1]
  end.
  match goal with |- context [processChunks st1 ?b chunks] =>
    pose proof (IH st1 b) as H2;
    destruct (processChunks st1 b chunks) as [st2 ps2]
  end.
  exact (evolves_trans _ _ _ H1 H2).
Qed.

(** X7.  Nothing is undone while a response is read: over any chunks and
    from any state, the completed indices and the two registries only grow,
    the output counter does not decrease, and the two text flags, once
    set, stay set. *)
Theorem session_only_grows (st : Provider) (buffer : string) (chunks : list string) :
  advances st (fst (processChunks st buffer chunks)).
Proof. apply processChunks_evolves. Qed.

(** X8.  Along the read loop the pending indices stay distinct and no
    completed index is pending again: a call reported for an index leaves
    no buffer behind, and later fragments for that index open none. *)
Theorem completed_never_pending (st : Provider) (buffer : string)
    (chunks : list string) :
  pendingFresh st ->
  pendingFresh (fst (processChunks st buffer chunks)).
Proof. apply processChunks_evolves. Qed.

(** What a flush leaves pending. *)
Lemma flushEntries_buffers (throwOnInvalid : bool)
    (entries pre : list (Z * ToolCallBuffer)) (st : Provider) :
  _toolCallBuffers st = pre ++ entries ->
  NoDup (pre ++ entries).*1 ->
  snd (flushEntries throwOnInvalid entries st) = Returned tt ->
  _toolCallBuffers (fst (fst (flushEntries throwOnInvalid entries st)))
  = pre ++ List.filter unparseable entries.
Proof.
  revert pre st; induction entries as [|[idx buf] rest IH]; intros pre st Hb Hnd;
    simpl; [intros _; exact Hb |].
  unfold unparseable at 1. cbn [snd].
  destruct (tryParseJSONObject (buf_args buf)) as [v|] eqn:Hp.
  - match goal with |- context [flushEntries throwOnInvalid rest ?s] =>
      pose proof (IH pre s) as Hr;
      destruct (flushEntries throwOnInvalid rest s) as [[st' ps] o]
    end.
    cbn [fst snd] in *. intros Ho. apply Hr; [| |exact Ho].
    + rewrite Hb. now apply mapDelete_middle.
    + rewrite fmap_app, fmap_cons in Hnd. rewrite fmap_app.
      apply NoDup_app in Hnd as (Hp1 & Hd & Hr1).
      apply NoDup_cons in Hr1 as [Hkr Hr1].
      apply NoDup_app. split; [exact Hp1 |]. split; [|exact Hr1].
      intros x Hx Hin. apply (Hd x Hx), elem_of_cons. now right.
  - destruct throwOnInvalid; [discriminate |].
    intros Ho.
    rewrite (IH (pre ++ [(idx, buf)]) st); [now rewrite <- app_assoc | | | exact Ho].
    + now rewrite <- app_assoc.
    + now rewrite <- app_assoc.
Qed.

(** X9.  What a flush leaves behind.  A flush that returns leaves pending
    exactly the entries whose argument text does not parse, in their
    order; the strict flush returns only when there is none, so it leaves
    no entry at all. *)
Theorem flush_leaves_unparseable (st : Provider) (throwOnInvalid : bool) :
  NoDup (_toolCallBuffers st).*1 ->
  snd (flushToolCallBuffers st throwOnInvalid) = Returned tt ->
  _toolCallBuffers (fst (fst (flushToolCallBuffers st throwOnInvalid)))
  = List.filter unparseable (_toolCallBuffers st)
  /\ (throwOnInvalid = true ->
      _toolCallBuffers (fst (fst (flushToolCallBuffers st throwOnInvalid))) = []).
Proof.
  intros Hnd Ho. rewrite flushToolCallBuffers_eq in *.
  pose proof (flushEntries_buffers throwOnInvalid (_toolCallBuffers st) [] st
                eq_refl Hnd Ho) as Hb.
  cbn [app] in Hb. split; [exact Hb |].
  intros ->. rewrite Hb.
  assert (Hall : forall idx buf, In (idx, buf) (_toolCallBuffers st) ->
                   tryParseJSONObject (buf_args buf) <> None).
  { intros idx buf Hin Hn.
    assert (He : exists msg, snd (flushEntries true (_toolCallBuffers st) st) = Threw msg)
      by (apply flushEntries_strict_throws; eauto).
    destruct He as [msg He]. rewrite Ho in He. discriminate. }
  clear Hb Ho Hnd. induction (_toolCallBuffers st) as [|[idx buf] m IH]; [reflexivity |].
  simpl. unfold unparseable at 1. cbn [snd].
  destruct (tryParseJSONObject (buf_args buf)) eqn:Hp.
  - apply IH. intros i b Hin. apply (Hall i b). now right.
  - exfalso. apply (Hall idx buf); [now left | exact Hp].
Qed.

End Session.

(** ** Text without markers, and framed calls *)

Section PlainText.
Context `{Platform}.

Lemma noLt_startsWith (t s : string) :
  indexOf "<" s = None -> startsWith (String "<" t) s = false.
Proof.
  destruct s as [|c s]; [reflexivity |].
  intros Hn. apply indexOf_none_cons in Hn as [Hs _].
  cbn [startsWith] in *. destruct (Ascii.eqb "<" c); [discriminate | reflexivity].
Qed.

Lemma noLt_indexOf (t s : string) :
  indexOf "<" s = None -> indexOf (String "<" t) s = None.
Proof.
  induction s as [|c s IH]; [reflexivity |].
  intros Hn. rewrite indexOf_cons by now apply noLt_startsWith.
  apply indexOf_none_cons in Hn as [_ Hn]. now rewrite IH.
Qed.

Lemma noLt_drop (n : nat) (s : string) :
  indexOf "<" s = None -> indexOf "<" (drop n s) = None.
Proof.
  revert s; induction n as [|n IH]; intros s Hn; [exact Hn |].
  destruct s as [|c s]; [exact Hn |].
  simpl. apply IH. now apply indexOf_none_cons in Hn as [_ Hn].
Qed.

Lemma noLt_app (a b : string) :
  indexOf "<" a = None -> indexOf "<" b = None -> indexOf "<" (a +:+ b) = None.
Proof.
  intros Ha Hb. induction a as [|c a IH]; [now rewrite app_nil |].
  rewrite app_cons. pose proof Ha as Ha'.
  apply indexOf_none_cons in Ha as [Hs Ha].
  rewrite indexOf_cons; [now rewrite IH |].
  cbn [startsWith] in *. destruct (Ascii.eqb "<" c); [discriminate | reflexivity].
Qed.

Lemma removeAll_noLt (matchAt : string -> option nat) (s : string) :
  (forall s', startsWith "<" s' = false -> matchAt s' = None) ->
  indexOf "<" s = None -> removeAll matchAt 0 s = s.
Proof.
  intros Hm. induction s as [|c s IH]; [reflexivity |].
  intros Hn. apply indexOf_none_cons in Hn as [Hs Hn].
  simpl. rewrite (Hm _ Hs). now rewrite IH.
Qed.

Lemma matchSectionToken_head (s : string) :
  startsWith "<" s = false -> matchSectionToken s = None.
Proof.
  destruct s as [|c s]; [reflexivity |].
  unfold matchSectionToken. cbn [startsWith]. now destruct (Ascii.eqb "<" c).
Qed.

Lemma matchToolCallToken_head (s : string) :
  startsWith "<" s = false -> matchToolCallToken s = None.
Proof.
  destruct s as [|c s]; [reflexivity |].
  unfold matchToolCallToken. cbn [startsWith]. now destruct (Ascii.eqb "<" c).
Qed.

Lemma strip_noLt (text : string) :
  indexOf "<" text = None -> stripControlTokens text = text.
Proof.
  intros Hn. unfold stripControlTokens.
  rewrite (removeAll_noLt matchSectionToken) by (exact matchSectionToken_head || exact Hn).
  now apply removeAll_noLt; [exact matchToolCallToken_head |].
Qed.

Lemma removeAll_length (matchAt : string -> option nat) (s : string) (skip : nat) :
  len (removeAll matchAt skip s) <= len s.
Proof.
  revert skip; induction s as [|c s IH]; intros skip; simpl; [lia |].
  destruct skip as [|k]; [|specialize (IH k); lia].
  destruct (matchAt (String c s)) as [[|k]|]; simpl;
    [specialize (IH 0) | specialize (IH k) | specialize (IH 0)]; lia.
Qed.

(** X10.  Stripping of control tokens only removes: the result is never
    longer than the text, and a text without ["<"] comes back unchanged. *)
Theorem stripControlTokens_only_removes (text : string) :
  len (stripControlTokens text) <= len text
  /\ (indexOf "<" text = None -> stripControlTokens text = text).
Proof.
  split; [|apply strip_noLt].
  unfold stripControlTokens.
  pose proof (removeAll_length matchToolCallToken
                (removeAll matchSectionToken 0 text) 0).
  pose proof (removeAll_length matchSectionToken text 0). lia.
Qed.

Lemma longestPartialPrefix_noLt (data : string) :
  indexOf "<" data = None -> longestPartialPrefix data = 0.
Proof.
  intros Hn. unfold longestPartialPrefix.
  generalize (Nat.min (len BEGIN - 1) (len data - 1)).
  induction n as [|k IH]; [reflexivity |].
  cbn [partialPrefixFrom].
  change (take (S k) BEGIN) with (String "<" (take k "|tool_call_begin|>")).
  unfold endsWith. rewrite noLt_startsWith by now apply noLt_drop.
  rewrite andb_false_r. exact IH.
Qed.

(** X11.  Ordinary text passes through unchanged: with no inline call
    open, a non-empty text without ["<"] is reported as one text part
    equal to it, and the provider is left as it was; as the content of a
    delta it also sets the assistant-text flag and adds the rounded-up
    quarter of its length to the output counter. *)
Theorem plain_text_passes_through (st : Provider) (text : string) :
  _textToolActive st = None ->
  _textToolParserBuffer st = "" ->
  indexOf "<" text = None ->
  isEmpty text = false ->
  processTextContent st text
  = (st, [LanguageModelTextPart text], {| emittedText := true; emittedAny := true |})
  /\ processDelta st (contentDelta text)
     = (set_outputTokenCount (_outputTokenCount st + ceilDiv4 (len text))%N
          (set_hasEmittedAssistantText true st),
        [LanguageModelTextPart text], Returned true).
Proof.
  intros Hact Hbuf Hn He.
  assert (Hp : processTextContent st text
               = (st, [LanguageModelTextPart text],
                  {| emittedText := true; emittedAny := true |})).
  { unfold processTextContent. rewrite Hbuf, app_nil.
    rewrite scanLoop_eq by reflexivity. cbn [sc_data]. rewrite He.
    rewrite scanStep_text
      by (exact Hact || (now apply noLt_indexOf) || now apply longestPartialPrefix_noLt).
    unfold finishScan. cbn [sc_provider sc_data sc_visibleOut sc_parts sc_emittedAny].
    rewrite app_nil, strip_noLt by exact Hn. rewrite He. cbn.
    destruct st; simpl in *; subst; reflexivity. }
  split; [exact Hp |].
  unfold processDelta, contentDelta, processFragments, processContent, thinkingPart.
  cbn [choices ch_delta ch_thinking ch_finish_reason d_content d_tool_calls
       d_thinking mbind option_bind isTerminal processToolCalls].
  rewrite He, Hp. reflexivity.
Qed.

(** X12.  A framed inline call in one fragment, with a header without
    index and an argument text that parses: it is reported once, under the
    name of the header, unless its key is already in the registry, and then
    nothing is reported; either way the call is closed.  Read a second
    time, the same text reports nothing. *)
Theorem framed_inline_call_once (st : Provider) (h a : string) (v : JsonValue) :
  _textToolActive st = None ->
  _textToolParserBuffer st = "" ->
  indexOf ARG_BEGIN h = None ->
  indexOf END h = None ->
  indexOf END a = None ->
  isEmpty a = false ->
  tryParseJSONObject a = Some v ->
  tta_index (headerCall (trim h)) = None ->
  let name := default "unknown_tool" (tta_name (headerCall (trim h))) in
  let key := toolCallKey name (JSON_stringify v) in
  let call := BEGIN +:+ h +:+ ARG_BEGIN +:+ a +:+ END in
  let registered := set_emittedTextToolCallKeys ({[key]} ∪ _emittedTextToolCallKeys st) st in
  (key ∉ _emittedTextToolCallKeys st ->
   processTextContent st call
   = (registered, [LanguageModelToolCallPart (FreshId "tct_") name v],
      {| emittedText := false; emittedAny := true |}))
  /\ (key ∈ _emittedTextToolCallKeys st ->
      processTextContent st call
      = (st, [], {| emittedText := false; emittedAny := false |}))
  /\ processTextContent registered call
     = (registered, [], {| emittedText := false; emittedAny := false |}).
Proof.
  intros Hact Hbuf Hha Hhe Hae Hne Hp Hidx name key call registered.
  assert (Hrun : forall s, _textToolActive s = None -> _textToolParserBuffer s = "" ->
    processTextContent s call
    = let '(s1, parts, did) :=
        emitTextToolCallIfValid
          (set_textToolActive (Some (with_argBuffer a (headerCall (trim h)))) s)
          (with_argBuffer a (headerCall (trim h))) a in
      (set_textToolParserBuffer "" (set_textToolActive None s1), parts,
       {| emittedText := false; emittedAny := did || false |})).
  { intros s Hsa Hsb. unfold processTextContent, call. rewrite Hsb, app_nil.
    rewrite scanLoop_eq by reflexivity.
    cbn [sc_data]. rewrite (isEmpty_app_l BEGIN _ eq_refl).
    rewrite scanStep_header_arg by assumption.
    rewrite scanLoop_eq by reflexivity.
    cbn [sc_data]. rewrite (isEmpty_app_l a END Hne).
    rewrite <- (app_empty_r END) at 1. rewrite app_empty_r.
    rewrite <- (app_empty_r (a +:+ END)), app_assoc_str.
    rewrite (scanStep_args_end _ (headerCall (trim h))) by (reflexivity || assumption).
    cbn [with_argBuffer tta_argBuffer tta_emitted headerCall]. rewrite app_nil.
    destruct (emitTextToolCallIfValid _ _ _) as [[s1 parts] did].
    rewrite scanLoop_eq by reflexivity. cbn [sc_data isEmpty].
    unfold finishScan.
    cbn [sc_provider sc_data sc_visibleOut sc_parts sc_emittedAny isEmpty negb app orb].
    reflexivity. }
  split; [|split].
  - intros Hk. rewrite (Hrun st Hact Hbuf).
    rewrite (emitTextToolCallIfValid_fresh _ _ _ v Hp) by (exact Hidx || exact Hk).
    unfold registered, key, name. destruct st; simpl in *; subst; reflexivity.
  - intros Hk. rewrite (Hrun st Hact Hbuf).
    rewrite (emitTextToolCallIfValid_known _ _ _ v Hp) by (exact Hidx || exact Hk).
    destruct st; simpl in *; subst; reflexivity.
  - rewrite (Hrun registered Hact Hbuf).
    rewrite (emitTextToolCallIfValid_known _ _ _ v Hp)
      by (exact Hidx || (cbn; set_solver)).
    unfold registered. destruct st; simpl in *; subst; reflexivity.
Qed.

(** X13.  An inline call is reported as soon as its argument text parses,
    before the end marker is seen; the end marker that arrives in the next
    fragment closes the call and reports nothing more. *)
Theorem inline_call_reported_before_end (st : Provider) (h a : string) (v : JsonValue) :
  _textToolActive st = None ->
  _textToolParserBuffer st = "" ->
  indexOf ARG_BEGIN h = None ->
  indexOf END h = None ->
  indexOf END a = None ->
  isEmpty a = false ->
  tryParseJSONObject a = Some v ->
  tta_index (headerCall (trim h)) = None ->
  let name := default "unknown_tool" (tta_name (headerCall (trim h))) in
  toolCallKey name (JSON_stringify v) ∉ _emittedTextToolCallKeys st ->
  let '(st1, parts1, _) :=
    processTextContent st (BEGIN +:+ h +:+ ARG_BEGIN +:+ a) in
  let '(st2, parts2, _) := processTextContent st1 END in
  parts1 = [LanguageModelToolCallPart (FreshId "tct_") name v]
  /\ option_map tta_emitted (_textToolActive st1) = Some true
  /\ parts2 = []
  /\ _textToolActive st2 = None.
Proof.
  intros Hact Hbuf Hha Hhe Hae Hne Hp Hidx name Hk.
  unfold processTextContent at 1. rewrite Hbuf, app_nil.
  rewrite scanLoop_eq by reflexivity.
  cbn [sc_data]. rewrite (isEmpty_app_l BEGIN _ eq_refl).
  rewrite scanStep_header_arg by assumption.
  rewrite scanLoop_eq by reflexivity.
  cbn [sc_data]. rewrite Hne.
  rewrite (scanStep_args_open _ (headerCall (trim h))) by (reflexivity || assumption).
  cbn [with_argBuffer tta_argBuffer tta_emitted headerCall]. rewrite app_nil.
  rewrite (emitTextToolCallIfValid_fresh _ _ _ v Hp) by (exact Hidx || exact Hk).
  unfold finishScan.
  cbn [sc_provider sc_data sc_visibleOut sc_parts sc_emittedAny isEmpty negb app orb].
  unfold processTextContent.
  cbn [_textToolParserBuffer set_textToolParserBuffer]. rewrite app_nil.
  rewrite scanLoop_eq by reflexivity.
  cbn [sc_data]. change (isEmpty END) with false. cbv iota.
  match goal with
  | |- context [scanStep {| sc_provider := ?s; sc_data := END; sc_visibleOut := ?vo;
                            sc_emittedAny := ?ea; sc_parts := ?ps |}] =>
      pose proof (scanStep_args_end s
                    (with_emitted true (with_argBuffer a (headerCall (trim h))))
                    "" "" vo ea ps eq_refl eq_refl) as Hx
  end.
  change ("" +:+ END +:+ "") with END in Hx. rewrite Hx. clear Hx.
  cbn [with_argBuffer with_emitted tta_argBuffer tta_emitted].
  rewrite scanLoop_eq by reflexivity. cbn [sc_data isEmpty].
  unfold finishScan.
  cbn [sc_provider sc_data sc_visibleOut sc_parts sc_emittedAny isEmpty negb app orb].
  repeat split.
Qed.

End PlainText.

(** ** The partial marker at the end of a text, and the header of a call *)

Section Headers.
Context `{Platform}.

Lemma partialPrefixFrom_spec (n : nat) (data : string) :
  let r := partialPrefixFrom n data in
  r <= n
  /\ (0 < r -> endsWith (take r BEGIN) data = true)
  /\ (forall j, r < j -> j <= n -> endsWith (take j BEGIN) data = false).
Proof.
  induction n as [|n IH]; cbn zeta.
  - cbn [partialPrefixFrom]. repeat split; intros; lia.
  - cbn [partialPrefixFrom].
    destruct (endsWith (take (S n) BEGIN) data) eqn:He.
    + repeat split; [lia | intros _; exact He | intros; lia].
    + destruct IH as (Hle & Hpos & Hmax). repeat split; [lia | exact Hpos |].
      intros j Hj Hjn. destruct (Nat.eq_dec j (S n)) as [-> | Hne]; [exact He |].
      apply Hmax; lia.
Qed.

(** X14.  The number of characters held back at the end of a text is the
    length of the longest proper prefix of the begin marker that ends the
    text, among the prefixes shorter than the text itself: it is below both
    lengths, the text ends with that prefix, and with no longer one below
    those bounds. *)
Theorem longestPartialPrefix_longest (data : string) :
  let k := longestPartialPrefix data in
  k <= len BEGIN - 1
  /\ k <= len data - 1
  /\ (0 < k -> endsWith (take k BEGIN) data = true)
  /\ (forall j, k < j -> j <= len BEGIN - 1 -> j <= len data - 1 ->
                endsWith (take j BEGIN) data = false).
Proof.
  unfold longestPartialPrefix.
  destruct (partialPrefixFrom_spec (Nat.min (len BEGIN - 1) (len data - 1)) data)
    as (Hle & Hpos & Hmax).
  cbn zeta. repeat split; [lia | lia | exact Hpos |].
  intros j Hj Hb Hd. apply Hmax; lia.
Qed.

Lemma span_app (p : ascii -> bool) (a b : string) :
  allChars p a = true -> headChar p b = false -> span p (a +:+ b) = (a, b).
Proof.
  intros Ha Hb. induction a as [|c a IH].
  - rewrite app_nil. destruct b as [|c b]; [reflexivity |].
    simpl in *. now rewrite Hb.
  - rewrite app_cons. simpl in *. apply andb_true_iff in Ha as [Hc Ha].
    now rewrite Hc, IH.
Qed.

Lemma colon_match {A : Type} (rest : string) (f : string -> A) (d : A) :
  startsWith ":" rest = false ->
  match rest with String ":" r => f r | _ => d end = d.
Proof.
  destruct rest as [|[b0 b1 b2 b3 b4 b5 b6 b7] r]; [reflexivity |].
  destruct b0, b1, b2, b3, b4, b5, b6, b7; try reflexivity.
  discriminate.
Qed.

Lemma matchHeader_name (name rest : string) :
  isEmpty name = false ->
  allChars isHeaderNameChar name = true ->
  headChar isHeaderNameChar rest = false ->
  matchHeader (name +:+ rest)
  = match rest with
    | String ":" r =>
        let '(digits, _) := span isDigit r in
        if isEmpty digits then Some (name, None) else Some (name, Some digits)
    | _ => Some (name, None)
    end.
Proof.
  intros Hne Ha Hr. unfold matchHeader. rewrite span_app by assumption.
  now rewrite Hne.
Qed.

Lemma roundToDouble_exact (n : N) :
  (n < 2 ^ 53)%N -> roundToDouble n = Finite n.
Proof.
  intros Hn.
  assert (Hs : (N.size n <= 53)%N).
  { destruct (N.eq_dec n 0%N) as [-> | Hz]; [cbn; lia |].
    rewrite N.size_log2 by exact Hz.
    assert (N.log2 n < 53)%N by (apply N.log2_lt_pow2; lia). lia. }
  unfold roundToDouble.
  replace (N.size n - 53)%N with 0%N by lia.
  rewrite N.shiftr_0_r. change (N.ones 0) with 0%N. rewrite N.land_0_r.
  change (N.shiftl 1 (0 - 1)) with 1%N. cbn [N.ltb N.eqb N.compare orb andb].
  rewrite N.shiftl_0_r.
  replace (N.size n <=? 1024)%N with true; [reflexivity |].
  symmetry. apply N.leb_le. lia.
Qed.

(** X15.  The header of an inline call: the name is the longest run of
    letters, digits, ["_"], ["-"] and ["."] at its start; a colon and
    decimal digits after the name give the index [Number(digits)], which is
    the decimal value of the digits when that is below 2^53 and the nearest
    double otherwise, and nothing else gives an index.  A header that does
    not start with such a character names no call. *)
Theorem header_grammar (name rest : string) :
  isEmpty name = false ->
  allChars isHeaderNameChar name = true ->
  headChar isHeaderNameChar rest = false ->
  tta_name (headerCall (name +:+ rest)) = Some name
  /\ (forall digits rest',
        rest = ":" +:+ digits +:+ rest' ->
        isEmpty digits = false -> allChars isDigit digits = true ->
        headChar isDigit rest' = false ->
        tta_index (headerCall (name +:+ rest))
        = Some (roundToDouble (digitsValue 0 digits))
        /\ ((digitsValue 0 digits < 2 ^ 53)%N ->
            tta_index (headerCall (name +:+ rest))
            = Some (Finite (digitsValue 0 digits))))
  /\ (startsWith ":" rest = false \/ headChar isDigit (drop 1 rest) = false ->
      tta_index (headerCall (name +:+ rest)) = None)
  /\ tta_name (headerCall rest) = None.
Proof.
  intros Hne Ha Hr. unfold headerCall. cbn [tta_name tta_index].
  rewrite (matchHeader_name name rest Hne Ha Hr).
  split; [|split; [|split]].
  - destruct (startsWith ":" rest) eqn:Hc.
    + destruct rest as [|c r]; [discriminate |]. cbn [startsWith] in Hc.
      destruct (Ascii.eqb ":" c) eqn:Hcc; [|discriminate].
      apply Ascii.eqb_eq in Hcc. subst c.
      destruct (span isDigit r) as [digits r']. now destruct (isEmpty digits).
    + now rewrite colon_match.
  - intros digits rest' -> Hd Hda Hr'.
    rewrite app_cons, app_nil. rewrite span_app by assumption. rewrite Hd.
    unfold Number. split; [reflexivity |].
    intros Hv. now rewrite roundToDouble_exact by exact Hv.
  - intros [Hc | Hd]; [now rewrite colon_match |].
    destruct (startsWith ":" rest) eqn:Hc; [|now rewrite colon_match].
    destruct rest as [|c r]; [discriminate |]. cbn [startsWith] in Hc.
    destruct (Ascii.eqb ":" c) eqn:Hcc; [|discriminate].
    apply Ascii.eqb_eq in Hcc. subst c. cbn [drop] in Hd.
    replace (span isDigit r) with (EmptyString, r); [reflexivity |].
    rewrite <- (app_nil r) at 2. now rewrite span_app.
  - unfold matchHeader. rewrite <- (app_nil rest).
    now rewrite span_app.
Qed.

End Headers.

(** ** What stripping removes *)

Section Stripping.
Context `{Platform}.

Lemma removeAll_prefix (matchAt : string -> option nat) (a y : string) :
  (forall s', startsWith "<" s' = false -> matchAt s' = None) ->
  indexOf "<" a = None ->
  removeAll matchAt 0 (a +:+ y) = a +:+ removeAll matchAt 0 y.
Proof.
  intros Hm. induction a as [|c a IH]; intros Hn; [now rewrite !app_nil |].
  apply indexOf_none_cons in Hn as [Hs Hn].
  rewrite !app_cons. cbn [removeAll]. rewrite Hm; [now rewrite IH |].
  cbn [startsWith] in *. now destruct (Ascii.eqb "<" c).
Qed.

Lemma removeAll_skip (matchAt : string -> option nat) (x y : string) :
  removeAll matchAt (len x) (x +:+ y) = removeAll matchAt 0 y.
Proof.
  induction x as [|c x IH]; [now rewrite app_nil |].
  rewrite app_cons. exact IH.
Qed.

Lemma removeAll_token (matchAt : string -> option nat) (c : ascii) (t y : string) :
  matchAt (String c (t +:+ y)) = Some (S (len t)) ->
  removeAll matchAt 0 (String c t +:+ y) = removeAll matchAt 0 y.
Proof.
  intros Hm. rewrite app_cons. cbn [removeAll]. rewrite Hm. apply removeAll_skip.
Qed.

Lemma removeAll_keep (matchAt : string -> option nat) (c : ascii) (s : string) :
  matchAt (String c s) = None ->
  removeAll matchAt 0 (String c s) = String c (removeAll matchAt 0 s).
Proof. intros Hm. cbn [removeAll]. now rewrite Hm. Qed.

Lemma startsWith_self (x y : string) : startsWith x (x +:+ y) = true.
Proof.
  induction x as [|c x IH]; [reflexivity |].
  rewrite app_cons. cbn [startsWith]. now rewrite Ascii.eqb_refl.
Qed.

Lemma allChars_app (p : ascii -> bool) (a b : string) :
  allChars p (a +:+ b) = allChars p a && allChars p b.
Proof.
  induction a as [|c a IH]; [reflexivity |].
  rewrite app_cons. simpl. now rewrite IH, andb_assoc.
Qed.

Lemma endsWith_app (x p : string) : endsWith p (x +:+ p) = true.
Proof.
  unfold endsWith. rewrite len_app.
  replace (len x + len p - len p) with (len x) by lia.
  rewrite drop_app0.
  pose proof (startsWith_self p "") as Hs. rewrite app_empty_r in Hs. rewrite Hs.
  rewrite andb_true_r. apply Nat.leb_le. lia.
Qed.

Lemma matchSectionToken_run (run b : string) :
  allChars isSectionNameChar run = true ->
  matchSectionToken ("<|" +:+ run +:+ "|>" +:+ b)
  = if ((len "_section_begin" <? len run) && endsWith "_section_begin" run)
       || ((len "_section_end" <? len run) && endsWith "_section_end" run)
    then Some (len run + 4) else None.
Proof.
  intros Ha. unfold matchSectionToken. rewrite startsWith_self.
  change 2 with (len "<|"). rewrite drop_app0.
  rewrite (span_app isSectionNameChar run ("|>" +:+ b)) by (exact Ha || reflexivity).
  now rewrite startsWith_self.
Qed.

(** A tool-call token is no section token, whatever follows it. *)
Lemma toolCallToken_no_section (tok b : string) :
  In tok toolCallTokens -> matchSectionToken (tok +:+ b) = None.
Proof.
  unfold toolCallTokens, BEGIN, ARG_BEGIN, END.
  intros [<- | [<- | [<- | [<- | []]]]].
  - change (_ +:+ b) with ("<|" +:+ "tool_call_begin" +:+ "|>" +:+ b).
    now rewrite matchSectionToken_run by reflexivity.
  - change (_ +:+ b) with ("<|" +:+ "tool_call_argument_begin" +:+ "|>" +:+ b).
    now rewrite matchSectionToken_run by reflexivity.
  - change (_ +:+ b) with ("<|" +:+ "tool_call_end" +:+ "|>" +:+ b).
    now rewrite matchSectionToken_run by reflexivity.
  - change (_ +:+ b) with ("<|" +:+ "tool_call_argument_end" +:+ "|>" +:+ b).
    now rewrite matchSectionToken_run by reflexivity.
Qed.

Lemma toolCallToken_match (tok b : string) :
  In tok toolCallTokens -> matchToolCallToken (tok +:+ b) = Some (len tok).
Proof.
  unfold toolCallTokens, BEGIN, ARG_BEGIN, END.
  intros [<- | [<- | [<- | [<- | []]]]]; unfold matchToolCallToken;
    repeat rewrite app_cons; rewrite app_nil;
    cbn [startsWith Ascii.eqb Bool.eqb]; reflexivity.
Qed.

Lemma toolCallToken_shape (tok : string) :
  In tok toolCallTokens ->
  exists t, tok = String "<" t /\ indexOf "<" t = None.
Proof.
  unfold toolCallTokens, BEGIN, ARG_BEGIN, END.
  intros [<- | [<- | [<- | [<- | []]]]]; eexists; split; reflexivity.
Qed.

Lemma sectionToken_match (name b : string) (closing : bool) :
  isEmpty name = false ->
  allChars isSectionNameChar name = true ->
  matchSectionToken (sectionToken name closing +:+ b)
  = Some (len (sectionToken name closing)).
Proof.
  intros Hne Ha. unfold sectionToken.
  set (suffix := if closing then "_section_end" else "_section_begin").
  replace (("<|" +:+ name +:+ suffix +:+ "|>") +:+ b)
    with ("<|" +:+ (name +:+ suffix) +:+ "|>" +:+ b)
    by now rewrite !app_assoc_str.
  rewrite matchSectionToken_run
    by (rewrite allChars_app, Ha; subst suffix; now destruct closing).
  assert (Hlen : 0 < len name) by (destruct name; [discriminate | simpl; lia]).
  rewrite !len_app.
  destruct closing; subst suffix.
  - rewrite (endsWith_app name "_section_end").
    replace (len "_section_end" <? len name + len "_section_end") with true
      by (symmetry; apply Nat.ltb_lt; lia).
    rewrite orb_true_r. simpl. f_equal. lia.
  - rewrite (endsWith_app name "_section_begin").
    replace (len "_section_begin" <? len name + len "_section_begin") with true
      by (symmetry; apply Nat.ltb_lt; lia).
    simpl. f_equal. lia.
Qed.

(** X16.  A control token that stands alone is removed: between two
    texts without ["<"], each of the four tool-call tokens and every
    section token disappears and the texts around it are joined. *)
Theorem strip_removes_token (a b tok : string) :
  indexOf "<" a = None ->
  indexOf "<" b = None ->
  (In tok toolCallTokens
   \/ exists name closing,
        isEmpty name = false /\ allChars isSectionNameChar name = true
        /\ tok = sectionToken name closing) ->
  stripControlTokens (a +:+ tok +:+ b) = a +:+ b.
Proof.
  intros Ha Hb [Hin | (name & closing & Hne & Hn & ->)]; unfold stripControlTokens.
  - destruct (toolCallToken_shape tok Hin) as (t & -> & Ht).
    rewrite (removeAll_prefix matchSectionToken) by (exact matchSectionToken_head || exact Ha).
    rewrite app_cons.
    rewrite removeAll_keep
      by (rewrite <- app_cons; now apply toolCallToken_no_section).
    rewrite (removeAll_noLt matchSectionToken (t +:+ b))
      by (exact matchSectionToken_head || now apply noLt_app).
    rewrite (removeAll_prefix matchToolCallToken)
      by (exact matchToolCallToken_head || exact Ha).
    rewrite <- app_cons, removeAll_token.
    + now rewrite (removeAll_noLt matchToolCallToken b)
        by (exact matchToolCallToken_head || exact Hb).
    + rewrite <- app_cons, (toolCallToken_match _ b Hin). reflexivity.
  - rewrite (removeAll_prefix matchSectionToken) by (exact matchSectionToken_head || exact Ha).
    pose proof (sectionToken_match name b closing Hne Hn) as Hm.
    assert (Hs : exists t, sectionToken name closing = String "<" t)
      by (unfold sectionToken; rewrite app_cons; eauto).
    destruct Hs as [t Hs]. rewrite Hs in *.
    rewrite removeAll_token by (rewrite <- app_cons; exact Hm).
    rewrite (removeAll_noLt matchSectionToken b) by (exact matchSectionToken_head || exact Hb).
    apply removeAll_noLt; [exact matchToolCallToken_head | now apply noLt_app].
Qed.

End Stripping.

(** ** Model identifiers and the catalogue *)

Section Catalogue.

Lemma splitOn_nonempty (sep : ascii) (s : string) : splitOn sep s <> [].
Proof.
  induction s as [|c s IH]; simpl; [discriminate |].
  destruct (Ascii.eqb c sep); [discriminate |].
  destruct (splitOn sep s); discriminate.
Qed.

Lemma noColon_head (c : ascii) (a : string) :
  indexOf ":" (String c a) = None -> Ascii.eqb c ":" = false /\ indexOf ":" a = None.
Proof.
  intros Hn. apply indexOf_none_cons in Hn as [Hs Hn]. split; [|exact Hn].
  cbn [startsWith] in Hs. rewrite Ascii.eqb_sym.
  now destruct (Ascii.eqb ":" c).
Qed.

Lemma splitOn_prefix (a b : string) :
  indexOf ":" a = None ->
  splitOn ":" (a +:+ ":" +:+ b) = a :: splitOn ":" b.
Proof.
  induction a as [|c a IH]; intros Hn.
  - rewrite app_nil, app_cons, app_nil. reflexivity.
  - apply noColon_head in Hn as [Hc Hn].
    rewrite app_cons. cbn [splitOn]. rewrite Hc, (IH Hn). reflexivity.
Qed.

Lemma joinWith_cons (sep part : string) (rest : list string) :
  rest <> [] -> joinWith sep (part :: rest) = part +:+ sep +:+ joinWith sep rest.
Proof. destruct rest; [contradiction | reflexivity]. Qed.

Lemma joinWith_splitOn (s : string) : joinWith ":" (splitOn ":" s) = s.
Proof.
  induction s as [|c s IH]; [reflexivity |].
  cbn [splitOn]. destruct (Ascii.eqb c ":") eqn:Hc.
  - apply Ascii.eqb_eq in Hc. subst c.
    rewrite joinWith_cons by apply splitOn_nonempty.
    rewrite IH. now rewrite app_nil, app_cons, app_nil.
  - pose proof (splitOn_nonempty ":" s) as Hne.
    destruct (splitOn ":" s) as [|l ls]; [contradiction |].
    destruct ls as [|l' ls].
    + simpl in *. now rewrite IH.
    + rewrite joinWith_cons in * by discriminate.
      rewrite app_cons. now rewrite IH.
Qed.

Lemma extractActualModelId_prefixed (provider : ProviderConfig) (m : string) :
  indexOf ":" (pc_id provider) = None ->
  extractActualModelId (pc_id provider +:+ ":" +:+ m) provider = m.
Proof.
  intros Hn. unfold extractActualModelId. rewrite splitOn_prefix by exact Hn.
  pose proof (splitOn_nonempty ":" m) as Hne.
  cbn [length hd tl]. rewrite String.eqb_refl.
  destruct (splitOn ":" m) as [|l ls] eqn:Hs; [contradiction |].
  cbn [length Nat.ltb Nat.leb andb]. rewrite <- Hs. apply joinWith_splitOn.
Qed.

(** X17.  Round trip of a model id: the id under which a model is
    listed, the provider id and the model's own id joined by a colon, gives
    back the model's own id, colons included, when the prefix is taken off
    for the request; this needs a provider id without colon. *)
Theorem model_id_round_trip (provider : ProviderConfig) (models : list HFModelItem)
    (tooltipSuffix : option string) :
  indexOf ":" (pc_id provider) = None ->
  List.map (fun info => extractActualModelId (info_id info) provider)
    (buildModelInformation models provider tooltipSuffix)
  = List.map m_id models.
Proof.
  intros Hn. unfold buildModelInformation. rewrite List.map_map.
  apply List.map_ext. intros m. cbn [info_id].
  now apply extractActualModelId_prefixed.
Qed.

(** X18.  Routing of a model id.  An id that starts with the id of a
    registered provider and a colon is routed to that provider, and the
    rest is the model asked of it.  An id whose first part is neither a
    registered provider nor a member of [Object.prototype] goes to
    [chatglm-coding] with the whole id as the model.  A first part that
    names a member of [Object.prototype] finds no provider configuration. *)
Theorem model_id_routing :
  (forall (key : string) (provider : ProviderConfig) (m : string),
     In (key, provider) PROVIDERS ->
     getProviderByModelId (pc_id provider +:+ ":" +:+ m) = Configured provider
     /\ extractActualModelId (pc_id provider +:+ ":" +:+ m) provider = m)
  /\ (forall modelId : string,
        let first := hd "" (splitOn ":" modelId) in
        ownProperty first PROVIDERS = None ->
        existsb (String.eqb first) objectPrototypeKeys = false ->
        getProviderByModelId modelId = Configured chatglmCoding
        /\ extractActualModelId modelId chatglmCoding = modelId)
  /\ (forall modelId : string,
        let first := hd "" (splitOn ":" modelId) in
        existsb (String.eqb first) objectPrototypeKeys = true ->
        getProviderByModelId modelId = Inherited first).
Proof.
  split; [|split].
  - intros key provider m Hin.
    assert (Hn : indexOf ":" (pc_id provider) = None)
      by (destruct Hin as [Hp | [Hp | []]]; injection Hp as _ <-; reflexivity).
    split; [|now apply extractActualModelId_prefixed].
    unfold getProviderByModelId. rewrite splitOn_prefix by exact Hn.
    destruct Hin as [Hp | [Hp | []]]; injection Hp as _ <-; reflexivity.
  - intros modelId first Hown Hinh. unfold getProviderByModelId, extractActualModelId.
    pose proof (splitOn_nonempty ":" modelId) as Hne. subst first.
    destruct (splitOn ":" modelId) as [|p0 ps]; [contradiction |].
    cbn [hd] in *. rewrite Hown, Hinh. split; [reflexivity |].
    cbn [ownProperty PROVIDERS] in Hown. cbn [pc_id chatglmCoding].
    destruct (String.eqb p0 "chatglm-coding"); [discriminate |].
    now rewrite andb_false_r.
  - intros modelId first Hinh. unfold getProviderByModelId.
    pose proof (splitOn_nonempty ":" modelId) as Hne. subst first.
    destruct (splitOn ":" modelId) as [|p0 ps]; [contradiction |].
    cbn [hd] in *. rewrite Hinh.
    destruct (ownProperty p0 PROVIDERS) as [provider|] eqn:Hown; [|reflexivity].
    exfalso. cbn [ownProperty PROVIDERS] in Hown.
    destruct (String.eqb p0 "chatglm-coding") eqn:H1;
      [apply String.eqb_eq in H1; subst p0; discriminate Hinh |].
    destruct (String.eqb p0 "chatglm-general") eqn:H2;
      [apply String.eqb_eq in H2; subst p0; discriminate Hinh | discriminate].
Qed.

Lemma uniqueInfos_elem (allInfos : list LanguageModelChatInformation)
    (seen : gset string) (info : LanguageModelChatInformation) :
  In info (uniqueInfos seen allInfos) ->
  (baseModelId (info_id info) ∉ seen) /\ In info allInfos.
Proof.
  revert seen; induction allInfos as [|i rest IH]; intros seen; simpl; [intros [] |].
  destruct (bool_decide _) eqn:Hd.
  - intros Hin. destruct (IH _ Hin) as [Hs Hin']. auto.
  - apply bool_decide_eq_false in Hd. intros [<- | Hin]; [auto |].
    destruct (IH _ Hin) as [Hs Hin']. split; [|auto].
    intros Hx. apply Hs, elem_of_union. now right.
Qed.

Lemma uniqueInfos_NoDup (allInfos : list LanguageModelChatInformation)
    (seen : gset string) :
  List.NoDup (List.map (fun info => baseModelId (info_id info))
                (uniqueInfos seen allInfos)).
Proof.
  revert seen; induction allInfos as [|i rest IH]; intros seen; simpl;
    [constructor |].
  destruct (bool_decide _); [apply IH |].
  simpl. constructor; [|apply IH].
  intros Hin. apply List.in_map_iff in Hin as (info & Heq & Hin).
  apply uniqueInfos_elem in Hin as [Hs _]. rewrite Heq in Hs. set_solver.
Qed.

Lemma uniqueInfos_first (pre post : list LanguageModelChatInformation)
    (seen : gset string) (info : LanguageModelChatInformation) :
  baseModelId (info_id info) ∉ seen ->
  ~ In (baseModelId (info_id info))
       (List.map (fun i => baseModelId (info_id i)) pre) ->
  In info (uniqueInfos seen (pre ++ info :: post)).
Proof.
  revert seen; induction pre as [|i pre IH]; intros seen Hs Hp; simpl.
  - rewrite bool_decide_eq_false_2 by exact Hs. now left.
  - simpl in Hp. destruct (bool_decide _).
    + apply IH; [exact Hs | tauto].
    + right. apply IH; [|tauto].
      intros Hin. apply elem_of_union in Hin as [Hin | Hin]; [|contradiction].
      apply elem_of_singleton in Hin. apply Hp. now left.
Qed.

Lemma uniqueInfos_sublist (allInfos : list LanguageModelChatInformation)
    (seen : gset string) :
  sublist (uniqueInfos seen allInfos) allInfos.
Proof.
  revert seen; induction allInfos as [|i rest IH]; intros seen; simpl;
    [constructor |].
  destruct (bool_decide _); [apply sublist_cons, IH | apply sublist_skip, IH].
Qed.

Lemma uniqueInfos_covers (allInfos : list LanguageModelChatInformation)
    (seen : gset string) (info : LanguageModelChatInformation) :
  In info allInfos ->
  baseModelId (info_id info) ∈ seen
  \/ In (baseModelId (info_id info))
        (List.map (fun i => baseModelId (info_id i)) (uniqueInfos seen allInfos)).
Proof.
  revert seen; induction allInfos as [|i rest IH]; intros seen; simpl; [intros [] |].
  destruct (bool_decide _) eqn:Hd.
  - apply bool_decide_eq_true in Hd. intros [<- | Hin]; [now left | now apply IH].
  - intros [<- | Hin]; [right; now left |].
    destruct (IH ({[baseModelId (info_id i)]} ∪ seen) Hin) as [Hs | Hu].
    + apply elem_of_union in Hs as [Hs | Hs]; [|now left].
      apply elem_of_singleton in Hs. right. left. now symmetry.
    + right. now right.
Qed.

(** X19.  The catalogue keeps the first entry of every base model id and
    nothing else: the entries kept have distinct base ids, they are entries
    of the list in their order, an entry whose base id does not occur
    before it is kept, and every base id of the list is still there. *)
Theorem uniqueInfos_first_of_each_base (allInfos : list LanguageModelChatInformation) :
  let base := fun info => baseModelId (info_id info) in
  let unique := uniqueInfos ∅ allInfos in
  List.NoDup (List.map base unique)
  /\ sublist unique allInfos
  /\ (forall pre info post,
        allInfos = pre ++ info :: post ->
        ~ In (base info) (List.map base pre) ->
        In info unique)
  /\ (forall info, In info allInfos -> In (base info) (List.map base unique)).
Proof.
  cbn zeta. split; [apply uniqueInfos_NoDup |]. split; [apply uniqueInfos_sublist |].
  split.
  - intros pre info post -> Hp. apply uniqueInfos_first; [set_solver | exact Hp].
  - intros info Hin. destruct (uniqueInfos_covers allInfos ∅ info Hin) as [Hs | Hu];
      [set_solver | exact Hu].
Qed.

Lemma uniqueInfos_one_base (allInfos : list LanguageModelChatInformation)
    (seen : gset string) (base : string) :
  (forall info, In info allInfos -> baseModelId (info_id info) = base) ->
  length (uniqueInfos seen allInfos) <= 1
  /\ (base ∈ seen -> uniqueInfos seen allInfos = []).
Proof.
  revert seen; induction allInfos as [|i rest IH]; intros seen Hall; simpl;
    [split; [lia | reflexivity] |].
  assert (Hi : baseModelId (info_id i) = base) by (apply Hall; now left).
  assert (Hrest : forall info, In info rest -> baseModelId (info_id info) = base)
    by (intros info Hin; apply Hall; now right).
  rewrite Hi. destruct (bool_decide _) eqn:Hd.
  - apply bool_decide_eq_true in Hd. apply IH, Hrest.
  - apply bool_decide_eq_false in Hd.
    destruct (IH ({[base]} ∪ seen) Hrest) as [_ Hnil].
    rewrite Hnil; [|apply elem_of_union; left; now apply elem_of_singleton].
    split; [simpl; lia | contradiction].
Qed.

Lemma placeholder_base (provider : ProviderConfig) :
  indexOf ":" (pc_id provider) = None ->
  baseModelId (info_id (placeholderInfo provider)) = "__no_api_key__".
Proof.
  intros Hn. unfold baseModelId, placeholderInfo. cbn [info_id].
  change (pc_id provider +:+ ":__no_api_key__")
    with (pc_id provider +:+ ":" +:+ "__no_api_key__").
  now rewrite splitOn_prefix by exact Hn.
Qed.

(** X20.  Without API keys the providers share one placeholder: the
    entries that stand for the providers without key all have the base id
    [__no_api_key__], so however many providers are enabled the catalogue
    lists at most one entry. *)
Theorem placeholders_collapse (providers : list ProviderConfig)
    (enabledProviderIds : list string) :
  Forall (fun provider => indexOf ":" (pc_id provider) = None) providers ->
  length (uniqueInfos ∅ (collectInfos providers enabledProviderIds (fun _ => NoApiKey)))
  <= 1.
Proof.
  intros Hall. apply (uniqueInfos_one_base _ ∅ "__no_api_key__").
  intros info Hin. unfold collectInfos in Hin.
  apply List.in_flat_map in Hin as (provider & Hp & Hin).
  apply List.filter_In in Hp as [Hp _].
  rewrite Forall_forall in Hall. apply list_elem_of_In, Hall in Hp.
  unfold providerInfos, getStaticModelsForProvider in Hin. cbn [length Nat.ltb Nat.leb] in Hin.
  destruct (startsWith "chatglm" (pc_id provider)); [|destruct Hin].
  destruct Hin as [<- | []]. now apply placeholder_base.
Qed.

Lemma countParts_from (parts : list MessagePart) (total : N) :
  countParts total parts = (total + countParts 0 parts)%N.
Proof.
  revert total; induction parts as [|[value|] parts IH]; intros total; simpl.
  - lia.
  - rewrite (IH (total + _)%N), (IH (0 + _)%N). lia.
  - apply IH.
Qed.

Lemma estimateMessagesTokensFrom_from (msgs : list LanguageModelChatMessage)
    (total : N) :
  estimateMessagesTokensFrom total msgs
  = (total + estimateMessagesTokensFrom 0 msgs)%N.
Proof.
  revert total; induction msgs as [|m msgs IH]; intros total; simpl; [lia |].
  rewrite (IH (countParts total _)), (IH (countParts 0 _)).
  rewrite (countParts_from _ total). lia.
Qed.

(** X21.  The estimate of a request is the sum of the token counts of
    its messages, as [provideTokenCount] gives them, so it adds up over a
    concatenation of message lists; a text part counts as the token count
    of its text. *)
Theorem estimate_sums_token_counts :
  (forall (m : LanguageModelChatMessage) (msgs : list LanguageModelChatMessage),
     estimateMessagesTokens (m :: msgs)
     = (provideTokenCount (inr m) + estimateMessagesTokens msgs)%N)
  /\ (forall msgs1 msgs2 : list LanguageModelChatMessage,
        estimateMessagesTokens (msgs1 ++ msgs2)
        = (estimateMessagesTokens msgs1 + estimateMessagesTokens msgs2)%N)
  /\ (forall (value : string) (parts : list MessagePart),
        provideTokenCount (inr {| content := TextPart value :: parts |})
        = (provideTokenCount (inl value)
           + provideTokenCount (inr {| content := parts |}))%N).
Proof.
  split; [|split].
  - intros m msgs. unfold estimateMessagesTokens. simpl.
    now rewrite estimateMessagesTokensFrom_from.
  - intros msgs1 msgs2. unfold estimateMessagesTokens.
    induction msgs1 as [|m msgs1 IH]; simpl; [lia |].
    rewrite estimateMessagesTokensFrom_from,
      (estimateMessagesTokensFrom_from msgs1 (countParts 0 _)), IH. lia.
  - intros value parts. simpl. now rewrite countParts_from.
Qed.

End Catalogue.

(** ** Usage statistics *)

Section Statistics.

Lemma tally_insert {V} (g : V -> N * N) (k : string) (v : V) (m : gmap string V) :
  tally g (<[k:=v]> m)
  = ((tally g (delete k m)).1 + (g v).1, (tally g (delete k m)).2 + (g v).2)%N.
Proof.
  rewrite <- (insert_delete_eq m k v). unfold tally.
  rewrite map_fold_insert_L; [reflexivity | | apply lookup_delete_eq].
  intros j1 j2 z1 z2 [a b] _ _ _. cbn. f_equal; lia.
Qed.

Lemma tally_lookup {V} (g : V -> N * N) (k : string) (v : V) (m : gmap string V) :
  m !! k = Some v ->
  tally g m
  = ((tally g (delete k m)).1 + (g v).1, (tally g (delete k m)).2 + (g v).2)%N.
Proof.
  intros Hk. unfold tally.
  rewrite (map_fold_delete_L _ _ k v m); [reflexivity | | exact Hk].
  intros j1 j2 z1 z2 [a b] _ _ _. cbn. f_equal; lia.
Qed.

(** What [recordRequest] reads before it updates: the provider and the
    model, or their initial values. *)
Lemma tally_default {V} (g : V -> N * N) (k : string) (zero : V)
    (m : gmap string V) :
  g zero = (0%N, 0%N) ->
  tally g m
  = ((tally g (delete k m)).1 + (g (default zero (m !! k))).1,
     (tally g (delete k m)).2 + (g (default zero (m !! k))).2)%N.
Proof.
  intros Hz. destruct (m !! k) as [v|] eqn:Hk.
  - now apply tally_lookup.
  - rewrite delete_id by exact Hk. cbn. rewrite Hz.
    destruct (tally g m) as [a b]. cbn. f_equal; lia.
Qed.

Lemma getTotal_tally (stats : StatisticsData) :
  getTotal stats
  = tally (fun provider => (pu_totalRequests provider, pu_totalTokens provider))
      (sd_providers stats).
Proof. unfold getTotal, getSummary, tally. now rewrite map_fold_fmap. Qed.

Lemma getProperty_own {V} (object : gmap string V) (key : string) (value : V) :
  object !! key = Some value -> getProperty object key = OwnProperty value.
Proof. intros Hl. unfold getProperty. now rewrite Hl. Qed.

(** What [recordRequest] stores when the provider id finds no member of
    [Object.prototype]. *)
Lemma recordRequest_returned (stored : option StatisticsData)
    (providerId modelId : string) (inputTokens outputTokens : N) (now : Z) :
  getProperty (sd_providers (getStatistics stored)) providerId <> InheritedMember ->
  let stats := getStatistics stored in
  let provider := default emptyProviderUsage (sd_providers stats !! providerId) in
  let modelStats := default (emptyModelUsage modelId) (pu_models provider !! modelId) in
  recordRequest stored providerId modelId inputTokens outputTokens now
  = Returned
      {| sd_version := sd_version stats;
         sd_providers :=
           <[providerId :=
               {| pu_models :=
                    match getProperty (pu_models provider) modelId with
                    | InheritedMember => pu_models provider
                    | _ =>
                        <[modelId :=
                            {| mu_modelId := mu_modelId modelStats;
                               mu_requestCount := mu_requestCount modelStats + 1;
                               mu_totalInputTokens :=
                                 mu_totalInputTokens modelStats + inputTokens;
                               mu_totalOutputTokens :=
                                 mu_totalOutputTokens modelStats + outputTokens;
                               mu_lastUsed := now |}]>
                          (pu_models provider)
                    end;
                  pu_totalRequests := pu_totalRequests provider + 1;
                  pu_totalTokens :=
                    pu_totalTokens provider + (inputTokens + outputTokens) |}]>
             (sd_providers stats) |}.
Proof.
  intros Hp. cbn zeta. unfold recordRequest.
  destruct (sd_providers (getStatistics stored) !! providerId) as [pu|] eqn:Hl.
  - rewrite (getProperty_own _ _ _ Hl).
    change (default emptyProviderUsage (Some pu)) with pu.
    destruct (pu_models pu !! modelId) as [m|] eqn:Hm.
    + now rewrite (getProperty_own _ _ _ Hm).
    + unfold getProperty. rewrite Hm.
      destruct (existsb _ objectPrototypeKeys); reflexivity.
  - unfold getProperty in Hp |- *. rewrite Hl in Hp |- *.
    destruct (existsb (String.eqb providerId) objectPrototypeKeys);
      [contradiction |].
    change (default emptyProviderUsage None) with emptyProviderUsage.
    cbn [emptyProviderUsage pu_models]. rewrite lookup_empty.
    destruct (existsb _ objectPrototypeKeys); reflexivity.
Qed.

Lemma recordRequest_threw (stored : option StatisticsData)
    (providerId modelId : string) (inputTokens outputTokens : N) (now : Z) :
  getProperty (sd_providers (getStatistics stored)) providerId = InheritedMember ->
  recordRequest stored providerId modelId inputTokens outputTokens now
  = Threw (undefinedReadMessage modelId).
Proof. intros Hp. unfold recordRequest. now rewrite Hp. Qed.

Lemma getProperty_inherited {V} (object : gmap string V) (key : string) :
  getProperty object key = InheritedMember
  <-> object !! key = None /\ existsb (String.eqb key) objectPrototypeKeys = true.
Proof.
  unfold getProperty. destruct (object !! key); [split; [discriminate | intros [? _]; discriminate] |].
  destruct (existsb _ _); split; try discriminate; auto.
  intros [_ ?]; discriminate.
Qed.

(** X22.  A recorded request counts once, and a provider id that names a
    member of [Object.prototype] records nothing: [recordRequest] throws
    exactly when the provider id is not an own key of the store and names
    such a member; when it returns, the store it leaves counts one more
    request and the input and output tokens more in the totals over all
    providers, whatever the model id. *)
Theorem recordRequest_adds_to_total (stored : option StatisticsData)
    (providerId modelId : string) (inputTokens outputTokens : N) (now : Z) :
  match recordRequest stored providerId modelId inputTokens outputTokens now with
  | Returned after =>
      getProperty (sd_providers (getStatistics stored)) providerId <> InheritedMember
      /\ getTotal after
         = ((getTotal (getStatistics stored)).1 + 1,
            (getTotal (getStatistics stored)).2 + (inputTokens + outputTokens))%N
  | Threw _ =>
      sd_providers (getStatistics stored) !! providerId = None
      /\ existsb (String.eqb providerId) objectPrototypeKeys = true
  end.
Proof.
  destruct (getProperty (sd_providers (getStatistics stored)) providerId) eqn:Hp.
  - rewrite recordRequest_returned by (rewrite Hp; discriminate).
    split; [discriminate |].
    rewrite !getTotal_tally. cbn [sd_providers]. rewrite tally_insert.
    rewrite (tally_default _ providerId emptyProviderUsage
               (sd_providers (getStatistics stored))) by reflexivity.
    destruct (tally _ (delete providerId _)) as [a b]. cbn. f_equal; lia.
  - rewrite recordRequest_threw by exact Hp. now apply getProperty_inherited.
  - rewrite recordRequest_returned by (rewrite Hp; discriminate).
    split; [discriminate |].
    rewrite !getTotal_tally. cbn [sd_providers]. rewrite tally_insert.
    rewrite (tally_default _ providerId emptyProviderUsage
               (sd_providers (getStatistics stored))) by reflexivity.
    destruct (tally _ (delete providerId _)) as [a b]. cbn. f_equal; lia.
Qed.

Lemma recordRequest_returns (stored : option StatisticsData)
    (providerId modelId : string) (inputTokens outputTokens : N) (now : Z)
    (after : StatisticsData) :
  recordRequest stored providerId modelId inputTokens outputTokens now = Returned after ->
  getProperty (sd_providers (getStatistics stored)) providerId <> InheritedMember.
Proof.
  intros Hr Hp. rewrite recordRequest_threw in Hr by exact Hp. discriminate.
Qed.

(** X23.  When the totals of every provider are the sums over its models
    and [recordRequest] returns, they are so afterwards exactly when the
    model id does not find a member of [Object.prototype] in the models of
    the provider: such a model id raises the totals of the provider and
    leaves no entry for the model.  The empty store is consistent. *)
Theorem recordRequest_consistent (stored : option StatisticsData)
    (providerId modelId : string) (inputTokens outputTokens : N) (now : Z)
    (after : StatisticsData) :
  consistent (getStatistics stored) ->
  recordRequest stored providerId modelId inputTokens outputTokens now = Returned after ->
  let provider :=
    default emptyProviderUsage (sd_providers (getStatistics stored) !! providerId) in
  (consistent after <-> getProperty (pu_models provider) modelId <> InheritedMember)
  /\ consistent createEmptyStatistics.
Proof.
  intros Hc Hr provider.
  split; [|intros pid pu Hl; cbn in Hl; now rewrite lookup_empty in Hl].
  pose proof (recordRequest_returns _ _ _ _ _ _ _ Hr) as Hp.
  rewrite (recordRequest_returned _ _ _ _ _ _ Hp) in Hr. cbn zeta in Hr.
  injection Hr as <-. fold provider.
  assert (Hprov : modelsUsage (pu_models provider)
                  = (pu_totalRequests provider, pu_totalTokens provider)).
  { subst provider.
    destruct (sd_providers (getStatistics stored) !! providerId) as [pu|] eqn:Hl;
      [exact (Hc _ _ Hl) | reflexivity]. }
  split.
  - intros Hafter Hm.
    specialize (Hafter providerId _ (lookup_insert_eq _ _ _)).
    cbn [pu_models pu_totalRequests pu_totalTokens sd_providers] in Hafter.
    rewrite Hm, Hprov in Hafter. injection Hafter as H1 _. lia.
  - intros Hm pid pu. cbn [sd_providers].
    rewrite lookup_insert. case_decide as Hpid; [|apply Hc].
    intros Hl. injection Hl as <-. cbn [pu_models pu_totalRequests pu_totalTokens].
    change modelsUsage
      with (tally (fun model =>
                     (mu_requestCount model,
                      (mu_totalInputTokens model + mu_totalOutputTokens model)%N))) in *.
    assert (Hins : forall other,
              match getProperty (pu_models provider) modelId with
              | InheritedMember => pu_models provider
              | _ => other
              end = other)
      by (intros other; destruct (getProperty (pu_models provider) modelId);
          [reflexivity | contradiction | reflexivity]).
    rewrite Hins. rewrite tally_insert.
    rewrite (tally_default _ modelId (emptyModelUsage modelId) (pu_models provider))
      in Hprov by reflexivity.
    destruct (tally _ (delete modelId _)) as [a b]. cbn in *.
    injection Hprov as <- <-. f_equal; lia.
Qed.




Lemma usage_models_bounded (start : Z) (l : list (string * ModelUsageStats))
    (acc : N * N) :
  let used :=
    foldr (uncurry (fun (_ : string) model acc' =>
                      if (start <=? mu_lastUsed model)%Z
                      then (acc'.1 + mu_requestCount model,
                            acc'.2 + (mu_totalInputTokens model
                                      + mu_totalOutputTokens model))%N
                      else acc')) acc l in
  let all :=
    foldr (uncurry (fun (_ : string) model acc' =>
                      (acc'.1 + mu_requestCount model,
                       acc'.2 + (mu_totalInputTokens model
                                 + mu_totalOutputTokens model))%N)) (0%N, 0%N) l in
  (acc.1 <= used.1 <= acc.1 + all.1)%N /\ (acc.2 <= used.2 <= acc.2 + all.2)%N.
Proof.
  induction l as [|[k model] l IH]; cbn zeta in *; cbn [foldr uncurry].
  - cbn. lia.
  - destruct (start <=? mu_lastUsed model)%Z; cbn; lia.
Qed.

(** X25.  The statistics of the week and of the month never exceed the
    totals: in a consistent store, the requests and the tokens counted
    since any start are at most those of [getTotal]. *)
Theorem usage_since_bounded (start : Z) (stats : StatisticsData) :
  consistent stats ->
  ((getWeekStatistics start stats).1 <= (getTotal stats).1)%N
  /\ ((getWeekStatistics start stats).2 <= (getTotal stats).2)%N
  /\ getMonthStatistics start stats = getWeekStatistics start stats.
Proof.
  intros Hc.
  enough (Hmain : ((usageSince start stats).1 <= (getTotal stats).1)%N
                  /\ ((usageSince start stats).2 <= (getTotal stats).2)%N)
    by (destruct Hmain; repeat split; assumption).
  rewrite getTotal_tally. unfold usageSince, tally.
  rewrite !map_fold_foldr.
  assert (Hl : forall k pu, (k, pu) ∈ map_to_list (sd_providers stats) ->
                 modelsUsage (pu_models pu) = (pu_totalRequests pu, pu_totalTokens pu))
    by (intros k pu Hin; apply elem_of_map_to_list in Hin; exact (Hc k pu Hin)).
  induction (map_to_list (sd_providers stats)) as [|[k pu] l IH].
  - cbn. split; lia.
  - cbn [foldr uncurry].
    assert (Hk := Hl k pu ltac:(apply elem_of_cons; now left)).
    destruct IH as (IH1 & IH2);
      [intros k' pu' Hin; apply (Hl k' pu'), elem_of_cons; now right |].
    unfold modelsUsage in Hk. rewrite map_fold_foldr in Hk.
    rewrite map_fold_foldr.
    match goal with |- context [foldr _ ?acc (map_to_list (pu_models pu))] =>
      pose proof (usage_models_bounded start (map_to_list (pu_models pu)) acc) as Hb
    end.
    cbn zeta in Hb. rewrite Hk in Hb.
    destruct (foldr _ _ (map_to_list (pu_models pu))) as [u1 u2].
    destruct (foldr _ (0%N, 0%N) l) as [w1 w2].
    destruct (foldr _ (0%N, 0%N) l) as [t1 t2].
    cbn [fst snd] in *. split; lia.
Qed.

End Statistics.

(** ** Further runs on the reference platform *)

Lemma unterminated_line_is_buffered_witness :
  processChunk newProvider "" "data: {" = (newProvider, "data: {", [])
  /\ processChunks newProvider "" ["data: {"; "x"]
     = processChunks newProvider "data: {" ["x"].
Proof.
  apply (unterminated_line_is_buffered (H:=RefJson.platform) newProvider "" "data: {" ["x"]).
  reflexivity.
Defined.

Lemma noise_lines_are_dropped_witness :
  processLines newProvider [": keep-alive"; "data: {oops"; ""] = (newProvider, []).
Proof.
  apply (noise_lines_are_dropped (H:=RefJson.platform) newProvider
           [": keep-alive"; "data: {oops"; ""]).
  constructor; [left; reflexivity |].
  constructor; [right; split; vm_compute; reflexivity |].
  constructor; [left; reflexivity |].
  constructor.
Defined.

Lemma completed_never_pending_witness :
  pendingFresh (fst (processChunks newProvider "" [toolCallLine "search" "{}"])).
Proof.
  apply (completed_never_pending (H:=RefJson.platform) newProvider ""
           [toolCallLine "search" "{}"]).
  split; [constructor |].
  intros idx Hin. cbn in Hin. now apply not_elem_of_empty in Hin.
Defined.

Lemma flush_leaves_unparseable_witness :
  let st := set_toolCallBuffers
              [(0%Z, {| buf_id := None; buf_name := Some "search"; buf_args := "{}" |});
               (1%Z, {| buf_id := None; buf_name := Some "fetch"; buf_args := "{" |})]
              newProvider in
  _toolCallBuffers (fst (fst (flushToolCallBuffers st false)))
  = [(1%Z, {| buf_id := None; buf_name := Some "fetch"; buf_args := "{" |})].
Proof.
  intros st.
  apply (flush_leaves_unparseable (H:=RefJson.platform) st false).
  - cbn. apply NoDup_cons. split; [|apply NoDup_singleton].
    intros Hin. apply list_elem_of_singleton in Hin. discriminate.
  - vm_compute. reflexivity.
Defined.

Lemma plain_text_passes_through_witness :
  processTextContent newProvider "Hello"
  = (newProvider, [LanguageModelTextPart "Hello"],
     {| emittedText := true; emittedAny := true |})
  /\ processDelta newProvider (contentDelta "Hello")
     = (set_outputTokenCount 2%N (set_hasEmittedAssistantText true newProvider),
        [LanguageModelTextPart "Hello"], Returned true).
Proof.
  apply (plain_text_passes_through (H:=RefJson.platform) newProvider "Hello");
    reflexivity.
Defined.

Lemma framed_inline_call_once_witness :
  let call := BEGIN +:+ "get_weather" +:+ ARG_BEGIN +:+ "{}" +:+ END in
  let '(st1, parts1, _) := processTextContent newProvider call in
  let '(_, parts2, _) := processTextContent st1 call in
  parts1 = [LanguageModelToolCallPart (FreshId "tct_") "get_weather" (RefJson.JObject [])]
  /\ parts2 = [].
Proof.
  pose proof (framed_inline_call_once (H:=RefJson.platform) newProvider "get_weather" "{}"
                (RefJson.JObject []) eq_refl eq_refl eq_refl eq_refl eq_refl eq_refl
                eq_refl eq_refl) as Hx.
  cbv zeta in Hx. destruct Hx as (Hfresh & _ & Hagain).
  cbv zeta. rewrite (Hfresh (not_elem_of_empty _)), Hagain. split; reflexivity.
Defined.

Lemma inline_call_reported_before_end_witness :
  let '(st1, parts1, _) :=
    processTextContent newProvider (BEGIN +:+ "get_weather" +:+ ARG_BEGIN +:+ "{}") in
  let '(st2, parts2, _) := processTextContent st1 END in
  parts1 = [LanguageModelToolCallPart (FreshId "tct_") "get_weather" (RefJson.JObject [])]
  /\ option_map tta_emitted (_textToolActive st1) = Some true
  /\ parts2 = []
  /\ _textToolActive st2 = None.
Proof.
  apply (inline_call_reported_before_end (H:=RefJson.platform) newProvider
           "get_weather" "{}" (RefJson.JObject []));
    try reflexivity.
  apply not_elem_of_empty.
Defined.

Lemma header_grammar_witness :
  tta_name (headerCall "get_weather:12 ") = Some "get_weather"
  /\ tta_index (headerCall "get_weather:12 ") = Some (Finite 12)
  /\ tta_index (headerCall "f:9007199254740993")
     = Some (Finite 9007199254740992).
Proof.
  destruct (header_grammar "get_weather" ":12 " eq_refl eq_refl eq_refl)
    as (Hname & Hindex & _).
  split; [exact Hname |].
  split.
  - destruct (Hindex "12" " " eq_refl eq_refl eq_refl eq_refl) as [_ Hexact].
    apply Hexact. reflexivity.
  - destruct (header_grammar "f" ":9007199254740993" eq_refl eq_refl eq_refl)
      as (_ & Hbig & _).
    destruct (Hbig "9007199254740993" "" eq_refl eq_refl eq_refl eq_refl) as [Hround _].
    change (tta_index (headerCall ("f" +:+ ":9007199254740993"))
            = Some (Finite 9007199254740992)).
    rewrite Hround. vm_compute. reflexivity.
Defined.

Lemma strip_removes_token_witness :
  stripControlTokens ("Hello " +:+ END +:+ " world") = "Hello " +:+ " world".
Proof.
  apply (strip_removes_token "Hello " " world" END); [reflexivity | reflexivity |].
  left. right. right. left. reflexivity.
Defined.

Lemma model_id_round_trip_witness :
  List.map (fun info => extractActualModelId (info_id info) chatglmGeneral)
    (buildModelInformation [{| m_id := "glm-4.6" |}; {| m_id := "org:glm" |}]
       chatglmGeneral None)
  = ["glm-4.6"; "org:glm"].
Proof.
  apply (model_id_round_trip chatglmGeneral
           [{| m_id := "glm-4.6" |}; {| m_id := "org:glm" |}] None).
  reflexivity.
Defined.

Lemma placeholders_collapse_witness :
  length (uniqueInfos ∅
            (collectInfos getAllProviders ["chatglm-coding"; "chatglm-general"]
               (fun _ => NoApiKey)))
  <= 1.
Proof.
  apply (placeholders_collapse getAllProviders ["chatglm-coding"; "chatglm-general"]).
  repeat constructor.
Defined.

Lemma recordRequest_consistent_witness :
  let stored r := match r with
                  | Returned after => after
                  | Threw _ => createEmptyStatistics
                  end in
  consistent
    (stored (recordRequest None "chatglm-coding" "chatglm-coding:glm-4.6" 10 20 1000))
  /\ ~ consistent (stored (recordRequest None "chatglm-coding" "toString" 10 20 1000)).
Proof.
  intros stored.
  assert (Hempty : consistent (getStatistics None))
    by (intros pid pu Hl; cbn in Hl; rewrite lookup_empty in Hl; discriminate).
  split.
  - destruct (recordRequest_consistent None "chatglm-coding" "chatglm-coding:glm-4.6"
                10 20 1000 _ Hempty eq_refl) as [Hiff _].
    apply Hiff. vm_compute. discriminate.
  - destruct (recordRequest_consistent None "chatglm-coding" "toString"
                10 20 1000 _ Hempty eq_refl) as [Hiff _].
    intros Hc. apply Hiff in Hc. apply Hc. vm_compute. reflexivity.
Defined.


Lemma usage_since_bounded_witness :
  let stats :=
    {| sd_version := "1.0.0";
       sd_providers :=
         {[ "chatglm-coding" :=
              {| pu_models :=
                   {[ "chatglm-coding:glm-4.6" :=
                        {| mu_modelId := "chatglm-coding:glm-4.6";
                           mu_requestCount := 1; mu_totalInputTokens := 10;
                           mu_totalOutputTokens := 20; mu_lastUsed := 1000 |} ]};
                 pu_totalRequests := 1; pu_totalTokens := 30 |} ]} |} in
  ((getWeekStatistics 2000 stats).1 <= (getTotal stats).1)%N
  /\ ((getWeekStatistics 2000 stats).2 <= (getTotal stats).2)%N
  /\ getMonthStatistics 2000 stats = getWeekStatistics 2000 stats.
Proof.
  intros stats. apply (usage_since_bounded 2000 stats).
  intros pid pu Hl. unfold stats in Hl. cbn [sd_providers] in Hl.
  apply lookup_singleton_Some in Hl as [_ <-]. vm_compute. reflexivity.
Defined.
